(** * Operational peer connection core of matter.js: model and verification

    The development embeds five parts of the repository:
    - [TlvFloat]: the bounded float schema validator (FloatSchema.validate);
    - [AsyncConstruction]: the lifecycle handle of asynchronously built objects;
    - [Interning]: logical address interning (PeerAddress, PeerAddressMap);
    - [PeerSet]: the peer set with its discovery orchestration, pairing,
      cache handling and deletion;
    - [PartStoreService]: the allocation of endpoint numbers to parts.

    Definitions come first, one module per source file; the theorems follow
    in the second half. *)

From Stdlib Require Import ZArith NArith String Ascii List Floats.
From Stdlib Require Import DecimalString HexadecimalString.
From Stdlib Require Import DecimalPos DecimalN HexadecimalPos HexadecimalN.
From stdpp Require Import gmap strings list fin_maps.

Local Open Scope string_scope.

(* ===================================================================== *)
(** * Part I: definitions                                                 *)
(* ===================================================================== *)

(** ** TLV float schema *)

Module TlvFloat.

(** A template literal is kept as the sequence of its pieces, so that the
    interpolated values stay visible: [Text] is literal text, [Num] an
    interpolated number and [Undefined] an interpolated [undefined]. *)
Inductive Piece :=
| Text (s : string)
| Num (x : float)
| Undefined.

Definition Message := list Piece.

Definition interpolate (x : option float) : Piece :=
  match x with
  | Some v => Num v
  | None => Undefined
  end.

Inductive TlvLength := FourBytes | EightBytes.

(** class FloatSchema: the three private constructor fields. *)
Record FloatSchema := {
  min : option float;
  max : option float;
  precision : TlvLength;
}.

(** The outcome of a call that returns nothing or throws [Error(message)]. *)
Inductive Outcome :=
| Ok
| Throw (message : Message).

(** [this.min !== undefined && value < this.min] *)
Definition belowMin (s : FloatSchema) (value : float) : bool :=
  match min s with
  | Some lo => PrimFloat.ltb value lo
  | None => false
  end.

(** [this.max !== undefined && value > this.max] *)
Definition aboveMax (s : FloatSchema) (value : float) : bool :=
  match max s with
  | Some hi => PrimFloat.ltb hi value
  | None => false
  end.

(** FloatSchema.validate.  Both messages interpolate [this.min]. *)
Definition validate (s : FloatSchema) (value : float) : Outcome :=
  if belowMin s value then
    Throw [Text "Invalid value: "; Num value;
           Text " is below the minimum, "; interpolate (min s); Text "."]
  else if aboveMax s value then
    Throw [Text "Invalid value: "; Num value;
           Text " is above the maximum, "; interpolate (min s); Text "."]
  else Ok.

(** TlvBoundedDouble({min, max}, precision) *)
Definition TlvBoundedDouble (lo hi : option float) (p : option TlvLength) : FloatSchema :=
  {| min := lo; max := hi; precision := default EightBytes p |}.

(** The bounds of a single-precision float. *)
Definition FLOAT32_MIN : float := (-340282346638528859811704183484516925440.0)%float.
Definition FLOAT32_MAX : float := 340282346638528859811704183484516925440.0%float.

(** Float TLV schema. *)
Definition TlvFloat : FloatSchema :=
  TlvBoundedDouble (Some FLOAT32_MIN) (Some FLOAT32_MAX) (Some FourBytes).

(** Double TLV schema. *)
Definition TlvDouble : FloatSchema := TlvBoundedDouble None None None.

End TlvFloat.

(** ** Asynchronous construction *)

Module AsyncConstruction.

(** Modelled from the spec: LifecycleStatus is declared in common/Lifecycle,
    outside the modelled files; it is one of Initializing, Active,
    Incapacitated and Destroyed. *)
Inductive LifecycleStatus := Initializing | Active | Incapacitated | Destroyed.

(** A thrown JavaScript value.  [assert] tests the saved error for
    truthiness, so the model keeps whether the value is truthy. *)
Record Thrown := {
  truthy : bool;
  text : string;
}.

(** What the [promise] variable of the closure holds. *)
Inductive PromiseSlot :=
| Placeholder
| Initialization.

(** The closure variables of one handle, plus two bookkeeping fields:
    [pending] tells that the initializer's promise has not settled yet and
    [hookCalls] counts the invocations of the owner's cancel hook. *)
Record State := {
  promise : option PromiseSlot;
  error : option Thrown;
  started : bool;
  ready : bool;
  canceled : bool;
  status : LifecycleStatus;
  pending : bool;
  hookCalls : nat;
}.

Definition initial : State :=
  {| promise := None; error := None; started := false; ready := false;
     canceled := false; status := Initializing; pending := false;
     hookCalls := 0 |}.

(** Calls an initializer may make on the handle while it runs. *)
Inductive Reentry := ReStart | ReCancel | ReThen.

Inductive Completion :=
| Returns
| Throws (e : Thrown)
| ReturnsPromise.

Record Initializer := {
  reentrant : list Reentry;
  completion : Completion;
}.

Inductive Exception :=
| ImplementationError (message : string)
| Rethrown (e : Thrown)
| IncapacitatedDependencyError (cause : Thrown)
| UninitializedDependencyError (message : string).

Section Handle.

(** Whether the owner supplied a cancel hook. *)
Variable hasCancel : bool.

(** cancel() *)
Definition cancel (s : State) : State :=
  if ready s || canceled s then s
  else if hasCancel then
    {| promise := promise s; error := error s; started := started s;
       ready := ready s; canceled := true; status := Destroyed;
       pending := pending s; hookCalls := S (hookCalls s) |}
  else s.

(** then(): only its effect on the closure variables. *)
Definition then_ (s : State) : State :=
  if started s then s
  else
    {| promise := Some Placeholder; error := error s; started := started s;
       ready := ready s; canceled := canceled s; status := status s;
       pending := pending s; hookCalls := hookCalls s |}.

(** A call made by the running initializer.  [started] is already true
    then, so a nested start throws at its guard and changes nothing. *)
Definition reenter (s : State) (r : Reentry) : State :=
  match r with
  | ReStart => s
  | ReCancel => cancel s
  | ReThen => then_ s
  end.

(** start(initializer) *)
Definition start (init : Initializer) (s : State) : State * option Exception :=
  if started s then
    (s, Some (ImplementationError "Initialization has already started"))
  else
    let s1 :=
      {| promise := promise s; error := error s; started := true;
         ready := ready s; canceled := canceled s; status := status s;
         pending := pending s; hookCalls := hookCalls s |} in
    let s2 := fold_left reenter (reentrant init) s1 in
    match completion init with
    | Throws e =>
        ({| promise := promise s2; error := Some e; started := started s2;
            ready := true; canceled := canceled s2; status := Incapacitated;
            pending := pending s2; hookCalls := hookCalls s2 |},
         Some (Rethrown e))
    | ReturnsPromise =>
        ({| promise := Some (default Initialization (promise s2));
            error := error s2; started := started s2;
            ready := false; canceled := canceled s2; status := status s2;
            pending := true; hookCalls := hookCalls s2 |},
         None)
    | Returns =>
        ({| promise := promise s2; error := error s2; started := started s2;
            ready := true; canceled := canceled s2; status := Active;
            pending := pending s2; hookCalls := hookCalls s2 |},
         None)
    end.

(** The two callbacks registered on the initializer's promise; they run
    once, when that promise settles ([None]: fulfilled). *)
Definition settle (r : option Thrown) (s : State) : State :=
  if pending s then
    match r with
    | None =>
        {| promise := promise s; error := error s; started := started s;
           ready := true; canceled := canceled s; status := Active;
           pending := false; hookCalls := hookCalls s |}
    | Some e =>
        {| promise := promise s; error := Some e; started := started s;
           ready := true; canceled := canceled s; status := Incapacitated;
           pending := false; hookCalls := hookCalls s |}
    end
  else s.

(** [if (error)]: the saved error, when there is one and it is truthy. *)
Definition truthyError (s : State) : option Thrown :=
  match error s with
  | Some e => if truthy e then Some e else None
  | None => None
  end.

(** assert() *)
Definition assert (s : State) : option Exception :=
  match truthyError s with
  | Some e => Some (IncapacitatedDependencyError e)
  | None =>
      if negb (ready s) then
        Some (UninitializedDependencyError
                "Resource unavailable because initialization is ongoing")
      else if canceled s then
        Some (UninitializedDependencyError
                "Resource unavailable because initialization was canceled")
      else None
  end.

(** What can happen to a handle. *)
Inductive Event :=
| Start (init : Initializer)
| Settle (r : option Thrown)
| Cancel
| Then
| Assert.

Definition step (s : State) (e : Event) : State :=
  match e with
  | Start init => fst (start init s)
  | Settle r => settle r s
  | Cancel => cancel s
  | Then => then_ s
  | Assert => s
  end.

Definition run (events : list Event) (s : State) : State :=
  fold_left step events s.

(** The states a handle goes through. *)
Definition reachable (s : State) : Prop :=
  exists events, s = run events initial.


(** The invariant that ties [ready], [started], [pending], [canceled]
    and [status] together. *)
Definition consistent (s : State) : Prop :=
  (ready s = true -> started s = true /\ pending s = false) /\
  (pending s = true -> started s = true) /\
  (ready s = true -> status s = Active \/ status s = Incapacitated) /\
  (ready s = false -> status s = if canceled s then Destroyed else Initializing).

End Handle.

(** AsyncConstruction(target, initializer?, cancel?) *)
Definition AsyncConstruction (initializer : option Initializer) (hasCancel : bool)
  : State * option Exception :=
  match initializer with
  | Some init => start hasCancel init initial
  | None => (initial, None)
  end.

(** An error is saved exactly when the status is [Incapacitated], and
    only once the initializer has completed. *)
Definition errorSaved (s : State) : Prop :=
  (is_Some (error s) <-> status s = Incapacitated) /\
  (is_Some (error s) -> ready s = true).

(** The cancel hook has run once if a cancellation is recorded and not at
    all otherwise, and a cancellation is recorded only on a handle that
    has a hook. *)
Definition hookedOnce (hasCancel : bool) (s : State) : Prop :=
  hookCalls s = (if canceled s then 1 else 0) /\
  (canceled s = true -> hasCancel = true).

End AsyncConstruction.

(** ** Logical address interning *)

Module Interning.

(** Object identity: a reference into the heap of address objects. *)
Definition Ref := positive.

(** An object that satisfies the PeerAddress interface.  [interned] tells
    whether the object carries the module-private [interned] symbol. *)
Record AddressObject := {
  fabricIndex : N;
  nodeId : N;
  interned : bool;
}.

Global Instance AddressObject_eq_dec : EqDecision AddressObject.
Proof. solve_decision. Defined.

(** The address objects alive in the program and the module-level table
    [internedAddresses], a map from fabric index to a map from node id to
    the canonical object. *)
Record Heap := {
  objects : gmap Ref AddressObject;
  internedAddresses : gmap N (gmap N Ref);
}.

Definition empty : Heap := {| objects := ∅; internedAddresses := ∅ |}.

(** An object literal [{ fabricIndex, nodeId }] written by a caller. *)
Definition literal (f n : N) (h : Heap) : Ref * Heap :=
  let r := fresh (dom (objects h)) in
  (r, {| objects := <[r := {| fabricIndex := f; nodeId := n; interned := false |}]> (objects h);
         internedAddresses := internedAddresses h |}).

Definition lookupInterned (h : Heap) (f n : N) : option Ref :=
  internedAddresses h !! f ≫= λ m, m !! n.

(** function PeerAddress(address).  The result is [None] only for a
    reference that is not in the heap. *)
Definition PeerAddress (address : Ref) (h : Heap) : option (Ref * Heap) :=
  o ← objects h !! address;
  if interned o then Some (address, h)
  else
    let '(internedFabric, table) :=
      match internedAddresses h !! fabricIndex o with
      | Some m => (m, internedAddresses h)
      | None => (∅, <[fabricIndex o := ∅]> (internedAddresses h))
      end in
    match internedFabric !! nodeId o with
    | Some internedAddress =>
        Some (internedAddress, {| objects := objects h; internedAddresses := table |})
    | None =>
        let internedAddress := fresh (dom (objects h)) in
        Some (internedAddress,
              {| objects :=
                   <[internedAddress :=
                       {| fabricIndex := fabricIndex o; nodeId := nodeId o;
                          interned := true |}]> (objects h);
                 internedAddresses :=
                   <[fabricIndex o := <[nodeId o := internedAddress]> internedFabric]> table |})
    end.

(** The heap after a call that finds neither the marker nor a table entry. *)
Definition filed (h : Heap) (f n : N) : Heap :=
  let r := fresh (dom (objects h)) in
  {| objects := <[r := {| fabricIndex := f; nodeId := n; interned := true |}]> (objects h);
     internedAddresses :=
       <[f := <[n := r]> (default ∅ (internedAddresses h !! f))]> (internedAddresses h) |}.

(** class PeerAddressMap<T> extends Map<PeerAddress, T>: a map keyed by
    object identity whose four overridden methods intern their key. *)
Module PeerAddressMap.
Section Methods.
Context {T : Type}.

Definition delete (key : Ref) (m : gmap Ref T) (h : Heap)
  : option (bool * gmap Ref T * Heap) :=
  '(k, h') ← PeerAddress key h;
  Some (bool_decide (is_Some (m !! k)), base.delete k m, h').

Definition has (key : Ref) (m : gmap Ref T) (h : Heap) : option (bool * Heap) :=
  '(k, h') ← PeerAddress key h;
  Some (bool_decide (is_Some (m !! k)), h').

Definition set (key : Ref) (value : T) (m : gmap Ref T) (h : Heap)
  : option (gmap Ref T * Heap) :=
  '(k, h') ← PeerAddress key h;
  Some (<[k := value]> m, h').

Definition get (key : Ref) (m : gmap Ref T) (h : Heap) : option (option T * Heap) :=
  '(k, h') ← PeerAddress key h;
  Some (m !! k, h').
End Methods.
End PeerAddressMap.

(** What the rest of the program does to the heap between two calls. *)
Inductive Operation :=
| Literal (f n : N)
| Intern (address : Ref).

Definition perform (h : Heap) (op : Operation) : Heap :=
  match op with
  | Literal f n => (literal f n h).2
  | Intern address =>
      match PeerAddress address h with
      | Some (_, h') => h'
      | None => h
      end
  end.

Definition later (ops : list Operation) (h : Heap) : Heap := fold_left perform ops h.

(** Heap invariant: every table entry is an object with the marker and the
    fields it is filed under, and only table entries carry the marker. *)
Definition wf (h : Heap) : Prop :=
  map_Forall (λ f m, map_Forall (λ n r,
      objects h !! r = Some {| fabricIndex := f; nodeId := n; interned := true |}) m)
    (internedAddresses h) ∧
  map_Forall (λ r o,
      interned o = true → lookupInterned h (fabricIndex o) (nodeId o) = Some r)
    (objects h).

Global Instance wf_dec h : Decision (wf h).
Proof. unfold wf. apply _. Defined.

(** [h'] keeps every object and every table entry of [h]. *)
Definition extends (h h' : Heap) : Prop :=
  (∀ r o, objects h !! r = Some o → objects h' !! r = Some o) ∧
  (∀ f n r, lookupInterned h f n = Some r → lookupInterned h' f n = Some r).

End Interning.

(** ** Peer set *)

Module PeerSet.

(** *** Data *)

(** enum NodeDiscoveryType, with its numeric values. *)
Module NodeDiscoveryType.
Inductive t :=
| None
| RetransmissionDiscovery
| TimedDiscovery
| FullDiscovery.

Definition value (d : t) : Z :=
  match d with
  | None => 0
  | RetransmissionDiscovery => 1
  | TimedDiscovery => 2
  | FullDiscovery => 3
  end.

Global Instance eq_dec : EqDecision t.
Proof. solve_decision. Defined.
End NodeDiscoveryType.

(** An interned logical address.  The peer set interns every address it
    receives before using it as a key (see [Interning]), so the maps of the
    peer set are keyed by the pair of fabric index and node id. *)
Record PeerAddress := {
  fabricIndex : N;
  nodeId : N;
}.

Global Instance PeerAddress_eq_dec : EqDecision PeerAddress.
Proof. solve_decision. Defined.

Global Instance PeerAddress_countable : Countable PeerAddress.
Proof.
  refine (inj_countable' (λ a, (fabricIndex a, nodeId a))
            (λ p, {| fabricIndex := p.1; nodeId := p.2 |}) _).
  by intros [].
Defined.

Definition decimal (n : N) : string :=
  DecimalString.NilZero.string_of_uint (N.to_uint n).

Definition hexadecimal (n : N) : string :=
  HexadecimalString.NilZero.string_of_uint (N.to_hex_uint n).

(** toString() of an interned address. *)
Definition toString (a : PeerAddress) : string :=
  let nodeStr :=
    if (0xffff <? nodeId a)%N then "0x" ++ hexadecimal (nodeId a)
    else decimal (nodeId a) in
  "peer@" ++ decimal (fabricIndex a) ++ ":" ++ nodeStr.

Record ServerAddressIp := {
  ip : string;
  port : N;
}.

Global Instance ServerAddressIp_eq_dec : EqDecision ServerAddressIp.
Proof. solve_decision. Defined.

(** DiscoveryData, restricted to the three hints the peer set reads. *)
Record DiscoveryData := {
  SII : option N;
  SAI : option N;
  SAT : option N;
}.

Global Instance DiscoveryData_eq_dec : EqDecision DiscoveryData.
Proof. solve_decision. Defined.

(** [a ?? b] *)
Definition orElse {A} (a b : option A) : option A :=
  match a with
  | Some _ => a
  | None => b
  end.

(** [{ ...a, ...b }] on discovery data. *)
Definition spread (a b : option DiscoveryData) : DiscoveryData :=
  let field (f : DiscoveryData -> option N) := orElse (b ≫= f) (a ≫= f) in
  {| SII := field SII; SAI := field SAI; SAT := field SAT |}.

Record OperationalPeer := {
  address : PeerAddress;
  operationalAddress : option ServerAddressIp;
  discoveryData : option DiscoveryData;
}.

Global Instance OperationalPeer_eq_dec : EqDecision OperationalPeer.
Proof. solve_decision. Defined.

Record SessionParameters := {
  idleIntervalMs : option N;
  activeIntervalMs : option N;
  activeThresholdMs : option N;
}.

Record Session := {
  sessionId : nat;
  isSecure : bool;
}.

Definition TransportChannel := nat.

Record MessageChannel := {
  channel : TransportChannel;
  session : Session;
}.

Record AttributeValue := {
  endpointId : N;
  clusterId : N;
  attributeId : N;
  attributeName : string;
  value : string;
}.

Record ClusterDataVersion := {
  versionEndpointId : N;
  versionClusterId : N;
  dataVersion : N;
}.

Record NodeCachedData := {
  attributeValues : gmap string AttributeValue;
  clusterDataVersions : gmap string ClusterDataVersion;
  maxEventNumber : option N;
}.

(** The literal [{ attributeValues: new Map(), clusterDataVersions: new Map() }]. *)
Definition emptyCachedData : NodeCachedData :=
  {| attributeValues := ∅; clusterDataVersions := ∅; maxEventNumber := None |}.

(** Identity of the objects the peer set allocates: peers, closures,
    timers. *)
Definition PeerRef := nat.
Definition Timer := nat.

(** A pending-channel producer, one of the two closures
    [#connectOrDiscoverNode] pushes on [discoveryPromises], with the
    variables it captures.  [producerId] is the identity of the closure.
    - [PollingPromise]: [() => promise], settled by the periodic timer
      that polls the formerly known operational address;
    - [MdnsDiscovery]: the closure that calls
      ControllerDiscovery.discoverOperationalDevice with [timeoutSeconds]
      and pairs with the addresses found. *)
Inductive Producer :=
| PollingPromise (producerId : nat) (address : PeerAddress)
    (operationalAddress : ServerAddressIp) (discoveryData : option DiscoveryData)
| MdnsDiscovery (producerId : nat) (address : PeerAddress)
    (timeoutSeconds : option N) (discoveryData : option DiscoveryData).

Definition producerId (p : Producer) : nat :=
  match p with
  | MdnsDiscovery i _ _ _ => i
  | PollingPromise i _ _ _ => i
  end.

(** interface RunningDiscovery *)
Record RunningDiscovery := {
  type : NodeDiscoveryType.t;
  promises : option (list Producer);
  timer : option Timer;
}.

(** interface DiscoveryOptions *)
Record DiscoveryOptions := {
  discoveryType : option NodeDiscoveryType.t;
  timeoutSeconds : option N;
  optionsDiscoveryData : option DiscoveryData;
}.

(** [discoveryType: requestedDiscoveryType = NodeDiscoveryType.FullDiscovery] *)
Definition requestedType (o : DiscoveryOptions) : NodeDiscoveryType.t :=
  default NodeDiscoveryType.FullDiscovery (discoveryType o).

(** The options that pass the two configuration checks of
    [#connectOrDiscoverNode]. *)
Definition accepted (o : DiscoveryOptions) : Prop :=
  (is_Some (timeoutSeconds o) -> requestedType o = NodeDiscoveryType.TimedDiscovery) /\
  requestedType o <> NodeDiscoveryType.RetransmissionDiscovery.

Global Instance accepted_dec o : Decision (accepted o).
Proof. unfold accepted. apply _. Defined.

(** Modelled from the spec: the error classes that the peer set throws or
    tests for are declared outside the modelled files; these are the kinds of
    the error taxonomy, under the names the code uses. *)
Inductive ErrorClass :=
| ImplementationError
| DiscoveryError
| NoResponseTimeoutError
| RetransmissionLimitReachedError
| PairRetransmissionLimitReachedError
| NoChannelError
| OtherError.

Global Instance ErrorClass_eq_dec : EqDecision ErrorClass.
Proof. solve_decision. Defined.

Record Error := {
  class : ErrorClass;
  message : string;
}.

Global Instance Error_eq_dec : EqDecision Error.
Proof. solve_decision. Defined.

(** The calls the peer set makes on its collaborators, as they appear in
    the trace [calls] of a state. *)
Inductive Call :=
| OpenChannel (bindAddress : string) (operationalServerAddress : ServerAddressIp)
| CreateInsecureSession (sessionParameters : SessionParameters)
| InitiateExchangeWithChannel (messageChannel : MessageChannel)
| CasePair (address : PeerAddress) (expectedProcessingTimeMs : option N)
| ExchangeClose
| SessionDestroy (unsecureSession : Session)
| SetChannel (address : PeerAddress) (messageChannel : MessageChannel)
| RemoveAllNodeChannels (address : PeerAddress)
| RemoveAllSessionsForNode (address : PeerAddress) (sendClose : bool)
| DeleteResumptionRecord (address : PeerAddress)
| UpdatePeer (peer : OperationalPeer)
| DeletePeer (address : PeerAddress)
| CancelOperationalDeviceDiscovery (address : PeerAddress) (resolvePromise : option bool)
| FindOperationalDevice (address : PeerAddress) (timeoutMs : N) (ignoreExistingRecords : bool)
| DiscoverOperationalDevice (address : PeerAddress) (timeoutSeconds : option N)
    (ignoreExistingRecords : bool)
| TimerStart (timer : Timer) (intervalMs : N)
| TimerStop (timer : Timer).

(** How the collaborators answer.  Every answer may depend on the calls
    made so far.
    - [opens]: NetInterface.openChannel;
    - [pairs]: CaseClient.pair, the secure session and whether it was
      resumed;
    - [rejects]: the error, if any, with which a call that returns nothing
      fails. *)
Record World := {
  opens : list Call -> string -> ServerAddressIp -> Error + TransportChannel;
  pairs : list Call -> PeerAddress -> option N -> Error + (Session * bool);
  rejects : list Call -> Call -> option Error;
}.

(** The private fields of a PeerSet, the objects they refer to, and the
    state of the collaborators of [PeerSetContext]. *)
Record State := {
  peers : list PeerRef;
  peersByAddress : gmap PeerAddress PeerRef;
  runningPeerDiscoveries : gmap PeerAddress RunningDiscovery;
  nodeCachedData : gmap PeerAddress NodeCachedData;
  peerObjects : gmap PeerRef OperationalPeer;
  nextId : nat;
  channels : gmap PeerAddress MessageChannel;
  nodeSessions : gmap PeerAddress (list Session);
  resumptionRecords : gmap PeerAddress SessionParameters;
  store : gmap PeerAddress OperationalPeer;
  mdnsScanner : option (gmap PeerAddress (list ServerAddressIp));
  udpInterfaces : list string;
  calls : list Call;
}.

Definition withPeers (f : list PeerRef -> list PeerRef) (s : State) : State :=
  {| peers := f (peers s); peersByAddress := peersByAddress s;
     runningPeerDiscoveries := runningPeerDiscoveries s;
     nodeCachedData := nodeCachedData s; peerObjects := peerObjects s;
     nextId := nextId s; channels := channels s; nodeSessions := nodeSessions s;
     resumptionRecords := resumptionRecords s; store := store s;
     mdnsScanner := mdnsScanner s; udpInterfaces := udpInterfaces s;
     calls := calls s |}.

Definition withPeersByAddress
  (f : gmap PeerAddress PeerRef -> gmap PeerAddress PeerRef) (s : State) : State :=
  {| peers := peers s; peersByAddress := f (peersByAddress s);
     runningPeerDiscoveries := runningPeerDiscoveries s;
     nodeCachedData := nodeCachedData s; peerObjects := peerObjects s;
     nextId := nextId s; channels := channels s; nodeSessions := nodeSessions s;
     resumptionRecords := resumptionRecords s; store := store s;
     mdnsScanner := mdnsScanner s; udpInterfaces := udpInterfaces s;
     calls := calls s |}.

Definition withRunningPeerDiscoveries
  (f : gmap PeerAddress RunningDiscovery -> gmap PeerAddress RunningDiscovery)
  (s : State) : State :=
  {| peers := peers s; peersByAddress := peersByAddress s;
     runningPeerDiscoveries := f (runningPeerDiscoveries s);
     nodeCachedData := nodeCachedData s; peerObjects := peerObjects s;
     nextId := nextId s; channels := channels s; nodeSessions := nodeSessions s;
     resumptionRecords := resumptionRecords s; store := store s;
     mdnsScanner := mdnsScanner s; udpInterfaces := udpInterfaces s;
     calls := calls s |}.

Definition withNodeCachedData
  (f : gmap PeerAddress NodeCachedData -> gmap PeerAddress NodeCachedData)
  (s : State) : State :=
  {| peers := peers s; peersByAddress := peersByAddress s;
     runningPeerDiscoveries := runningPeerDiscoveries s;
     nodeCachedData := f (nodeCachedData s); peerObjects := peerObjects s;
     nextId := nextId s; channels := channels s; nodeSessions := nodeSessions s;
     resumptionRecords := resumptionRecords s; store := store s;
     mdnsScanner := mdnsScanner s; udpInterfaces := udpInterfaces s;
     calls := calls s |}.

Definition withPeerObjects
  (f : gmap PeerRef OperationalPeer -> gmap PeerRef OperationalPeer) (s : State) : State :=
  {| peers := peers s; peersByAddress := peersByAddress s;
     runningPeerDiscoveries := runningPeerDiscoveries s;
     nodeCachedData := nodeCachedData s; peerObjects := f (peerObjects s);
     nextId := nextId s; channels := channels s; nodeSessions := nodeSessions s;
     resumptionRecords := resumptionRecords s; store := store s;
     mdnsScanner := mdnsScanner s; udpInterfaces := udpInterfaces s;
     calls := calls s |}.

Definition withNextId (f : nat -> nat) (s : State) : State :=
  {| peers := peers s; peersByAddress := peersByAddress s;
     runningPeerDiscoveries := runningPeerDiscoveries s;
     nodeCachedData := nodeCachedData s; peerObjects := peerObjects s;
     nextId := f (nextId s); channels := channels s; nodeSessions := nodeSessions s;
     resumptionRecords := resumptionRecords s; store := store s;
     mdnsScanner := mdnsScanner s; udpInterfaces := udpInterfaces s;
     calls := calls s |}.

Definition withChannels
  (f : gmap PeerAddress MessageChannel -> gmap PeerAddress MessageChannel)
  (s : State) : State :=
  {| peers := peers s; peersByAddress := peersByAddress s;
     runningPeerDiscoveries := runningPeerDiscoveries s;
     nodeCachedData := nodeCachedData s; peerObjects := peerObjects s;
     nextId := nextId s; channels := f (channels s); nodeSessions := nodeSessions s;
     resumptionRecords := resumptionRecords s; store := store s;
     mdnsScanner := mdnsScanner s; udpInterfaces := udpInterfaces s;
     calls := calls s |}.

Definition withNodeSessions
  (f : gmap PeerAddress (list Session) -> gmap PeerAddress (list Session))
  (s : State) : State :=
  {| peers := peers s; peersByAddress := peersByAddress s;
     runningPeerDiscoveries := runningPeerDiscoveries s;
     nodeCachedData := nodeCachedData s; peerObjects := peerObjects s;
     nextId := nextId s; channels := channels s; nodeSessions := f (nodeSessions s);
     resumptionRecords := resumptionRecords s; store := store s;
     mdnsScanner := mdnsScanner s; udpInterfaces := udpInterfaces s;
     calls := calls s |}.

Definition withResumptionRecords
  (f : gmap PeerAddress SessionParameters -> gmap PeerAddress SessionParameters)
  (s : State) : State :=
  {| peers := peers s; peersByAddress := peersByAddress s;
     runningPeerDiscoveries := runningPeerDiscoveries s;
     nodeCachedData := nodeCachedData s; peerObjects := peerObjects s;
     nextId := nextId s; channels := channels s; nodeSessions := nodeSessions s;
     resumptionRecords := f (resumptionRecords s); store := store s;
     mdnsScanner := mdnsScanner s; udpInterfaces := udpInterfaces s;
     calls := calls s |}.

Definition withStore
  (f : gmap PeerAddress OperationalPeer -> gmap PeerAddress OperationalPeer)
  (s : State) : State :=
  {| peers := peers s; peersByAddress := peersByAddress s;
     runningPeerDiscoveries := runningPeerDiscoveries s;
     nodeCachedData := nodeCachedData s; peerObjects := peerObjects s;
     nextId := nextId s; channels := channels s; nodeSessions := nodeSessions s;
     resumptionRecords := resumptionRecords s; store := f (store s);
     mdnsScanner := mdnsScanner s; udpInterfaces := udpInterfaces s;
     calls := calls s |}.

Definition withMdnsScanner
  (f : option (gmap PeerAddress (list ServerAddressIp))
       -> option (gmap PeerAddress (list ServerAddressIp)))
  (s : State) : State :=
  {| peers := peers s; peersByAddress := peersByAddress s;
     runningPeerDiscoveries := runningPeerDiscoveries s;
     nodeCachedData := nodeCachedData s; peerObjects := peerObjects s;
     nextId := nextId s; channels := channels s; nodeSessions := nodeSessions s;
     resumptionRecords := resumptionRecords s; store := store s;
     mdnsScanner := f (mdnsScanner s); udpInterfaces := udpInterfaces s;
     calls := calls s |}.

Definition withCalls (f : list Call -> list Call) (s : State) : State :=
  {| peers := peers s; peersByAddress := peersByAddress s;
     runningPeerDiscoveries := runningPeerDiscoveries s;
     nodeCachedData := nodeCachedData s; peerObjects := peerObjects s;
     nextId := nextId s; channels := channels s; nodeSessions := nodeSessions s;
     resumptionRecords := resumptionRecords s; store := store s;
     mdnsScanner := mdnsScanner s; udpInterfaces := udpInterfaces s;
     calls := f (calls s) |}.

(** *** Computations that read and write the state and may throw *)

Inductive Result (A : Type) :=
| Returned (a : A)
| Threw (e : Error).
Arguments Returned {A} a.
Arguments Threw {A} e.

Definition M (A : Type) : Type := State -> Result A * State.

Definition ret {A} (a : A) : M A := λ s, (Returned a, s).

Definition throw {A} (e : Error) : M A := λ s, (Threw e, s).

Definition bind {A B} (m : M A) (k : A -> M B) : M B :=
  λ s, match m s with
       | (Returned a, s') => k a s'
       | (Threw e, s') => (Threw e, s')
       end.

(** try { m } catch (e) { handler e } *)
Definition tryCatch {A} (m : M A) (handler : Error -> M A) : M A :=
  λ s, match m s with
       | (Returned a, s') => (Returned a, s')
       | (Threw e, s') => handler e s'
       end.

Definition gets {A} (f : State -> A) : M A := λ s, (Returned (f s), s).

Definition modify (f : State -> State) : M unit := λ s, (Returned tt, f s).

Declare Scope peerset_scope.
Delimit Scope peerset_scope with peerset.
Notation "'let!' x ':=' m 'in' k" := (bind m (λ x, k))
  (at level 10, x pattern, m at level 100, k at level 200) : peerset_scope.
Notation "m ';;' k" := (bind m (λ _, k))
  (at level 100, right associativity) : peerset_scope.
Local Open Scope peerset_scope.

Definition newError (c : ErrorClass) (text : string) : Error :=
  {| class := c; message := text |}.

Definition RECONNECTION_POLLING_INTERVAL_MS : N := 600000.
Definition RETRANSMISSION_DISCOVERY_TIMEOUT_MS : N := 5000.
Definition CONCURRENT_QUEUED_INTERACTIONS : N := 4.
Definition INTERACTION_QUEUE_DELAY_MS : N := 100.

(** What a caller that awaits a channel holds when control returns to it:
    - [Resolved]: the channel itself;
    - [AnyPromise]: the promise [anyPromise(promises)], still pending;
      [removesDiscovery] tells that the promise carries the handler
      [.finally(() => this.#runningPeerDiscoveries.delete(address))]. *)
Inductive Awaited :=
| Resolved (channel : MessageChannel)
| AnyPromise (promises : list Producer) (removesDiscovery : bool).

(** new InteractionClient(new ExchangeProvider(exchanges, channel,
    reconnect), address, interactionQueue, cachedData): the channel, the
    address, the cache handed over and the discovery data captured by the
    reconnect closure. *)
Record InteractionClient := {
  exchangeChannel : MessageChannel;
  clientAddress : PeerAddress;
  cachedData : NodeCachedData;
  reconnectDiscoveryData : option DiscoveryData;
}.

Inductive Connected :=
| Client (client : InteractionClient)
| Waiting (promises : list Producer) (removesDiscovery : bool).

(** The argument of get, disconnect and delete: an address or a peer
    object, told apart by ["address" in peer]. *)
Inductive Item :=
| ByAddress (address : PeerAddress)
| ByPeer (peer : OperationalPeer).

(** The part of a Session that the resubmission handler reads:
    [isSecure], and the address [fabric.addressOf(nodeId)] when both
    [associatedFabric] and [peerNodeId] are defined. *)
Record ResubmittedSession := {
  resubmittedSecure : bool;
  resubmittedPeer : option PeerAddress;
}.

Section Operations.

Variable world : World.

(** [inherits c d]: class [c] is class [d] or is derived from it.  The
    classes are declared outside the modelled files, so their hierarchy
    is a parameter. *)
Variable inherits : ErrorClass -> ErrorClass -> bool.

(** isIPv6 of the general package. *)
Variable isIPv6 : string -> bool.

(** [e instanceof c] *)
Definition instanceOf (e : Error) (c : ErrorClass) : bool := inherits (class e) c.

(** *** Collaborators

    The session, channel and exchange managers, the scanner, the network
    interfaces, the CASE client and the peer store are outside the modelled
    files.  Every call on them is appended to the trace of the state; what
    they answer is taken from the parameter [world].  The calls that the
    peer set awaits, and initiateExchangeWithChannel, which it guards with a
    try block, may fail; cancelOperationalDeviceDiscovery,
    createInsecureSession, findOperationalDevice and the timer are taken
    not to. *)

(** A call that cannot fail. *)
Definition record (c : Call) : M unit := modify (withCalls (λ l, app l [c])).

(** A call that returns nothing and may fail. *)
Definition call (c : Call) : M unit :=
  λ s, let s' := withCalls (λ l, app l [c]) s in
       match rejects world (calls s) c with
       | Some e => (Threw e, s')
       | None => (Returned tt, s')
       end.

(** The identity of a new object. *)
Definition fresh : M nat := λ s, (Returned (nextId s), withNextId S s).

(** NetInterface.openChannel *)
Definition openChannel (bindAddress : string) (a : ServerAddressIp) : M TransportChannel :=
  λ s, let s' := withCalls (λ l, app l [OpenChannel bindAddress a]) s in
       match opens world (calls s) bindAddress a with
       | inl e => (Threw e, s')
       | inr c => (Returned c, s')
       end.

(** SessionManager.createInsecureSession *)
Definition createInsecureSession (p : SessionParameters) : M Session :=
  record (CreateInsecureSession p);;
  let! i := fresh in
  ret {| sessionId := i; isSecure := false |}.

(** ExchangeManager.initiateExchangeWithChannel *)
Definition initiateExchangeWithChannel (c : MessageChannel) : M unit :=
  call (InitiateExchangeWithChannel c).

(** Modelled from the spec: CaseClient.pair is outside the modelled
    files; the driver reports [(session, resumed)] and the secure session
    it establishes belongs to the peer. *)
Definition casePair (a : PeerAddress) (expectedProcessingTimeMs : option N)
  : M (Session * bool) :=
  λ s, let s' := withCalls (λ l, app l [CasePair a expectedProcessingTimeMs]) s in
       match pairs world (calls s) a expectedProcessingTimeMs with
       | inl e => (Threw e, s')
       | inr (session, resumed) =>
           (Returned (session, resumed),
            withNodeSessions
              (λ m, <[a := session :: default [] (m !! a)]> m) s')
       end.

(** exchange.close() *)
Definition exchangeClose : M unit := call ExchangeClose.

(** unsecureSession.destroy() *)
Definition sessionDestroy (unsecureSession : Session) : M unit :=
  call (SessionDestroy unsecureSession).

(** Modelled from the spec: the channel manager keeps the channel of each
    address; setChannel files it, removeAllNodeChannels drops it and
    getChannel throws a NoChannelError on a miss. *)
Definition setChannel (a : PeerAddress) (c : MessageChannel) : M unit :=
  call (SetChannel a c);;
  modify (withChannels <[a := c]>).

(** Modelled from the spec: ChannelManager.removeAllNodeChannels (see
    [setChannel]). *)
Definition removeAllNodeChannels (a : PeerAddress) : M unit :=
  call (RemoveAllNodeChannels a);;
  modify (withChannels (base.delete a)).

(** Modelled from the spec: ChannelManager.hasChannel (see [setChannel]). *)
Definition hasChannel (a : PeerAddress) : M bool :=
  gets (λ s, bool_decide (is_Some (channels s !! a))).

(** Modelled from the spec: ChannelManager.getChannel (see [setChannel]). *)
Definition getChannel (a : PeerAddress) : M MessageChannel :=
  let! c := gets (λ s, channels s !! a) in
  match c with
  | Some c => ret c
  | None => throw (newError NoChannelError ("No channel for " ++ toString a))
  end.

(** Modelled from the spec: the session manager removes all sessions of a
    node and deletes its resumption record. *)
Definition removeAllSessionsForNode (a : PeerAddress) (sendClose : bool) : M unit :=
  call (RemoveAllSessionsForNode a sendClose);;
  modify (withNodeSessions (base.delete a)).

(** Modelled from the spec: SessionManager.deleteResumptionRecord (see
    [removeAllSessionsForNode]). *)
Definition deleteResumptionRecord (a : PeerAddress) : M unit :=
  call (DeleteResumptionRecord a);;
  modify (withResumptionRecords (base.delete a)).

(** Modelled from the spec: the peer store persists one record per
    logical address. *)
Definition updatePeer (p : OperationalPeer) : M unit :=
  call (UpdatePeer p);;
  modify (withStore <[address p := p]>).

(** Modelled from the spec: PeerStore.deletePeer (see [updatePeer]). *)
Definition deletePeer (a : PeerAddress) : M unit :=
  call (DeletePeer a);;
  modify (withStore (base.delete a)).

(** MdnsScanner.cancelOperationalDeviceDiscovery(fabricFor(address),
    address.nodeId, resolvePromise?) *)
Definition cancelOperationalDeviceDiscovery (a : PeerAddress) (resolvePromise : option bool)
  : M unit :=
  record (CancelOperationalDeviceDiscovery a resolvePromise).

(** Modelled from the spec: getDiscoveredOperationalDevice hands out the
    scanner's record for the node, if it has one; [None] also when there
    is no scanner for UDP. *)
Definition getDiscoveredOperationalDevice (a : PeerAddress)
  : M (option (list ServerAddressIp)) :=
  gets (λ s, mdnsScanner s ≫= λ records, records !! a).

(** *** The peer set *)

(** Modelled from the spec: BasicSet is outside the modelled files; its
    observers fire before add and delete return, so that the index is up to
    date by then.  This is this.#peers.add(peer) for a new object, followed
    by the observer of [added] that the constructor installs. *)
Definition addPeer (peer : OperationalPeer) : M PeerRef :=
  let! r := fresh in
  modify (withPeerObjects <[r := peer]>);;
  modify (withPeers (λ l, app l [r]));;
  modify (withPeersByAddress <[address peer := r]>);;
  ret r.

(** Modelled from the spec: BasicSet is outside the modelled files (see
    [addPeer]).  This is this.#peers.delete(peer): when the set holds the
    object it is removed and the observer of [deleted] that the constructor
    installs runs; otherwise nothing happens. *)
Definition deleteFromPeers (r : PeerRef) (peer : OperationalPeer) : M bool :=
  let! present := gets (λ s, bool_decide (r ∈ peers s)) in
  if present then
    modify (withPeers (filter (λ x, x ≠ r)));;
    modify (withPeersByAddress (base.delete (address peer)));;
    ret true
  else ret false.

(** get(peer): the object filed under the address, with its fields. *)
Definition get (peer : Item) : M (option (PeerRef * OperationalPeer)) :=
  let a := match peer with
           | ByPeer p => address p
           | ByAddress a => a
           end in
  gets (λ s, peersByAddress s !! a ≫= λ r, peerObjects s !! r ≫= λ o, Some (r, o)).

(** disconnect(peer) *)
Definition disconnect (peer : Item) : M unit :=
  let! actual := get peer in
  match actual with
  | None => ret tt
  | Some (_, o) =>
      removeAllSessionsForNode (address o) true;;
      removeAllNodeChannels (address o)
  end.

(** delete(peer) *)
Definition delete (peer : Item) : M unit :=
  let! actual := get peer in
  match actual with
  | None => ret tt
  | Some (r, o) =>
      deleteFromPeers r o;;
      deletePeer (address o);;
      disconnect (ByPeer o);;
      deleteResumptionRecord (address o)
  end.

(** #getLastOperationalAddress(address) *)
Definition getLastOperationalAddress (a : PeerAddress) : M (option ServerAddressIp) :=
  gets (λ s, peersByAddress s !! a ≫= λ r, peerObjects s !! r ≫= operationalAddress).

Definition sameEndpoint (x y : ServerAddressIp) : bool :=
  String.eqb (ip x) (ip y) && N.eqb (port x) (port y).

(** #knownOperationalAddressFor(address) *)
Definition knownOperationalAddressFor (a : PeerAddress) : M (option ServerAddressIp) :=
  let! discoveredAddresses := getDiscoveredOperationalDevice a in
  let! lastKnownAddress := getLastOperationalAddress a in
  (match lastKnownAddress, discoveredAddresses with
   | Some lastKnown, Some addresses =>
       if existsb (λ x, sameEndpoint x lastKnown) addresses then
         modify (withMdnsScanner (fmap <[a := []]>))
       else ret tt
   | _, _ => ret tt
   end);;
  let! discoveredAddresses := getDiscoveredOperationalDevice a in
  ret (discoveredAddresses ≫= head).

(** #addOrUpdatePeer(address, operationalServerAddress, discoveryData?) *)
Definition addOrUpdatePeer (a : PeerAddress) (operationalServerAddress : ServerAddressIp)
  (data : option DiscoveryData) : M unit :=
  let! known := gets (λ s, peersByAddress s !! a) in
  let! r := match known with
            | Some r => ret r
            | None =>
                addPeer {| address := a; operationalAddress := None;
                           discoveryData := None |}
            end in
  modify (withPeerObjects (alter (λ p,
    {| address := address p; operationalAddress := Some operationalServerAddress;
       discoveryData := discoveryData p |}) r));;
  (match data with
   | Some d =>
       modify (withPeerObjects (alter (λ p,
         {| address := address p; operationalAddress := operationalAddress p;
            discoveryData := Some (spread (discoveryData p) (Some d)) |}) r))
   | None => ret tt
   end);;
  let! peer := gets (λ s, peerObjects s !! r) in
  match peer with
  | Some p => updatePeer p
  | None => ret tt
  end.

(** The two nested try blocks of [#pair]: the exchange is initiated and
    CASE is run on it; when the session was not resumed the cached data of
    the peer is deleted; an error of the CASE run closes the exchange, and
    a timeout error is converted. *)
Definition establishSecureSession (a : PeerAddress)
  (operationalUnsecureMessageExchange : MessageChannel)
  (expectedProcessingTimeMs : option N) : M Session :=
  tryCatch
    (initiateExchangeWithChannel operationalUnsecureMessageExchange;;
     tryCatch
       (let! (session, resumed) := casePair a expectedProcessingTimeMs in
        (if negb resumed then modify (withNodeCachedData (base.delete a))
         else ret tt);;
        ret session)
       (λ e, exchangeClose;; throw e))
    (λ e, if instanceOf e NoResponseTimeoutError then
            throw (newError PairRetransmissionLimitReachedError (message e))
          else throw e).

(** #pair(address, operationalServerAddress, discoveryData?,
    expectedProcessingTimeMs?) *)
Definition pair (a : PeerAddress) (operationalServerAddress : ServerAddressIp)
  (data : option DiscoveryData) (expectedProcessingTimeMs : option N)
  : M MessageChannel :=
  let isIpv6Address := isIPv6 (ip operationalServerAddress) in
  let bindAddress := if isIpv6Address then "::" else "0.0.0.0" in
  let! hasInterface := gets (λ s, bool_decide (bindAddress ∈ udpInterfaces s)) in
  if negb hasInterface then
    throw (newError PairRetransmissionLimitReachedError
             ("IPv" ++ (if isIpv6Address then "6" else "4")
              ++ " interface not initialized for port "
              ++ decimal (port operationalServerAddress)
              ++ ". Cannot use " ++ ip operationalServerAddress ++ " for pairing."))
  else
    let! operationalChannel := openChannel bindAddress operationalServerAddress in
    let! sessionParameters := gets (λ s, resumptionRecords s !! a) in
    let! unsecureSession :=
      createInsecureSession
        {| idleIntervalMs := orElse (data ≫= SII) (sessionParameters ≫= idleIntervalMs);
           activeIntervalMs := orElse (data ≫= SAI) (sessionParameters ≫= activeIntervalMs);
           activeThresholdMs :=
             orElse (data ≫= SAT) (sessionParameters ≫= activeThresholdMs) |} in
    let operationalUnsecureMessageExchange :=
      {| channel := operationalChannel; session := unsecureSession |} in
    let! operationalSecureSession :=
      establishSecureSession a operationalUnsecureMessageExchange
        expectedProcessingTimeMs in
    sessionDestroy unsecureSession;;
    let messageChannel :=
      {| channel := operationalChannel; session := operationalSecureSession |} in
    setChannel a messageChannel;;
    ret messageChannel.

(** #reconnectKnownAddress(address, operationalAddress, discoveryData?,
    expectedProcessingTimeMs?) *)
Definition reconnectKnownAddress (a : PeerAddress) (known : ServerAddressIp)
  (data : option DiscoveryData) (expectedProcessingTimeMs : option N)
  : M (option MessageChannel) :=
  tryCatch
    (let! messageChannel := pair a known data expectedProcessingTimeMs in
     addOrUpdatePeer a known None;;
     ret (Some messageChannel))
    (λ e, if instanceOf e NoResponseTimeoutError then
            removeAllSessionsForNode a false;;
            ret None
          else throw e).

(** ControllerDiscovery.discoverOperationalDevice(fabricFor(address),
    address.nodeId, mdnsScanner, timeoutSeconds, ignoreExistingRecords),
    the call of the mDNS producer that has the scanner look for the node
    (findOperationalDevice).  ControllerDiscovery is outside the modelled
    files, so the call is recorded as it is made; fabricFor is taken to
    find the fabric, as for cancelOperationalDeviceDiscovery.  The call
    is made inside an async producer and is awaited there: an error of it
    rejects the promise of the producer and is not thrown at the caller. *)
Definition discoverOperationalDevice (a : PeerAddress) (timeout : option N)
  (ignoreExistingRecords : bool) : M unit :=
  record (DiscoverOperationalDevice a timeout ignoreExistingRecords).

(** A producer that is called, up to its first await.  The polling
    producer hands out the promise that the timer settles.  The mDNS
    producer starts a scan, which ignores existing records exactly when
    there is no timeout ([timeoutSeconds === undefined]). *)
Definition produce (p : Producer) : M unit :=
  match p with
  | PollingPromise _ _ _ _ => ret tt
  | MdnsDiscovery _ a timeout _ =>
      discoverOperationalDevice a timeout (bool_decide (timeout = None))
  end.

(** Modelled from the spec: anyPromise is outside the modelled files.
    The producers are functions ([promises] of interface
    RunningDiscovery); the any-of combinator calls each of them, in
    order, to obtain its promise, and hands out a promise for the first
    channel that one of them yields. *)
Fixpoint anyPromise (producers : list Producer) : M unit :=
  match producers with
  | [] => ret tt
  | p :: rest => produce p;; anyPromise rest
  end.

(** The discovery started by [#connectOrDiscoverNode] when nothing is
    reused: the polling timer and its promise (full discovery with a known
    address only), the mDNS producer, and the new entry of
    [runningPeerDiscoveries]; the producers are then called by
    [anyPromise]. *)
Definition startDiscovery (a : PeerAddress) (known : option ServerAddressIp)
  (requestedDiscoveryType : NodeDiscoveryType.t) (timeout : option N)
  (data : option DiscoveryData) : M Awaited :=
  let! polling :=
    match known with
    | Some operationalAddress =>
        if decide (requestedDiscoveryType = NodeDiscoveryType.FullDiscovery) then
          let! reconnectionPollingTimer := fresh in
          record (TimerStart reconnectionPollingTimer RECONNECTION_POLLING_INTERVAL_MS);;
          let! closure := fresh in
          ret ([PollingPromise closure a operationalAddress data],
               Some reconnectionPollingTimer)
        else ret ([], None)
    | None => ret ([], None)
    end in
  let! closure := fresh in
  let discoveryPromises := app polling.1 [MdnsDiscovery closure a timeout data] in
  modify (withRunningPeerDiscoveries
            <[a := {| type := requestedDiscoveryType;
                      promises := Some discoveryPromises;
                      timer := polling.2 |}]>);;
  anyPromise discoveryPromises;;
  ret (AnyPromise discoveryPromises true).

(** The first step of [#connectOrDiscoverNode] after its checks: the
    running discovery of the address is read (a discovery of type None
    stands for its absence); one of a lower type is cancelled at the
    scanner, removed from [runningPeerDiscoveries] and its [type] field
    is set to None.  The result is [existingDiscoveryDetails]. *)
Definition cancelLowerDiscovery (a : PeerAddress)
  (requestedDiscoveryType : NodeDiscoveryType.t) : M RunningDiscovery :=
  let! existingDiscoveryDetails :=
    gets (λ s, default {| type := NodeDiscoveryType.None; promises := None;
                          timer := None |}
                 (runningPeerDiscoveries s !! a)) in
  if negb (bool_decide (type existingDiscoveryDetails = NodeDiscoveryType.None))
     && (NodeDiscoveryType.value (type existingDiscoveryDetails)
         <? NodeDiscoveryType.value requestedDiscoveryType)%Z
  then
    cancelOperationalDeviceDiscovery a None;;
    modify (withRunningPeerDiscoveries (base.delete a));;
    ret {| type := NodeDiscoveryType.None;
           promises := promises existingDiscoveryDetails;
           timer := timer existingDiscoveryDetails |}
  else ret existingDiscoveryDetails.

(** The second step: with a last known address, and when no discovery
    runs or none was requested, the device is reached directly.  The
    result is the channel of the direct reconnection, if it yields one. *)
Definition reachDirectly (a : PeerAddress) (known : option ServerAddressIp)
  (requestedDiscoveryType runningDiscoveryType : NodeDiscoveryType.t)
  (data : option DiscoveryData) : M (option MessageChannel) :=
  match known with
  | Some operationalAddress =>
      if bool_decide (runningDiscoveryType = NodeDiscoveryType.None)
         || bool_decide (requestedDiscoveryType = NodeDiscoveryType.None)
      then
        let! directReconnection :=
          reconnectKnownAddress a operationalAddress data None in
        match directReconnection with
        | Some messageChannel => ret (Some messageChannel)
        | None =>
            if bool_decide (requestedDiscoveryType = NodeDiscoveryType.None)
            then throw (newError DiscoveryError
                          (toString a ++ " is not reachable right now."))
            else ret None
        end
      else ret None
  | None => ret None
  end.

(** The last step: the producers of [existingDiscoveryDetails], if it has
    any, are reused, that is called once more by [anyPromise], unless its
    type is higher than the requested one; without producers a discovery
    is started. *)
Definition reuseOrStartDiscovery (a : PeerAddress) (known : option ServerAddressIp)
  (requestedDiscoveryType : NodeDiscoveryType.t) (timeout : option N)
  (data : option DiscoveryData) (existingDiscoveryDetails : RunningDiscovery)
  : M Awaited :=
  match promises existingDiscoveryDetails with
  | Some running =>
      if (NodeDiscoveryType.value requestedDiscoveryType
          <? NodeDiscoveryType.value (type existingDiscoveryDetails))%Z
      then throw (newError DiscoveryError
                    (toString a
                     ++ " is not reachable right now and discovery already running."))
      else
        anyPromise running;;
        ret (AnyPromise running false)
  | None => startDiscovery a known requestedDiscoveryType timeout data
  end.

(** [discoveryData = this.#peersByAddress.get(address)?.discoveryData]:
    the discovery data of the options or else the one of the filed peer. *)
Definition discoveryDataOf (a : PeerAddress) (discoveryOptions : DiscoveryOptions)
  (s : State) : option DiscoveryData :=
  match optionsDiscoveryData discoveryOptions with
  | Some d => Some d
  | None => peersByAddress s !! a ≫= λ r, peerObjects s !! r ≫= discoveryData
  end.

(** #connectOrDiscoverNode(address, operationalAddress?, discoveryOptions),
    up to the point where it returns a channel, throws, or awaits
    [anyPromise]. *)
Definition connectOrDiscoverNode (a : PeerAddress) (known : option ServerAddressIp)
  (discoveryOptions : DiscoveryOptions) : M Awaited :=
  let requestedDiscoveryType := requestedType discoveryOptions in
  let timeout := timeoutSeconds discoveryOptions in
  let! data := gets (discoveryDataOf a discoveryOptions) in
  if bool_decide (is_Some timeout)
     && negb (bool_decide (requestedDiscoveryType = NodeDiscoveryType.TimedDiscovery))
  then throw (newError ImplementationError "Cannot set timeout without timed discovery.")
  else if bool_decide (requestedDiscoveryType = NodeDiscoveryType.RetransmissionDiscovery)
  then throw (newError ImplementationError "Cannot set retransmission discovery type.")
  else
    let! scanner := gets mdnsScanner in
    match scanner with
    | None =>
        throw (newError ImplementationError "Cannot discover device without mDNS scanner.")
    | Some _ =>
        let! existingDiscoveryDetails := cancelLowerDiscovery a requestedDiscoveryType in
        let! directReconnection :=
          reachDirectly a known requestedDiscoveryType (type existingDiscoveryDetails)
            data in
        match directReconnection with
        | Some messageChannel => ret (Resolved messageChannel)
        | None =>
            reuseOrStartDiscovery a known requestedDiscoveryType timeout data
              existingDiscoveryDetails
        end
    end.

(** The catch clause of [#resume]. *)
Definition resumeFailed (a : PeerAddress) (e : Error) : M Awaited :=
  let! known := gets (λ s, bool_decide (is_Some (peersByAddress s !! a))) in
  (if (instanceOf e DiscoveryError || instanceOf e NoResponseTimeoutError) && known
   then removeAllSessionsForNode a false
   else ret tt);;
  throw e.

(** #resume(address, discoveryOptions) *)
Definition resume (a : PeerAddress) (discoveryOptions : DiscoveryOptions) : M Awaited :=
  let! known := knownOperationalAddressFor a in
  tryCatch (connectOrDiscoverNode a known discoveryOptions) (resumeFailed a).

(** The end of connect, once the channel is there: the cached data of
    the peer is looked up or created, filed, and handed to the client. *)
Definition newInteractionClient (a : PeerAddress) (messageChannel : MessageChannel)
  (data : option DiscoveryData) : M InteractionClient :=
  let! cached := gets (λ s, default emptyCachedData (nodeCachedData s !! a)) in
  modify (withNodeCachedData <[a := cached]>);;
  ret {| exchangeChannel := messageChannel; clientAddress := a;
         cachedData := cached; reconnectDiscoveryData := data |}.

(** connect(address, discoveryOptions), up to the point where it returns
    a client, throws, or awaits [anyPromise]. *)
Definition connect (a : PeerAddress) (discoveryOptions : DiscoveryOptions) : M Connected :=
  let data := optionsDiscoveryData discoveryOptions in
  let! cachedChannel := gets (λ s, channels s !! a) in
  match cachedChannel with
  | Some messageChannel =>
      let! client := newInteractionClient a messageChannel data in
      ret (Client client)
  | None =>
      let! awaited := resume a discoveryOptions in
      match awaited with
      | Resolved messageChannel =>
          let! client := newInteractionClient a messageChannel data in
          ret (Client client)
      | AnyPromise running removesDiscovery => ret (Waiting running removesDiscovery)
      end
  end.

(** What connect does when the awaited [anyPromise] settles: the finally
    handler, then either the catch clause of [#resume] or the end of
    connect. *)
Definition connectSettled (a : PeerAddress) (discoveryOptions : DiscoveryOptions)
  (removesDiscovery : bool) (outcome : Error + MessageChannel) : M InteractionClient :=
  (if removesDiscovery then modify (withRunningPeerDiscoveries (base.delete a))
   else ret tt);;
  match outcome with
  | inl e =>
      let! known := gets (λ s, bool_decide (is_Some (peersByAddress s !! a))) in
      (if (instanceOf e DiscoveryError || instanceOf e NoResponseTimeoutError) && known
       then removeAllSessionsForNode a false
       else ret tt);;
      throw e
  | inr messageChannel =>
      newInteractionClient a messageChannel (optionsDiscoveryData discoveryOptions)
  end.

(** The reconnect closure that connect gives to the ExchangeProvider. *)
Definition reconnectChannel (a : PeerAddress) (data : option DiscoveryData)
  : M MessageChannel :=
  let! reachable := hasChannel a in
  if negb reachable then
    throw (newError RetransmissionLimitReachedError
             ("Device " ++ toString a ++ " is currently not reachable."))
  else
    removeAllNodeChannels a;;
    let! known := knownOperationalAddressFor a in
    match known with
    | None =>
        removeAllSessionsForNode a false;;
        throw (newError RetransmissionLimitReachedError
                 ("No operational address found for " ++ toString a))
    | Some operationalAddress =>
        let! reconnected := reconnectKnownAddress a operationalAddress data (Some 2000%N) in
        match reconnected with
        | None =>
            throw (newError RetransmissionLimitReachedError
                     (toString a ++ " is not reachable."))
        | Some _ => getChannel a
        end
    end.

(** #handleResubmissionStarted(session) *)
Definition handleResubmissionStarted (session : ResubmittedSession) : M unit :=
  if negb (resubmittedSecure session) then ret tt
  else
    match resubmittedPeer session with
    | None => ret tt
    | Some a =>
        let! running := gets (λ s, bool_decide (is_Some (runningPeerDiscoveries s !! a))) in
        if running then ret tt
        else
          modify (withRunningPeerDiscoveries
                    <[a := {| type := NodeDiscoveryType.RetransmissionDiscovery;
                              promises := None; timer := None |}]>);;
          let! scanner := gets mdnsScanner in
          match scanner with
          | Some _ =>
              record (FindOperationalDevice a RETRANSMISSION_DISCOVERY_TIMEOUT_MS true)
          | None => ret tt
          end
    end.

(** The finally handler of the scan started by the resubmission handler. *)
Definition resubmissionDiscoveryFinished (a : PeerAddress) : M unit :=
  let! running := gets (λ s, type <$> runningPeerDiscoveries s !! a) in
  if decide (running = Some NodeDiscoveryType.RetransmissionDiscovery) then
    modify (withRunningPeerDiscoveries (base.delete a))
  else ret tt.

End Operations.

(** A peer set without peers, discoveries or cached data, next to a UDP
    scanner without records and interfaces for both address families. *)
Definition initial : State :=
  {| peers := []; peersByAddress := ∅; runningPeerDiscoveries := ∅;
     nodeCachedData := ∅; peerObjects := ∅; nextId := 0; channels := ∅;
     nodeSessions := ∅; resumptionRecords := ∅; store := ∅;
     mdnsScanner := Some ∅; udpInterfaces := ["::"; "0.0.0.0"]; calls := [] |}.

(** The index is in step with the set: every object filed under an
    address is in the set and carries that address. *)
Definition indexed (s : State) : Prop :=
  map_Forall (λ a r, r ∈ peers s ∧ address <$> peerObjects s !! r = Some a)
    (peersByAddress s).

Global Instance indexed_dec s : Decision (indexed s).
Proof. unfold indexed. apply _. Defined.

(** [preserves R m]: whatever [m] does, [R] relates the state before to the
    state after. *)
Definition preserves (R : State -> State -> Prop) {A} (m : M A) : Prop :=
  forall s, R s (m s).2.

(** The discovery bookkeeping is as before: same running discoveries, same
    scanner records; calls were only appended and identities only handed
    out. *)
Definition untouched (s s' : State) : Prop :=
  runningPeerDiscoveries s' = runningPeerDiscoveries s /\
  mdnsScanner s' = mdnsScanner s /\
  (exists l, calls s' = app (calls s) l) /\
  nextId s <= nextId s'.

(** The state right after a running discovery was cancelled: the scanner
    was told and the entry is gone. *)
Definition cancelled (a : PeerAddress) (s : State) : State :=
  withRunningPeerDiscoveries (base.delete a)
    (withCalls (λ l, app l [CancelOperationalDeviceDiscovery a None]) s).

(** The scan that a producer starts when it is called: the one of the
    mDNS producer, for its address and timeout. *)
Definition scanOf (p : Producer) : option Call :=
  match p with
  | MdnsDiscovery _ a timeout _ =>
      Some (DiscoverOperationalDevice a timeout (bool_decide (timeout = None)))
  | PollingPromise _ _ _ _ => None
  end.

(** The state right after the producers were called: one scan was
    started for every mDNS producer among them, in their order, and
    nothing else happened. *)
Definition produced (producers : list Producer) (s : State) : State :=
  withCalls (λ l, app l (omap scanOf producers)) s.

(** The cached data is as before, or the CASE driver reported for the peer
    a session that was not resumed and the cached data of the peer, and
    only that, was deleted. *)
Definition keptUnlessNotResumed (world : World) (a : PeerAddress)
  (expectedProcessingTimeMs : option N) (s s' : State) : Prop :=
  nodeCachedData s' = nodeCachedData s \/
  ((exists history secure,
       pairs world history a expectedProcessingTimeMs = inr (secure, false)) /\
   nodeCachedData s' = base.delete a (nodeCachedData s)).

(** The cached data of every node is as before. *)
Definition sameCache (s s' : State) : Prop :=
  nodeCachedData s' = nodeCachedData s.

(** Among the calls [made] after the calls [history], the CASE driver was
    asked to pair with the peer and reported a session that was not
    resumed. *)
Fixpoint reportedNotResumed (world : World) (a : PeerAddress)
  (expectedProcessingTimeMs : option N) (history made : list Call) : bool :=
  match made with
  | [] => false
  | c :: rest =>
      match c with
      | CasePair b expected =>
          bool_decide (b = a /\ expected = expectedProcessingTimeMs)
          && match pairs world history b expected with
             | inr (_, resumed) => negb resumed
             | inl _ => false
             end
      | _ => false
      end
      || reportedNotResumed world a expectedProcessingTimeMs (app history [c]) rest
  end.

(** Calls were only appended, and the cached data of the peer, and only
    that, is deleted if the CASE driver reported for the peer, in one of
    these calls, a session that was not resumed; otherwise the cached
    data is as before. *)
Definition droppedIfNotResumed (world : World) (a : PeerAddress)
  (expectedProcessingTimeMs : option N) (s s' : State) : Prop :=
  exists made,
    calls s' = app (calls s) made /\
    nodeCachedData s'
    = if reportedNotResumed world a expectedProcessingTimeMs (calls s) made
      then base.delete a (nodeCachedData s)
      else nodeCachedData s.

(** *** Assertions, requests and invariants *)

(** [hoare P m Q E]: from a state that satisfies [P], the computation [m]
    returns a value and a state related by [Q], or throws an error in a
    state related with it by [E]. *)
Definition hoare {A} (P : State -> Prop) (m : M A)
  (Q : A -> State -> Prop) (E : Error -> State -> Prop) : Prop :=
  forall s, P s ->
    match m s with
    | (Returned a, s') => Q a s'
    | (Threw e, s') => E e s'
    end.

(** The peers, the index, the stored records, the resumption records and
    the channels are as before. *)
Definition sameRecords (s s' : State) : Prop :=
  peers s' = peers s /\ peersByAddress s' = peersByAddress s /\
  peerObjects s' = peerObjects s /\ store s' = store s /\
  resumptionRecords s' = resumptionRecords s /\ channels s' = channels s.

(** The peer object that addOrUpdatePeer leaves under the address. *)
Definition updatedPeer (a : PeerAddress) (operationalServerAddress : ServerAddressIp)
  (data : option DiscoveryData) (s : State) : OperationalPeer :=
  let old := peersByAddress s !! a ≫= λ r, peerObjects s !! r in
  {| address := a; operationalAddress := Some operationalServerAddress;
     discoveryData :=
       match data with
       | Some d => Some (spread (old ≫= discoveryData) (Some d))
       | None => old ≫= discoveryData
       end |}.

Section Requests.

Variable world : World.
Variable inherits : ErrorClass -> ErrorClass -> bool.
Variable isIPv6 : string -> bool.

(** The callback that the mDNS producer of [#connectOrDiscoverNode] hands
    to ControllerDiscovery.iterateServerAddresses: the device [peer] found
    at [operationalAddress] is paired and filed with the discovery data
    [{ ...discoveryData, ...peer }]. *)
Definition pairDiscovered (a : PeerAddress) (operationalAddress : ServerAddressIp)
  (peer : DiscoveryData) (data : option DiscoveryData) : M MessageChannel :=
  let! result := pair world inherits isIPv6 a operationalAddress (Some peer) None in
  addOrUpdatePeer world a operationalAddress (Some (spread data (Some peer)));;
  ret result.

(** What is asked of a peer set: the calls of its public methods, the
    settling of a promise that connect awaits, and the callbacks that it
    hands out. *)
Inductive Request :=
| Connect (address : PeerAddress) (discoveryOptions : DiscoveryOptions)
| ConnectSettled (address : PeerAddress) (discoveryOptions : DiscoveryOptions)
    (removesDiscovery : bool) (outcome : Error + MessageChannel)
| Disconnect (peer : Item)
| Delete (peer : Item)
| Reconnect (address : PeerAddress) (discoveryData : option DiscoveryData)
| PollKnownAddress (address : PeerAddress) (operationalAddress : ServerAddressIp)
    (discoveryData : option DiscoveryData)
| PairDiscovered (address : PeerAddress) (operationalAddress : ServerAddressIp)
    (peer : DiscoveryData) (discoveryData : option DiscoveryData)
| ResubmissionStarted (session : ResubmittedSession)
| ResubmissionDiscoveryFinished (address : PeerAddress).

Definition serve (request : Request) : M unit :=
  match request with
  | Connect a o => connect world inherits isIPv6 a o;; ret tt
  | ConnectSettled a o removesDiscovery outcome =>
      connectSettled world inherits a o removesDiscovery outcome;; ret tt
  | Disconnect peer => disconnect world peer
  | Delete peer => delete world peer
  | Reconnect a data => reconnectChannel world inherits isIPv6 a data;; ret tt
  | PollKnownAddress a operationalAddress data =>
      reconnectKnownAddress world inherits isIPv6 a operationalAddress data None;; ret tt
  | PairDiscovered a operationalAddress peer data =>
      pairDiscovered a operationalAddress peer data;; ret tt
  | ResubmissionStarted session => handleResubmissionStarted session
  | ResubmissionDiscoveryFinished a => resubmissionDiscoveryFinished a
  end.

(** The state after a sequence of requests, whether they throw or not. *)
Definition served (requests : list Request) (s : State) : State :=
  fold_left (λ s request, (serve request s).2) requests s.

End Requests.

(** The set and its index are in step: besides [indexed], every peer of
    the set is an object that is filed under its own address, the set
    holds no peer twice, and every object was allocated. *)
Definition inStep (s : State) : Prop :=
  indexed s /\
  Forall (λ r, (peerObjects s !! r ≫= λ o, peersByAddress s !! address o) = Some r)
    (peers s) /\
  NoDup (peers s) /\
  map_Forall (λ r _, r < nextId s) (peerObjects s).

Global Instance inStep_dec s : Decision (inStep s).
Proof. unfold inStep. apply _. Defined.

(** A step keeps the set and its index in step. *)
Definition keepsInStep (s s' : State) : Prop := inStep s -> inStep s'.

(** The initializer that the constructor hands to Construction: every
    peer that the store loads is added to the set.  [stored] is what
    loadPeers hands out, each peer a new object. *)
Fixpoint loadPeers (stored : list OperationalPeer) : M unit :=
  match stored with
  | [] => ret tt
  | peer :: rest => addPeer peer;; loadPeers rest
  end.

(** The characters of a decimal numeral. *)
Definition isDigit (c : Ascii.ascii) : bool :=
  (48 <=? Ascii.nat_of_ascii c)%nat && (Ascii.nat_of_ascii c <=? 57)%nat.

Fixpoint allDigits (text : string) : bool :=
  match text with
  | EmptyString => true
  | String c rest => isDigit c && allDigits rest
  end.

End PeerSet.

(** ** Sample inputs *)

Module Samples.
Import PeerSet.

(** Collaborators that never fail: every channel opens (as channel 7) and
    the CASE driver hands back session 100, resumed or not as told. *)
Definition answering (resumed : bool) : World :=
  {| opens := λ _ _ _, inr 7;
     pairs := λ _ _ _, inr ({| sessionId := 100; isSecure := true |}, resumed);
     rejects := λ _ _, None |}.

(** The same collaborators, except that no channel opens: the transport
    reports a timeout. *)
Definition unreachable : World :=
  {| opens := λ _ _ _, inl (newError NoResponseTimeoutError "no response");
     pairs := λ _ _ _, inr ({| sessionId := 100; isSecure := true |}, false);
     rejects := λ _ _, None |}.

(** One possible hierarchy of the error classes: the two retransmission
    limit errors are kinds of timeout, every other class stands alone. *)
Definition hierarchy (c d : ErrorClass) : bool :=
  bool_decide (c = d)
  || match c, d with
     | PairRetransmissionLimitReachedError, RetransmissionLimitReachedError
     | PairRetransmissionLimitReachedError, NoResponseTimeoutError
     | RetransmissionLimitReachedError, NoResponseTimeoutError => true
     | _, _ => false
     end.

(** An address literal is taken for IPv6 when it contains a colon. *)
Definition hasColon (literal : string) : bool :=
  match String.index 0 ":" literal with
  | Some _ => true
  | None => false
  end.

Definition peer_1_5 : PeerAddress := {| fabricIndex := 1; nodeId := 5 |}.

Definition endpoint : ServerAddressIp := {| ip := "fe80::1"; port := 5540 |}.

Definition requesting (d : NodeDiscoveryType.t) (timeout : option N) : DiscoveryOptions :=
  {| discoveryType := Some d; timeoutSeconds := timeout; optionsDiscoveryData := None |}.

(** A peer set that knows [peer_1_5] at [endpoint] and holds a channel, a
    session, a resumption record and a stored record for it. *)
Definition connected : State :=
  let known := {| address := peer_1_5; operationalAddress := Some endpoint;
                  discoveryData := None |} in
  {| peers := [0]; peersByAddress := {[ peer_1_5 := 0 ]};
     runningPeerDiscoveries := ∅; nodeCachedData := ∅;
     peerObjects := {[ 0 := known ]}; nextId := 1;
     channels := {[ peer_1_5 := {| channel := 7;
                                   session := {| sessionId := 100; isSecure := true |} |} ]};
     nodeSessions := {[ peer_1_5 := [{| sessionId := 100; isSecure := true |}] ]};
     resumptionRecords :=
       {[ peer_1_5 := {| idleIntervalMs := None; activeIntervalMs := None;
                         activeThresholdMs := None |} ]};
     store := {[ peer_1_5 := known ]};
     mdnsScanner := Some ∅; udpInterfaces := ["::"; "0.0.0.0"]; calls := [] |}.

(** [initial] with a timed discovery of 30 seconds in flight for
    [peer_1_5], as a first caller leaves it. *)
Definition timedDiscoveryRunning : State :=
  (connectOrDiscoverNode (answering false) hierarchy hasColon peer_1_5 None
     (requesting NodeDiscoveryType.TimedDiscovery (Some 30%N)) initial).2.

(** [initial] with a full discovery in flight for [peer_1_5]. *)
Definition fullDiscoveryRunning : State :=
  (connectOrDiscoverNode (answering false) hierarchy hasColon peer_1_5 None
     (requesting NodeDiscoveryType.FullDiscovery None) initial).2.


(** Collaborators with which every channel opens (as channel 7) and the
    CASE driver hands back session 100, not resumed, but the channel
    manager fails with [e] when the channel is filed. *)
Definition losingChannel (e : Error) : World :=
  {| opens := λ _ _ _, inr 7;
     pairs := λ _ _ _, inr ({| sessionId := 100; isSecure := true |}, false);
     rejects := λ _ c, match c with
                       | SetChannel _ _ => Some e
                       | _ => None
                       end |}.

(** Collaborators with which every channel opens (as channel 7) and no
    call fails but the CASE run, which fails with [e]. *)
Definition refusing (e : Error) : World :=
  {| opens := λ _ _ _, inr 7;
     pairs := λ _ _ _, inl e;
     rejects := λ _ _, None |}.

End Samples.

(** ** Part store service *)

Module PartStoreService.

Definition NEXT_NUMBER_KEY : string := "__nextNumber__".
Definition KNOWN_KEY : string := "__known__".

(** What the service reads and writes of a Part: [part.id] and
    [part.number], each [None] while [lifecycle.hasId] or
    [lifecycle.hasNumber] is false.  Numbers are JavaScript numbers with
    integer values. *)
Record Part := {
  id : option string;
  number : option Z;
}.

(** Modelled from the spec: ServerPartStore belongs to the storage-side
    sibling core and is declared outside the modelled files.  Of a store
    the service reads and assigns [number], taken to be a plain property
    that is undefined until it is assigned or loaded; [isNew] is the third
    argument of the constructor. *)
Record ServerPartStore := {
  storeNumber : option Z;
  isNew : bool;
}.

(** The calls [storage.set(key, value)] of the service, as they appear in
    the trace [writes] of a state. *)
Inductive StorageWrite :=
| StorageSet (key : string) (value : list string).

(** The private fields of the service.
    - [stores]: the object [#stores], by part id (ids are taken not to
      name a property of Object.prototype);
    - [numbersPersisted]: [None] while the field is undefined, else the
      number of runs of the persister chained on the promise so far;
    - [knownParts]: the Set [#knownParts] in insertion order. *)
Record State := {
  construction : AsyncConstruction.State;
  stores : gmap string ServerPartStore;
  allocatedNumbers : gset Z;
  nextNumber : option Z;
  persistedNextNumber : option Z;
  numbersPersisted : option nat;
  numbersToPersist : option (gmap string Z);
  knownParts : list string;
  writes : list StorageWrite;
}.

Inductive Error :=
| Unavailable (e : AsyncConstruction.Exception)
| ImplementationError (message : string)
| IdentityConflictError (partId : string) (partNumber : Z).

Inductive Outcome (A : Type) :=
| Returned (a : A)
| Threw (e : Error).
Arguments Returned {A} a.
Arguments Threw {A} e.

(** The initializer that the constructor hands to AsyncConstruction, up to
    [loadKnown]: [nextNumber] is the option of the caller and [stored] what
    the storage holds under NEXT_NUMBER_KEY.  The result is the pair of
    [#nextNumber] and [#persistedNextNumber]. *)
Definition loadNextNumber (nextNumber stored : option Z) : Z * option Z :=
  let fallback := default 1%Z nextNumber in
  let loaded := Z.rem (default fallback stored) 0xffff in
  if (loaded =? 0)%Z then (1%Z, None) else (loaded, Some loaded).

(** The service right after its constructor returned: the initializer is
    async, so the construction is pending. *)
Definition constructed : State :=
  {| construction :=
       (AsyncConstruction.AsyncConstruction
          (Some {| AsyncConstruction.reentrant := [];
                   AsyncConstruction.completion := AsyncConstruction.ReturnsPromise |})
          false).1;
     stores := ∅; allocatedNumbers := ∅; nextNumber := None;
     persistedNextNumber := None; numbersPersisted := None;
     numbersToPersist := None; knownParts := []; writes := [] |}.

(** [new Set(array)]: the elements in the order of their first occurrence. *)
Definition newSet (array : list string) : list string :=
  fold_left (λ set x, if bool_decide (x ∈ set) then set else app set [x]) array [].

(** The service once the initializer has run to its end, when every store
    loads: [stored] is what the storage holds under NEXT_NUMBER_KEY and
    [known] what it holds under KNOWN_KEY (storage.get hands out its second
    argument when the key is absent).  Unless [loadKnown] is false, each
    known part gets the store that [#loadKnownStore] builds for it;
    [loadedStore partId] is the number that store holds. *)
Definition initialized (nextNumber stored : option Z) (loadKnown : option bool)
  (known : option (list string)) (loadedStore : string -> option Z) : State :=
  let numbers := loadNextNumber nextNumber stored in
  let load := negb (bool_decide (loadKnown = Some false)) in
  {| construction :=
       AsyncConstruction.settle None (construction constructed);
     stores :=
       if load then
         fold_left (λ m partId,
                      <[partId := {| storeNumber := loadedStore partId; isNew := false |}]> m)
           (newSet (default [] known)) ∅
       else ∅;
     allocatedNumbers := ∅;
     nextNumber := Some numbers.1;
     persistedNextNumber := numbers.2;
     numbersPersisted := None; numbersToPersist := None;
     knownParts := if load then newSet (default [] known) else [];
     writes := [] |}.

(** [this.#construction.assert()] *)
Definition assert (s : State) : option Error :=
  Unavailable <$> AsyncConstruction.assert (construction s).

(** #storeForPartId(partId) *)
Definition storeForPartId (partId : string) (s : State) : Outcome ServerPartStore * State :=
  match assert s with
  | Some e => (Threw e, s)
  | None =>
      match stores s !! partId with
      | Some store => (Returned store, s)
      | None =>
          let store := {| storeNumber := None; isNew := true |} in
          let known :=
            if bool_decide (partId ∈ knownParts s) then knownParts s
            else app (knownParts s) [partId] in
          (Returned store,
           {| construction := construction s;
              stores := <[partId := store]> (stores s);
              allocatedNumbers := allocatedNumbers s;
              nextNumber := nextNumber s;
              persistedNextNumber := persistedNextNumber s;
              numbersPersisted := numbersPersisted s;
              numbersToPersist := numbersToPersist s;
              knownParts := known;
              writes :=
                if bool_decide (partId ∈ knownParts s) then writes s
                else app (writes s) [StorageSet KNOWN_KEY known] |})
      end
  end.

(** storeForPart(part) *)
Definition storeForPart (part : Part) (s : State) : Outcome ServerPartStore * State :=
  match id part with
  | None =>
      (Threw (ImplementationError
                "Cannot access part storage because part has no assigned ID"), s)
  | Some partId => storeForPartId partId s
  end.

(** #persistNumber(part), up to the first await of the persister: the
    number is noted and, unless a set of numbers is waiting already, one
    more run of the persister is chained. *)
Definition persistNumber (partId : string) (partNumber : Z) (s : State) : State :=
  match numbersToPersist s with
  | Some numbers =>
      {| construction := construction s; stores := stores s;
         allocatedNumbers := allocatedNumbers s; nextNumber := nextNumber s;
         persistedNextNumber := persistedNextNumber s;
         numbersPersisted := numbersPersisted s;
         numbersToPersist := Some (<[partId := partNumber]> numbers);
         knownParts := knownParts s; writes := writes s |}
  | None =>
      {| construction := construction s; stores := stores s;
         allocatedNumbers := allocatedNumbers s; nextNumber := nextNumber s;
         persistedNextNumber := persistedNextNumber s;
         numbersPersisted := Some (S (default 0 (numbersPersisted s)));
         numbersToPersist := Some {[ partId := partNumber ]};
         knownParts := knownParts s; writes := writes s |}
  end.

(** The error of the exhaustion check. *)
Definition exhausted : Error :=
  ImplementationError "Cannot add additional parts because part numbers are exhausted".

(** The loop of assignNumber that looks for a number that is free.  The
    result is the number found or the error of the exhaustion check;
    [None] when [fuel] iterations do not end the loop. *)
Fixpoint findFree (fuel : nat) (startNumber : Z) (allocated : gset Z) (next : Z)
  : option (Error + Z) :=
  if (next <? 2)%Z || bool_decide (next ∈ allocated) then
    match fuel with
    | O => None
    | S fuel' =>
        let next' := Z.rem (next + 1) 0xffff in
        if (next' =? startNumber)%Z then Some (inl exhausted)
        else findFree fuel' startNumber allocated next'
    end
  else Some (inr next).

(** [store.number = part.number] on the store of [partId]. *)
Definition assignStoreNumber (partId : string) (partNumber : Z) (s : State) : State :=
  {| construction := construction s;
     stores := alter (λ store, {| storeNumber := Some partNumber; isNew := isNew store |})
                 partId (stores s);
     allocatedNumbers := allocatedNumbers s; nextNumber := nextNumber s;
     persistedNextNumber := persistedNextNumber s;
     numbersPersisted := numbersPersisted s;
     numbersToPersist := numbersToPersist s;
     knownParts := knownParts s; writes := writes s |}.

(** The end of the allocating branch: [number = this.#nextNumber++] for
    the number [free] that the loop stopped at, and
    [this.#allocatedNumbers.add(number)]. *)
Definition allocate (free : Z) (s : State) : State :=
  {| construction := construction s; stores := stores s;
     allocatedNumbers := {[ free ]} ∪ allocatedNumbers s;
     nextNumber := Some (free + 1)%Z;
     persistedNextNumber := persistedNextNumber s;
     numbersPersisted := numbersPersisted s;
     numbersToPersist := numbersToPersist s;
     knownParts := knownParts s; writes := writes s |}.

(** [part.id], read where the part has an id. *)
Definition idOf (part : Part) : string :=
  match id part with
  | Some partId => partId
  | None => EmptyString
  end.

(** assignNumber(part): the part as the call leaves it, or the error
    thrown; [None] when the loop does not end within [fuel] iterations. *)
Definition assignNumber (fuel : nat) (part : Part) (s : State)
  : option (Outcome Part * State) :=
  match assert s with
  | Some e => Some (Threw e, s)
  | None =>
      match storeForPart part s with
      | (Threw e, s1) => Some (Threw e, s1)
      | (Returned store, s1) =>
          let partId := idOf part in
          let finish (numbered : Z) (s2 : State) :=
            Some (Returned {| id := id part; number := Some numbered |},
                  persistNumber partId numbered (assignStoreNumber partId numbered s2)) in
          match number part with
          | Some reserved =>
              if bool_decide (reserved ∈ allocatedNumbers s1) then
                match storeForPart part s1 with
                | (Threw e, s2) => Some (Threw e, s2)
                | (Returned again, s2) =>
                    if bool_decide (storeNumber again = Some reserved)
                    then Some (Returned part, s2)
                    else Some (Threw (IdentityConflictError partId reserved), s2)
                end
              else finish reserved s1
          | None =>
              let knownNumber := storeNumber store in
              if bool_decide (is_Some knownNumber ∧ knownNumber ≠ Some 0%Z) then
                Some (Returned {| id := id part; number := knownNumber |}, s1)
              else
                match assert s1 with
                | Some e => Some (Threw e, s1)
                | None =>
                    match nextNumber s1 with
                    | None =>
                        Some (Threw (ImplementationError
                                       "Initialization has not completed."), s1)
                    | Some startNumber =>
                        match findFree fuel startNumber (allocatedNumbers s1) startNumber with
                        | None => None
                        | Some (inl e) => Some (Threw e, s1)
                        | Some (inr free) => finish free (allocate free s1)
                        end
                    end
                end
          end
      end
  end.

(** The next number is loaded, every allocated number is at least 2 and
    lies below it. *)
Definition numbered (s : State) : Prop :=
  ∃ next, nextNumber s = Some next ∧ (-0xffff < next)%Z ∧
          ∀ n, n ∈ allocatedNumbers s → (2 <= n < next)%Z.

(** The construction of the service has completed without error. *)
Definition available (s : State) : Prop := assert s = None.

(** The bookkeeping of stores and of numbers to persist is in order: the
    set of known parts has no duplicates and lists every part that has a
    store; the last list written under KNOWN_KEY, if any, is that set;
    and a set of numbers waits only while a persister is chained. *)
Definition bookkept (s : State) : Prop :=
  NoDup (knownParts s) ∧
  (∀ partId, is_Some (stores s !! partId) → partId ∈ knownParts s) ∧
  (writes s = [] ∨ last (writes s) = Some (StorageSet KNOWN_KEY (knownParts s))) ∧
  (is_Some (numbersToPersist s) → is_Some (numbersPersisted s)).

(** The state in which assignNumber leaves the store of the part once it
    has settled on a number. *)
Definition settled (partId : string) (n : Z) (s : State) : State :=
  persistNumber partId n (assignStoreNumber partId n s).

End PartStoreService.

(* ===================================================================== *)
(** * Part II: theorems                                                   *)
(* ===================================================================== *)

(** ** TLV float schema *)

Module TlvFloatSpec.
Import TlvFloat.

Example validate_in_range :
  validate (TlvBoundedDouble (Some 0%float) (Some 10%float) None) 5%float = Ok.
Proof. reflexivity. Qed.

Example validate_above_prints_min :
  validate (TlvBoundedDouble (Some 0%float) (Some 10%float) None) 11%float
  = Throw [Text "Invalid value: "; Num 11%float;
           Text " is above the maximum, "; Num 0%float; Text "."].
Proof. reflexivity. Qed.

Example validate_nan_passes :
  validate (TlvBoundedDouble (Some 0%float) (Some 10%float) None) nan = Ok.
Proof. reflexivity. Qed.

(** C9. With both bounds configured, validate throws exactly when the value
    is below the minimum or above the maximum, and the message thrown for a
    value above the maximum interpolates the configured minimum, not the
    maximum. *)
Theorem validate_bounds_and_message (lo hi : float) (p : TlvLength) (value : float) :
  let s := {| min := Some lo; max := Some hi; precision := p |} in
  ((exists m, validate s value = Throw m)
     <-> (PrimFloat.ltb value lo = true \/ PrimFloat.ltb hi value = true)) /\
  (PrimFloat.ltb value lo = false -> PrimFloat.ltb hi value = true ->
     validate s value
     = Throw [Text "Invalid value: "; Num value;
              Text " is above the maximum, "; Num lo; Text "."]).
Proof.
  cbn zeta. unfold validate, belowMin, aboveMax. cbn [min max interpolate].
  destruct (PrimFloat.ltb value lo) eqn:Hlo, (PrimFloat.ltb hi value) eqn:Hhi;
    (split; [split|]); try (intros [m Hm]); try (intros [?|?]); intros;
    try discriminate; eauto.
Qed.

Lemma validate_bounds_and_message_witness :
  PrimFloat.ltb 11%float 0%float = false /\ PrimFloat.ltb 10%float 11%float = true /\
  validate {| min := Some 0%float; max := Some 10%float; precision := EightBytes |} 11%float
  = Throw [Text "Invalid value: "; Num 11%float;
           Text " is above the maximum, "; Num 0%float; Text "."].
Proof.
  split; [reflexivity|]. split; [reflexivity|].
  exact (proj2 (validate_bounds_and_message 0%float 10%float EightBytes 11%float)
           eq_refl eq_refl).
Defined.


(** *** Values that no bound rejects *)

Lemma SFcompare_nan_r x : SFcompare x S754_nan = None.
Proof. by destruct x. Qed.

Lemma SFcompare_refl x : x <> S754_nan -> SFcompare x x = Some Eq.
Proof.
  destruct x as [s|s| |s m e]; cbn; try done; intros _.
  - by destruct s.
  - rewrite Z.compare_refl.
    change (PosDef.Pos.compare_cont Eq m m) with (Pos.compare m m).
    rewrite Pos.compare_refl. by destruct s.
Qed.

Lemma Prim2SF_nan value : PrimFloat.is_nan value = true <-> Prim2SF value = S754_nan.
Proof.
  unfold PrimFloat.is_nan. rewrite FloatAxioms.eqb_spec. unfold SFeqb. split.
  - intros H. destruct (Prim2SF value) as [s|s| |s m e] eqn:E; try reflexivity;
      rewrite SFcompare_refl in H; discriminate.
  - by intros ->.
Qed.

Lemma ltb_nan_l value x : PrimFloat.is_nan value = true -> PrimFloat.ltb value x = false.
Proof. intros H. rewrite FloatAxioms.ltb_spec, (proj1 (Prim2SF_nan value) H). reflexivity. Qed.

Lemma ltb_nan_r value x : PrimFloat.is_nan value = true -> PrimFloat.ltb x value = false.
Proof.
  intros H. rewrite FloatAxioms.ltb_spec, (proj1 (Prim2SF_nan value) H).
  unfold SFltb. by rewrite SFcompare_nan_r.
Qed.

(** X1. NaN passes every schema.  Whatever bounds a schema has, validate
    accepts a value that is not a number. *)
Theorem validate_accepts_nan (s : FloatSchema) (value : float) :
  PrimFloat.is_nan value = true -> validate s value = Ok.
Proof.
  intros Hnan. unfold validate, belowMin, aboveMax.
  destruct (min s) as [lo|], (max s) as [hi|];
    rewrite ?(ltb_nan_l value), ?(ltb_nan_r value) by exact Hnan; reflexivity.
Qed.

Lemma validate_accepts_nan_witness :
  validate (TlvBoundedDouble (Some 0%float) (Some 10%float) None) nan = Ok.
Proof. apply validate_accepts_nan. reflexivity. Defined.

Lemma SFcompare_antisym x y :
  SFcompare y x = option_map CompOpp (SFcompare x y).
Proof.
  destruct x as [s1|s1| |s1 m1 e1], y as [s2|s2| |s2 m2 e2]; cbn; try reflexivity;
    try (by destruct s1); try (by destruct s2); try (by destruct s1, s2).
  change (PosDef.Pos.compare_cont Eq m2 m1) with (Pos.compare m2 m1).
  change (PosDef.Pos.compare_cont Eq m1 m2) with (Pos.compare m1 m2).
  rewrite (Z.compare_antisym e1 e2), (Pos.compare_antisym m1 m2).
  destruct s1, s2; try reflexivity;
    destruct (e1 ?= e2)%Z; cbn; try reflexivity;
    by rewrite ?CompOpp_involutive.
Qed.

(** For numbers, not below means at least. *)
Lemma ltb_false_leb x y :
  PrimFloat.is_nan x = false -> PrimFloat.is_nan y = false ->
  PrimFloat.ltb x y = negb (PrimFloat.leb y x).
Proof.
  intros Hx Hy. rewrite FloatAxioms.ltb_spec, FloatAxioms.leb_spec. unfold SFltb, SFleb.
  rewrite (SFcompare_antisym (Prim2SF x) (Prim2SF y)).
  destruct (SFcompare (Prim2SF x) (Prim2SF y)) as [[]|] eqn:E; cbn; try reflexivity.
  exfalso.
  assert (Hx' : Prim2SF x <> S754_nan).
  { intros H. apply Prim2SF_nan in H. congruence. }
  assert (Hy' : Prim2SF y <> S754_nan).
  { intros H. apply Prim2SF_nan in H. congruence. }
  destruct (Prim2SF x), (Prim2SF y); cbn in E; congruence.
Qed.

(** X2. The two predefined schemas.  TlvDouble accepts every value, the
    infinities and NaN included.  TlvFloat accepts NaN and, of the
    numbers, exactly those from FLOAT32_MIN to FLOAT32_MAX, both
    included, so that it refuses both infinities. *)
Theorem predefined_schemas_accept (value : float) :
  validate TlvDouble value = Ok /\
  (validate TlvFloat value = Ok <->
   PrimFloat.is_nan value = true \/
   PrimFloat.leb FLOAT32_MIN value && PrimFloat.leb value FLOAT32_MAX = true) /\
  validate TlvFloat infinity <> Ok /\ validate TlvFloat neg_infinity <> Ok.
Proof.
  split; [reflexivity|]. split; [|split; [by vm_compute | by vm_compute]].
  destruct (PrimFloat.is_nan value) eqn:Hnan.
  { unfold validate, belowMin, aboveMax, TlvFloat, TlvBoundedDouble. cbn [min max].
    rewrite (ltb_nan_l value), (ltb_nan_r value) by exact Hnan. split; auto. }
  unfold validate, belowMin, aboveMax, TlvFloat, TlvBoundedDouble. cbn [min max].
  rewrite (ltb_false_leb value FLOAT32_MIN Hnan eq_refl).
  rewrite (ltb_false_leb FLOAT32_MAX value eq_refl Hnan).
  destruct (PrimFloat.leb FLOAT32_MIN value), (PrimFloat.leb value FLOAT32_MAX); cbn;
    (split; [intros H; try discriminate H; by right | intros [H|H]; try discriminate H; done]).
Qed.

End TlvFloatSpec.

(** ** Asynchronous construction *)

Module AsyncConstructionSpec.
Import AsyncConstruction.

Lemma consistent_initial : consistent initial.
Proof. unfold consistent; cbn; intuition discriminate. Qed.

Lemma cancel_consistent hasCancel s :
  consistent s -> consistent (cancel hasCancel s).
Proof.
  intros H. unfold cancel.
  destruct (ready s || canceled s) eqn:E; [exact H|].
  destruct hasCancel; [|exact H].
  apply orb_false_elim in E as [Hr Hc].
  unfold consistent in *. cbn. rewrite Hr in *. intuition discriminate.
Qed.

Lemma then_consistent s : consistent s -> consistent (then_ s).
Proof.
  intros H. unfold then_. destruct (started s) eqn:Hs; [exact H|].
  unfold consistent in *. cbn. rewrite Hs in *. exact H.
Qed.

Lemma reenter_consistent hasCancel s r :
  consistent s -> consistent (reenter hasCancel s r).
Proof. destruct r; cbn; auto using cancel_consistent, then_consistent. Qed.

(** Calls made from inside the initializer leave [started], [ready] and
    [pending] alone. *)
Lemma reenter_frame hasCancel s r :
  started s = true ->
  let s' := reenter hasCancel s r in
  started s' = true /\ ready s' = ready s /\ pending s' = pending s.
Proof.
  intros Hs. destruct r; cbn; unfold cancel, then_; rewrite ?Hs; auto.
  destruct (ready s || canceled s), hasCancel; cbn; auto.
Qed.

Lemma reentrant_calls hasCancel rs : forall s,
  consistent s -> started s = true ->
  let s' := fold_left (reenter hasCancel) rs s in
  consistent s' /\ started s' = true /\ ready s' = ready s /\ pending s' = pending s.
Proof.
  induction rs as [|r rs IH]; intros s Hc Hs; cbn; [auto|].
  destruct (reenter_frame hasCancel s r Hs) as (Hs' & Hr' & Hp').
  destruct (IH _ (reenter_consistent hasCancel s r Hc) Hs') as (Hc2 & Hs2 & Hr2 & Hp2).
  refine (conj Hc2 (conj Hs2 (conj _ _))); congruence.
Qed.

Lemma start_consistent hasCancel init s :
  consistent s -> consistent (fst (start hasCancel init s)).
Proof.
  intros Hc. unfold start. destruct (started s) eqn:Hs; [exact Hc|].
  set (s1 := Build_State _ _ true _ _ _ _ _).
  assert (Hr : ready s = false).
  { destruct Hc as (H1 & _). destruct (ready s); [destruct H1; congruence | reflexivity]. }
  assert (Hp : pending s = false).
  { destruct Hc as (_ & H2 & _). destruct (pending s); [rewrite H2 in Hs; congruence | reflexivity]. }
  assert (Hc1 : consistent s1).
  { unfold consistent, s1; cbn. rewrite Hr, Hp. destruct Hc as (_ & _ & _ & H4).
    rewrite Hr in H4. intuition discriminate. }
  destruct (reentrant_calls hasCancel (reentrant init) s1 Hc1 eq_refl)
    as (Hc2 & Hs2 & Hr2 & Hp2).
  cbn in Hr2, Hp2. rewrite Hr in Hr2. rewrite Hp in Hp2.
  destruct Hc2 as (_ & _ & _ & H4). specialize (H4 Hr2).
  destruct (completion init); unfold consistent; cbn; rewrite ?Hs2, ?Hp2;
    intuition (discriminate || auto).
Qed.

Lemma settle_consistent r s : consistent s -> consistent (settle r s).
Proof.
  intros Hc. unfold settle. destruct (pending s) eqn:Hp; [|exact Hc].
  destruct Hc as (_ & H2 & _). specialize (H2 Hp).
  destruct r; unfold consistent; cbn; rewrite ?H2; intuition (discriminate || auto).
Qed.

Lemma step_consistent hasCancel s e :
  consistent s -> consistent (step hasCancel s e).
Proof.
  destruct e; cbn;
    auto using start_consistent, settle_consistent, cancel_consistent, then_consistent.
Qed.

Lemma run_consistent hasCancel events : forall s,
  consistent s -> consistent (run hasCancel events s).
Proof.
  induction events as [|e events IH]; intros s Hc; cbn; [exact Hc|].
  apply IH, step_consistent, Hc.
Qed.

Lemma reachable_consistent hasCancel s : reachable hasCancel s -> consistent s.
Proof. intros [events ->]. apply run_consistent, consistent_initial. Qed.

(** Once the initializer has completed, no event changes the handle. *)
Lemma ready_is_final hasCancel s e :
  consistent s -> ready s = true -> step hasCancel s e = s.
Proof.
  intros (H1 & _) Hr. destruct (H1 Hr) as (Hs & Hp).
  destruct e; cbn; unfold start, settle, cancel, then_; rewrite ?Hs, ?Hp, ?Hr; reflexivity.
Qed.


Lemma cancel_keeps_canceled hasCancel s :
  canceled s = true -> canceled (cancel hasCancel s) = true.
Proof. intros H. unfold cancel. rewrite H, orb_true_r. exact H. Qed.

Lemma then_keeps_canceled s : canceled s = true -> canceled (then_ s) = true.
Proof. intros H. unfold then_. destruct (started s); exact H. Qed.

Lemma reentrant_keep_canceled hasCancel rs : forall s,
  canceled s = true -> canceled (fold_left (reenter hasCancel) rs s) = true.
Proof.
  induction rs as [|r rs IH]; intros s H; cbn [fold_left]; [exact H|].
  apply IH. destruct r; cbn [reenter];
    auto using cancel_keeps_canceled, then_keeps_canceled.
Qed.

(** A cancellation, once recorded, is never taken back. *)
Lemma canceled_is_kept hasCancel s e :
  canceled s = true -> canceled (step hasCancel s e) = true.
Proof.
  intros Hc. destruct e; cbn [step];
    auto using cancel_keeps_canceled, then_keeps_canceled.
  - unfold start. destruct (started s); [exact Hc|].
    match goal with
    | |- context [fold_left _ _ ?s1] =>
        pose proof (reentrant_keep_canceled hasCancel (reentrant init) s1 Hc) as Hk
    end.
    destruct (completion init); exact Hk.
  - unfold settle. destruct (pending s); [destruct r|]; exact Hc.
Qed.






(** *** What the handle refuses and what it keeps *)

Lemma run_app hasCancel (before after : list Event) s :
  run hasCancel (app before after) s = run hasCancel after (run hasCancel before s).
Proof. apply fold_left_app. Qed.

Lemma reentrant_keep_started hasCancel rs : forall s,
  started s = true -> started (fold_left (reenter hasCancel) rs s) = true.
Proof.
  induction rs as [|r rs IH]; intros s Hs; cbn [fold_left]; [exact Hs|].
  apply IH. by destruct (reenter_frame hasCancel s r Hs) as (? & _).
Qed.

Lemma start_starts hasCancel init s : started (start hasCancel init s).1 = true.
Proof.
  unfold start. destruct (started s) eqn:Hs; [exact Hs|].
  match goal with
  | |- context [fold_left _ _ ?s1] =>
      pose proof (reentrant_keep_started hasCancel (reentrant init) s1 eq_refl) as Hk
  end.
  destruct (completion init); cbn; exact Hk.
Qed.

Lemma started_is_kept hasCancel s e :
  started s = true -> started (step hasCancel s e) = true.
Proof.
  intros Hs. destruct e; cbn [step].
  - apply start_starts.
  - unfold settle. destruct (pending s); [destruct r|]; exact Hs.
  - unfold cancel. destruct (ready s || canceled s), hasCancel; exact Hs.
  - unfold then_. by rewrite Hs.
  - exact Hs.
Qed.

Lemma run_keeps_started hasCancel events : forall s,
  started s = true -> started (run hasCancel events s) = true.
Proof.
  induction events as [|e events IH]; intros s Hs; cbn; [exact Hs|].
  apply IH, started_is_kept, Hs.
Qed.

(** X3. An initializer runs at most once.  Once start has been called on a
    handle, whatever happened before and whatever happens afterwards,
    every further call of start throws an ImplementationError and leaves
    the handle as it is. *)
Theorem second_start_is_refused (hasCancel : bool) (before after : list Event)
  (first again : Initializer) :
  let s := run hasCancel (app before (Start first :: after)) initial in
  start hasCancel again s
  = (s, Some (ImplementationError "Initialization has already started")).
Proof.
  cbn zeta. set (s := run hasCancel (app before (Start first :: after)) initial).
  assert (Hs : started s = true).
  { unfold s. rewrite run_app.
    apply (run_keeps_started hasCancel after (step hasCancel _ (Start first))).
    cbn [step]. apply start_starts. }
  unfold start. by rewrite Hs.
Qed.

Lemma reentrant_keep_error hasCancel rs : forall s,
  error (fold_left (reenter hasCancel) rs s) = error s.
Proof.
  induction rs as [|r rs IH]; intros s; cbn [fold_left]; [reflexivity|].
  rewrite IH. destruct r; cbn [reenter]; unfold cancel, then_;
    [reflexivity | destruct (ready s || canceled s), hasCancel | destruct (started s)];
    reflexivity.
Qed.

Lemma step_errorSaved hasCancel s e :
  consistent s -> errorSaved s -> errorSaved (step hasCancel s e).
Proof.
  intros Hc Hsaved. destruct (ready s) eqn:Hr.
  { by rewrite (ready_is_final hasCancel s e Hc Hr). }
  pose proof (step_consistent hasCancel s e Hc) as Hc'.
  assert (Hnone : error s = None).
  { destruct Hsaved as [_ H]. destruct (error s); [|reflexivity].
    specialize (H (ex_intro _ _ eq_refl)). congruence. }
  assert (Hkept : forall s', error s' = None -> status s' <> Incapacitated ->
                             errorSaved s').
  { intros s' E Hst. unfold errorSaved. rewrite E. split; [split|]; intros H; try done;
      by destruct H. }
  assert (Hfailed : forall s' e', error s' = Some e' -> status s' = Incapacitated ->
                                  ready s' = true -> errorSaved s').
  { intros s' e' E Hst Hrd. unfold errorSaved. rewrite E. split; [split|]; eauto. }
  assert (Hearly : status s <> Incapacitated).
  { destruct Hc as (_ & _ & _ & H4). specialize (H4 Hr). destruct (canceled s); congruence. }
  destruct e; cbn [step] in *.
  - unfold start in *. destruct (started s) eqn:Hs; [by apply Hkept|].
    match type of Hc' with
    | context [fold_left _ _ ?s1] =>
        pose proof (reentrant_keep_error hasCancel (reentrant init) s1) as He
    end.
    destruct (completion init); cbn [fst] in *.
    + apply Hkept; cbn [error status]; [by rewrite He | discriminate].
    + by apply (Hfailed _ e).
    + apply Hkept; cbn [error status]; [by rewrite He|].
      destruct Hc' as (_ & _ & _ & H4'). cbn [ready status canceled] in H4'.
      specialize (H4' eq_refl). rewrite H4'.
      match goal with |- context [if ?c then _ else _] => destruct c end; discriminate.
  - unfold settle in *. destruct (pending s); [|by apply Hkept].
    destruct r as [e|]; [by apply (Hfailed _ e) | apply Hkept; cbn; [exact Hnone | discriminate]].
  - unfold cancel in *. rewrite Hr in *. cbn [orb] in *.
    destruct (canceled s), hasCancel; apply Hkept; cbn; first [exact Hnone | exact Hearly | discriminate].
  - unfold then_ in *. destruct (started s); by apply Hkept.
  - by apply Hkept.
Qed.

Lemma reachable_errorSaved hasCancel s : reachable hasCancel s -> errorSaved s.
Proof.
  intros [events ->].
  assert (H : forall s0, consistent s0 -> errorSaved s0 ->
                         errorSaved (run hasCancel events s0)).
  { induction events as [|e events IH]; intros s0 Hc Hs; cbn; [exact Hs|].
    apply IH; [by apply step_consistent | by apply step_errorSaved]. }
  apply H; [apply consistent_initial|].
  unfold errorSaved; cbn. split; [split|]; intros H'; try discriminate; by destruct H'.
Qed.

(** X4. What assert tells.  On a handle as its events can leave it, assert
    passes when the status is [Active] and no cancellation was recorded;
    it refuses with an UninitializedDependencyError while the status is
    [Initializing] or [Destroyed]; and when it passes, the initializer has
    completed, no cancellation was recorded and the status is [Active],
    or else [Incapacitated] by an error that is falsy. *)
Theorem assert_follows_status (hasCancel : bool) (s : State) :
  reachable hasCancel s ->
  (status s = Active -> canceled s = false -> assert s = None) /\
  (status s = Initializing \/ status s = Destroyed ->
   exists message, assert s = Some (UninitializedDependencyError message)) /\
  (assert s = None ->
   ready s = true /\ canceled s = false /\
   (status s = Active \/
    status s = Incapacitated /\ exists e, error s = Some e /\ truthy e = false)).
Proof.
  intros Hreach.
  pose proof (reachable_consistent _ _ Hreach) as (H1 & H2 & H3 & H4).
  pose proof (reachable_errorSaved _ _ Hreach) as ((Hstatus & Herror) & Hready).
  unfold assert, truthyError. split; [|split].
  - intros Hactive Hcan.
    destruct (error s) as [e|].
    { specialize (Hstatus (ex_intro _ _ eq_refl)). congruence. }
    destruct (ready s); [by rewrite Hcan|].
    specialize (H4 eq_refl). rewrite Hcan in H4. congruence.
  - intros Hearly.
    destruct (error s) as [e|].
    { specialize (Hstatus (ex_intro _ _ eq_refl)). destruct Hearly; congruence. }
    destruct (ready s); cbn; [|by eexists].
    destruct (H3 eq_refl), Hearly; congruence.
  - destruct (error s) as [e|] eqn:He.
    + destruct (truthy e) eqn:Ht; [discriminate|].
      specialize (Hstatus (ex_intro _ _ eq_refl)).
      destruct (ready s); cbn; [|discriminate].
      destruct (canceled s); [discriminate|]. intros _.
      split; [reflexivity|]. split; [reflexivity|]. right. eauto.
    + destruct (ready s); cbn; [|discriminate].
      destruct (canceled s); [discriminate|]. intros _.
      split; [reflexivity|]. split; [reflexivity|].
      destruct (H3 eq_refl) as [E|E]; [by left|].
      destruct (Herror E) as [? [=]].
Qed.

Lemma assert_follows_status_witness :
  let async := {| reentrant := []; completion := ReturnsPromise |} in
  let s := run false [Start async; Settle None] initial in
  reachable false s /\ assert s = None.
Proof.
  cbn zeta. split.
  - eexists. reflexivity.
  - refine (proj1 (assert_follows_status false _ _) _ _).
    + eexists. reflexivity.
    + reflexivity.
    + reflexivity.
Defined.

Lemma run_keeps_canceled hasCancel events : forall s,
  canceled s = true -> canceled (run hasCancel events s) = true.
Proof.
  induction events as [|e events IH]; intros s Hs; cbn; [exact Hs|].
  apply IH, canceled_is_kept, Hs.
Qed.

(** X5. A cancellation is final for the users of the object.  Once a
    cancellation is recorded, assert throws after every further sequence
    of events, also when the initializer completes without error and the
    status becomes [Active]. *)
Theorem canceled_handle_is_never_available (hasCancel : bool) (s : State)
  (events : list Event) :
  canceled s = true ->
  exists e, assert (run hasCancel events s) = Some e.
Proof.
  intros Hc. pose proof (run_keeps_canceled hasCancel events s Hc) as Hk.
  unfold assert. destruct (truthyError _); [by eexists|].
  destruct (ready _); cbn; [|by eexists]. rewrite Hk. by eexists.
Qed.

Lemma canceled_handle_is_never_available_witness :
  let async := {| reentrant := []; completion := ReturnsPromise |} in
  let s := run true [Start async; Cancel] initial in
  canceled s = true /\
  status (run true [Settle None] s) = Active /\
  exists e, assert (run true [Settle None] s) = Some e.
Proof.
  cbn zeta. split; [reflexivity|]. split; [reflexivity|].
  apply canceled_handle_is_never_available. reflexivity.
Defined.

Lemma cancel_hookedOnce hasCancel s :
  hookedOnce hasCancel s -> hookedOnce hasCancel (cancel hasCancel s).
Proof.
  intros H. pose proof H as [Hn Hh]. unfold cancel.
  destruct (ready s || canceled s) eqn:E; [exact H|].
  apply orb_false_elim in E as [_ Hc]. rewrite Hc in Hn.
  destruct hasCancel; [|exact H]. split; cbn; [by rewrite Hn | done].
Qed.

Lemma reentrant_hookedOnce hasCancel rs : forall s,
  hookedOnce hasCancel s -> hookedOnce hasCancel (fold_left (reenter hasCancel) rs s).
Proof.
  induction rs as [|r rs IH]; intros s H; cbn [fold_left]; [exact H|].
  apply IH. destruct r; cbn [reenter]; [exact H | by apply cancel_hookedOnce|].
  unfold then_. destruct (started s); exact H.
Qed.

Lemma step_hookedOnce hasCancel s e :
  hookedOnce hasCancel s -> hookedOnce hasCancel (step hasCancel s e).
Proof.
  intros H. destruct e; cbn [step].
  - unfold start. destruct (started s); [exact H|].
    match goal with
    | |- context [fold_left _ _ ?s1] =>
        pose proof (reentrant_hookedOnce hasCancel (reentrant init) s1 H) as Hk
    end.
    destruct (completion init); exact Hk.
  - unfold settle. destruct (pending s); [destruct r|]; exact H.
  - by apply cancel_hookedOnce.
  - unfold then_. destruct (started s); exact H.
  - exact H.
Qed.

(** X6. The cancel hook runs at most once.  On a handle as its events can
    leave it, the hook of the owner has been invoked exactly once if a
    cancellation is recorded and never otherwise; without a hook no
    cancellation is ever recorded and the status never becomes
    [Destroyed]. *)
Theorem cancel_hook_runs_once (hasCancel : bool) (s : State) :
  reachable hasCancel s ->
  hookCalls s = (if canceled s then 1 else 0) /\
  (hasCancel = false -> canceled s = false /\ status s <> Destroyed).
Proof.
  intros Hreach.
  assert (Hhook : hookedOnce hasCancel s).
  { destruct Hreach as [events ->].
    assert (H : forall s0, hookedOnce hasCancel s0 ->
                           hookedOnce hasCancel (run hasCancel events s0)).
    { induction events as [|e events IH]; intros s0 H0; cbn; [exact H0|].
      apply IH. by apply step_hookedOnce. }
    apply H. split; cbn; [reflexivity | discriminate]. }
  destruct Hhook as [Hn Hh]. split; [exact Hn|]. intros ->.
  assert (Hc : canceled s = false).
  { destruct (canceled s); [by specialize (Hh eq_refl) | reflexivity]. }
  split; [exact Hc|].
  pose proof (reachable_consistent _ _ Hreach) as (_ & _ & H3 & H4).
  destruct (ready s); [destruct (H3 eq_refl); congruence|].
  specialize (H4 eq_refl). rewrite Hc in H4. congruence.
Qed.

Lemma cancel_hook_runs_once_witness :
  let async := {| reentrant := [ReCancel]; completion := ReturnsPromise |} in
  let s := run true [Start async; Cancel; Settle None; Cancel] initial in
  reachable true s /\ hookCalls s = 1.
Proof.
  cbn zeta. split.
  - eexists. reflexivity.
  - refine (proj1 (cancel_hook_runs_once true _ _)). eexists. reflexivity.
Defined.

End AsyncConstructionSpec.

(** ** Logical address interning *)

Module InterningSpec.
Import Interning.

Lemma extends_refl h : extends h h.
Proof. split; auto. Qed.

Lemma extends_trans h1 h2 h3 : extends h1 h2 -> extends h2 h3 -> extends h1 h3.
Proof. intros [A B] [C D]. split; eauto. Qed.

Lemma fresh_unused (h : Heap) : objects h !! fresh (dom (objects h)) = None.
Proof. apply not_elem_of_dom, is_fresh. Qed.

Lemma lookupInterned_Some h f n r :
  lookupInterned h f n = Some r <->
  exists m, internedAddresses h !! f = Some m /\ m !! n = Some r.
Proof.
  unfold lookupInterned. destruct (internedAddresses h !! f) as [m|]; cbn.
  - split; [eauto | intros (m' & [= <-] & ?); done].
  - split; [done | intros (m' & [=] & _)].
Qed.

Lemma wf_empty : wf empty.
Proof. split; apply map_Forall_empty. Qed.

Lemma literal_wf f n h : wf h -> wf (literal f n h).2.
Proof.
  intros [Htab Hobj]. pose proof (fresh_unused h) as Hfresh.
  split; cbn.
  - intros f' m Hm n' r Hr. specialize (Htab f' m Hm n' r Hr). cbn in Htab.
    rewrite lookup_insert_ne; [done | congruence].
  - intros r o Hr Hint. apply lookup_insert_Some in Hr as [[_ <-] | [_ Hr]]; [done|].
    apply (Hobj r o Hr Hint).
Qed.

Lemma literal_extends f n h : extends h (literal f n h).2.
Proof.
  pose proof (fresh_unused h) as Hfresh. split; cbn; [|done].
  intros r o Hr. rewrite lookup_insert_ne; [done | congruence].
Qed.

(** A key that is already filed is answered from the table (or is the
    canonical object itself) and the heap stays as it is. *)
Lemma PeerAddress_hit h b ob c :
  wf h -> objects h !! b = Some ob ->
  lookupInterned h (fabricIndex ob) (nodeId ob) = Some c ->
  PeerAddress b h = Some (c, h).
Proof.
  intros [_ Hobj] Hb Hc. unfold PeerAddress. rewrite Hb. cbn.
  destruct (interned ob) eqn:Hint.
  - specialize (Hobj b ob Hb Hint). cbn in Hobj. congruence.
  - apply lookupInterned_Some in Hc as (m & Hm & Hn). rewrite Hm, Hn.
    destruct h; reflexivity.
Qed.

Lemma PeerAddress_miss h a oa :
  objects h !! a = Some oa -> interned oa = false ->
  lookupInterned h (fabricIndex oa) (nodeId oa) = None ->
  PeerAddress a h
  = Some (fresh (dom (objects h)), filed h (fabricIndex oa) (nodeId oa)).
Proof.
  intros Ha Hint Hnone. unfold PeerAddress, filed, lookupInterned in *.
  rewrite Ha. cbn. rewrite Hint.
  destruct (internedAddresses h !! fabricIndex oa) as [m|] eqn:Hm; cbn in *.
  - rewrite Hnone. reflexivity.
  - rewrite lookup_empty, insert_insert_eq. reflexivity.
Qed.

Lemma lookupInterned_filed h f n f' n' :
  lookupInterned (filed h f n) f' n'
  = if decide (f' = f ∧ n' = n) then Some (fresh (dom (objects h)))
    else lookupInterned h f' n'.
Proof.
  unfold lookupInterned, filed. cbn.
  destruct (decide (f' = f)) as [->|Hf].
  - rewrite lookup_insert_eq. cbn. destruct (decide (n' = n)) as [->|Hn].
    + rewrite lookup_insert_eq. by rewrite decide_True.
    + rewrite lookup_insert_ne by done. rewrite decide_False by (intros [_ ?]; done).
      destruct (internedAddresses h !! f); cbn; [done | apply lookup_empty].
  - rewrite lookup_insert_ne by done. by rewrite decide_False by (intros [? _]; done).
Qed.

Lemma filed_wf h f n :
  wf h -> lookupInterned h f n = None -> wf (filed h f n).
Proof.
  intros [Htab Hobj] Hnone. pose proof (fresh_unused h) as Hfresh.
  split.
  - intros f' m' Hm' n' r' Hr'.
    assert (Hl : lookupInterned (filed h f n) f' n' = Some r').
    { apply lookupInterned_Some. eauto. }
    rewrite lookupInterned_filed in Hl. unfold filed; cbn.
    destruct (decide (f' = f ∧ n' = n)) as [[-> ->]|Hne].
    + injection Hl as <-. by rewrite lookup_insert_eq.
    + apply lookupInterned_Some in Hl as (m & Hm & Hr).
      specialize (Htab f' m Hm n' r' Hr). cbn in Htab.
      rewrite lookup_insert_ne; [done | congruence].
  - intros r o Hr Hint. rewrite lookupInterned_filed.
    unfold filed in Hr; cbn in Hr.
    apply lookup_insert_Some in Hr as [[<- <-] | [Hne Hr]]; cbn.
    + by rewrite decide_True.
    + specialize (Hobj r o Hr Hint). cbn in Hobj.
      rewrite decide_False; [done|]. intros [E1 E2]. congruence.
Qed.

Lemma filed_extends h f n :
  lookupInterned h f n = None -> extends h (filed h f n).
Proof.
  intros Hnone. pose proof (fresh_unused h) as Hfresh. split.
  - intros r o Hr. unfold filed; cbn. rewrite lookup_insert_ne; [done | congruence].
  - intros f' n' r Hr. rewrite lookupInterned_filed.
    rewrite decide_False; [done|]. intros [-> ->]. congruence.
Qed.

(** The first call for a key files a canonical object for its fields. *)
Lemma PeerAddress_files h a oa :
  wf h -> objects h !! a = Some oa ->
  exists c h',
    PeerAddress a h = Some (c, h') /\
    lookupInterned h' (fabricIndex oa) (nodeId oa) = Some c /\
    wf h' /\ extends h h'.
Proof.
  intros Hwf Ha.
  destruct (lookupInterned h (fabricIndex oa) (nodeId oa)) as [c|] eqn:Hc.
  { exists c, h. eauto using PeerAddress_hit, extends_refl. }
  assert (Hint : interned oa = false).
  { destruct Hwf as [_ Hobj]. destruct (interned oa) eqn:E; [|done].
    specialize (Hobj a oa Ha E). cbn in Hobj. congruence. }
  eexists _, _. split; [apply (PeerAddress_miss h a oa Ha Hint Hc)|].
  split; [|split].
  - rewrite lookupInterned_filed. by rewrite decide_True.
  - by apply filed_wf.
  - by apply filed_extends.
Qed.

Lemma perform_keeps h op : wf h -> wf (perform h op) /\ extends h (perform h op).
Proof.
  intros Hwf. destruct op as [f n | address]; cbn [perform].
  - split; [by apply literal_wf | apply literal_extends].
  - destruct (objects h !! address) as [o|] eqn:Ho.
    + destruct (PeerAddress_files h address o Hwf Ho) as (c & h' & -> & _ & ? & ?). done.
    + unfold PeerAddress. rewrite Ho. cbn. split; [done | apply extends_refl].
Qed.

Lemma later_keeps ops : forall h, wf h -> wf (later ops h) /\ extends h (later ops h).
Proof.
  induction ops as [|op ops IH]; intros h Hwf; cbn.
  - split; [done | apply extends_refl].
  - destruct (perform_keeps h op Hwf) as [Hwf' Hext].
    destruct (IH _ Hwf') as [? ?]. split; [done|]. eapply extends_trans; eauto.
Qed.

(** Every heap built from the empty one by literals and interning calls
    satisfies the invariant. *)
Lemma built_heaps_are_wf ops : wf (later ops empty).
Proof. apply later_keeps, wf_empty. Qed.

Example intern_two_literals :
  let '(a, h1) := literal 1 5 empty in
  let '(b, h2) := literal 1 5 h1 in
  a <> b /\
  (PeerAddress a h2 ≫= λ '(ca, h3),
     PeerAddress b h3 ≫= λ '(cb, _), Some (ca, cb))
  = Some (3%positive, 3%positive).
Proof. vm_compute. split; [discriminate | reflexivity]. Qed.

(** C7. Interning is canonical and idempotent.  In a heap where only table
    entries carry the marker, the first call for an address files (or
    finds) its canonical object [c]; from then on, whatever literals are
    created and interned in between, every object with the same fabric
    index and node id interns to the identical [c] without changing the
    heap, [c] interns to itself, and the four PeerAddressMap methods called
    with any such key act on the entry of [c]. *)
Theorem interning_canonical (h : Heap) (a : Ref) (oa : AddressObject) :
  wf h -> objects h !! a = Some oa ->
  exists c h1,
    PeerAddress a h = Some (c, h1) /\
    objects h1 !! c
    = Some {| fabricIndex := fabricIndex oa; nodeId := nodeId oa; interned := true |} /\
    forall ops,
      let h2 := later ops h1 in
      PeerAddress c h2 = Some (c, h2) /\
      forall b ob,
        objects h2 !! b = Some ob ->
        fabricIndex ob = fabricIndex oa -> nodeId ob = nodeId oa ->
        PeerAddress b h2 = Some (c, h2) /\
        forall (T : Type) (m : gmap Ref T) (v : T),
          PeerAddressMap.get b m h2 = Some (m !! c, h2) /\
          PeerAddressMap.has b m h2 = Some (bool_decide (is_Some (m !! c)), h2) /\
          PeerAddressMap.set b v m h2 = Some (<[c := v]> m, h2) /\
          PeerAddressMap.delete b m h2
          = Some (bool_decide (is_Some (m !! c)), base.delete c m, h2).
Proof.
  intros Hwf Ha.
  destruct (PeerAddress_files h a oa Hwf Ha) as (c & h1 & Hcall & Hfiled & Hwf1 & Hext).
  exists c, h1. split; [exact Hcall|].
  assert (Hc : objects h1 !! c
               = Some {| fabricIndex := fabricIndex oa; nodeId := nodeId oa; interned := true |}).
  { destruct Hwf1 as [Htab _]. apply lookupInterned_Some in Hfiled as (m & Hm & Hn).
    apply (Htab _ _ Hm _ _ Hn). }
  split; [exact Hc|]. intros ops h2.
  destruct (later_keeps ops h1 Hwf1) as [Hwf2 [Hobjs Htable]]. fold h2 in Hwf2, Hobjs, Htable.
  assert (Hhit : forall b ob, objects h2 !! b = Some ob ->
             fabricIndex ob = fabricIndex oa -> nodeId ob = nodeId oa ->
             PeerAddress b h2 = Some (c, h2)).
  { intros b ob Hb Hf Hn. apply (PeerAddress_hit h2 b ob c Hwf2 Hb).
    rewrite Hf, Hn. by apply Htable. }
  split; [by apply (Hhit c _ (Hobjs _ _ Hc))|].
  intros b ob Hb Hf Hn. specialize (Hhit b ob Hb Hf Hn).
  split; [exact Hhit|]. intros T m v.
  unfold PeerAddressMap.get, PeerAddressMap.has, PeerAddressMap.set, PeerAddressMap.delete.
  rewrite Hhit. cbn. done.
Qed.

Lemma interning_canonical_witness :
  let h := (literal 1 5 (literal 1 5 empty).2).2 in
  let a := 1%positive in
  let oa := {| fabricIndex := 1; nodeId := 5; interned := false |} in
  wf h /\ objects h !! a = Some oa /\
  exists c h1,
    PeerAddress a h = Some (c, h1) /\
    objects h1 !! c
    = Some {| fabricIndex := fabricIndex oa; nodeId := nodeId oa; interned := true |} /\
    forall ops,
      let h2 := later ops h1 in
      PeerAddress c h2 = Some (c, h2) /\
      forall b ob,
        objects h2 !! b = Some ob ->
        fabricIndex ob = fabricIndex oa -> nodeId ob = nodeId oa ->
        PeerAddress b h2 = Some (c, h2) /\
        forall (T : Type) (m : gmap Ref T) (v : T),
          PeerAddressMap.get b m h2 = Some (m !! c, h2) /\
          PeerAddressMap.has b m h2 = Some (bool_decide (is_Some (m !! c)), h2) /\
          PeerAddressMap.set b v m h2 = Some (<[c := v]> m, h2) /\
          PeerAddressMap.delete b m h2
          = Some (bool_decide (is_Some (m !! c)), base.delete c m, h2).
Proof.
  cbn zeta.
  assert (Hwf : wf (literal 1 5 (literal 1 5 empty).2).2).
  { apply (bool_decide_unpack _). vm_compute. reflexivity. }
  assert (Ha : objects (literal 1 5 (literal 1 5 empty).2).2 !! 1%positive
               = Some {| fabricIndex := 1; nodeId := 5; interned := false |}).
  { vm_compute. reflexivity. }
  split; [exact Hwf|]. split; [exact Ha|].
  exact (interning_canonical _ _ _ Hwf Ha).
Defined.


(** *** Canonical objects tell addresses apart *)

Lemma filed_object h f n c :
  wf h -> lookupInterned h f n = Some c ->
  objects h !! c = Some {| fabricIndex := f; nodeId := n; interned := true |}.
Proof.
  intros [Htab _] Hc. apply lookupInterned_Some in Hc as (m & Hm & Hn).
  apply (Htab _ _ Hm _ _ Hn).
Qed.

(** X7. Interning is injective and copies.  When two objects are interned
    one after the other and the results are the identical object, the two
    have the same fabric index and the same node id.  An object that does
    not carry the marker is never returned itself and is left as it is:
    the canonical object is another one. *)
Theorem interning_tells_addresses_apart (h : Heap) (a b : Ref) (oa ob : AddressObject) :
  wf h -> objects h !! a = Some oa -> objects h !! b = Some ob ->
  exists ca h1 cb h2,
    PeerAddress a h = Some (ca, h1) /\ PeerAddress b h1 = Some (cb, h2) /\
    (ca = cb -> fabricIndex oa = fabricIndex ob /\ nodeId oa = nodeId ob) /\
    (interned oa = false -> ca <> a /\ objects h2 !! a = Some oa).
Proof.
  intros Hwf Ha Hb.
  destruct (PeerAddress_files h a oa Hwf Ha) as (ca & h1 & Hcalla & Hfileda & Hwf1 & Hext1).
  pose proof (proj1 Hext1 _ _ Hb) as Hb1.
  destruct (PeerAddress_files h1 b ob Hwf1 Hb1) as (cb & h2 & Hcallb & Hfiledb & Hwf2 & Hext2).
  exists ca, h1, cb, h2. split; [exact Hcalla|]. split; [exact Hcallb|].
  pose proof (filed_object h2 _ _ ca Hwf2 (proj2 Hext2 _ _ _ Hfileda)) as Hoa.
  pose proof (filed_object h2 _ _ cb Hwf2 Hfiledb) as Hob.
  split.
  - intros <-. rewrite Hoa in Hob. by injection Hob.
  - intros Hplain.
    pose proof (proj1 Hext2 _ _ (proj1 Hext1 _ _ Ha)) as Ha2.
    split; [|exact Ha2]. intros ->. rewrite Hoa in Ha2. injection Ha2 as E.
    rewrite <- E in Hplain. discriminate.
Qed.

Lemma interning_tells_addresses_apart_witness :
  let h := (literal 2 5 (literal 1 5 empty).2).2 in
  exists ca h1 cb h2,
    PeerAddress 1%positive h = Some (ca, h1) /\ PeerAddress 2%positive h1 = Some (cb, h2) /\
    (ca = cb -> 1%N = 2%N /\ 5%N = 5%N) /\
    (false = false -> ca <> 1%positive /\
       objects h2 !! 1%positive
       = Some {| fabricIndex := 1; nodeId := 5; interned := false |}).
Proof.
  cbn zeta.
  refine (interning_tells_addresses_apart (literal 2 5 (literal 1 5 empty).2).2
            1%positive 2%positive
            {| fabricIndex := 1; nodeId := 5; interned := false |}
            {| fabricIndex := 2; nodeId := 5; interned := false |} _ _ _).
  - apply (bool_decide_unpack _). vm_compute. reflexivity.
  - vm_compute. reflexivity.
  - vm_compute. reflexivity.
Defined.

(** X8. A PeerAddressMap is keyed by the address, not by the object.  In a
    map, a value set under one object is found under every object with
    the same fabric index and node id, and deleting under any of them
    removes it for all; the entry of an object with another fabric index
    or node id is the same before and after the set. *)
Theorem PeerAddressMap_round_trip (T : Type) (h : Heap) (a b d : Ref)
  (oa ob od : AddressObject) (m : gmap Ref T) (v : T) :
  wf h -> objects h !! a = Some oa -> objects h !! b = Some ob ->
  objects h !! d = Some od ->
  fabricIndex ob = fabricIndex oa -> nodeId ob = nodeId oa ->
  (fabricIndex od, nodeId od) <> (fabricIndex oa, nodeId oa) ->
  exists m1 h1,
    PeerAddressMap.set a v m h = Some (m1, h1) /\
    PeerAddressMap.get b m1 h1 = Some (Some v, h1) /\
    PeerAddressMap.has b m1 h1 = Some (true, h1) /\
    (exists m2,
        PeerAddressMap.delete b m1 h1 = Some (true, m2, h1) /\
        PeerAddressMap.has a m2 h1 = Some (false, h1)) /\
    (exists before after h2,
        PeerAddressMap.get d m h1 = Some (before, h2) /\
        PeerAddressMap.get d m1 h1 = Some (after, h2) /\
        before = after).
Proof.
  intros Hwf Ha Hb Hd Hf Hn Hne.
  destruct (PeerAddress_files h a oa Hwf Ha) as (c & h1 & Hcall & Hfiled & Hwf1 & Hext1).
  pose proof (proj1 Hext1 _ _ Ha) as Ha1. pose proof (proj1 Hext1 _ _ Hb) as Hb1.
  pose proof (proj1 Hext1 _ _ Hd) as Hd1.
  assert (Hhita : PeerAddress a h1 = Some (c, h1)).
  { by apply (PeerAddress_hit h1 a oa c). }
  assert (Hhitb : PeerAddress b h1 = Some (c, h1)).
  { apply (PeerAddress_hit h1 b ob c); [done | done | by rewrite Hf, Hn]. }
  destruct (PeerAddress_files h1 d od Hwf1 Hd1) as (cd & h2 & Hcalld & Hfiledd & Hwf2 & Hext2).
  assert (Hcd : cd <> c).
  { intros ->. pose proof (filed_object h2 _ _ c Hwf2 Hfiledd) as H1.
    pose proof (filed_object h2 _ _ c Hwf2 (proj2 Hext2 _ _ _ Hfiled)) as H2.
    rewrite H1 in H2. injection H2 as E1 E2. apply Hne. by rewrite E1, E2. }
  exists (<[c := v]> m), h1.
  unfold PeerAddressMap.set, PeerAddressMap.get, PeerAddressMap.has, PeerAddressMap.delete.
  rewrite Hcall, Hhita, Hhitb, Hcalld. cbn.
  rewrite lookup_insert_eq.
  split; [reflexivity|]. split; [reflexivity|].
  split; [by rewrite bool_decide_eq_true_2 by eauto|]. split.
  - eexists. rewrite bool_decide_eq_true_2 by eauto. split; [reflexivity|].
    rewrite lookup_delete_eq. rewrite bool_decide_eq_false_2; [reflexivity|].
    by intros [? [=]].
  - eexists _, _, _. split; [reflexivity|]. split; [reflexivity|].
    by rewrite lookup_insert_ne.
Qed.

Lemma PeerAddressMap_round_trip_witness :
  let h := (literal 2 5 (literal 1 5 (literal 1 5 empty).2).2).2 in
  exists m1 h1,
    PeerAddressMap.set 1%positive "lamp" ∅ h = Some (m1, h1) /\
    PeerAddressMap.get 2%positive m1 h1 = Some (Some "lamp", h1) /\
    PeerAddressMap.has 2%positive m1 h1 = Some (true, h1) /\
    (exists m2,
        PeerAddressMap.delete 2%positive m1 h1 = Some (true, m2, h1) /\
        PeerAddressMap.has 1%positive m2 h1 = Some (false, h1)) /\
    (exists before after h2,
        PeerAddressMap.get 3%positive (∅ : gmap Ref string) h1 = Some (before, h2) /\
        PeerAddressMap.get 3%positive m1 h1 = Some (after, h2) /\
        before = after).
Proof.
  cbn zeta.
  refine (PeerAddressMap_round_trip string
            (literal 2 5 (literal 1 5 (literal 1 5 empty).2).2).2
            1%positive 2%positive 3%positive
            {| fabricIndex := 1; nodeId := 5; interned := false |}
            {| fabricIndex := 1; nodeId := 5; interned := false |}
            {| fabricIndex := 2; nodeId := 5; interned := false |}
            ∅ "lamp" _ _ _ _ _ _ _).
  - apply (bool_decide_unpack _). vm_compute. reflexivity.
  - vm_compute. reflexivity.
  - vm_compute. reflexivity.
  - vm_compute. reflexivity.
  - reflexivity.
  - reflexivity.
  - discriminate.
Defined.

End InterningSpec.

(** ** Peer set *)

Module PeerSetSpec.
Import PeerSet.
Local Open Scope peerset_scope.

(** *** Relations maintained by every step of a computation *)

Section Preserves.

Variable R : State -> State -> Prop.
Hypothesis R_refl : forall s, R s s.
Hypothesis R_trans : forall s1 s2 s3, R s1 s2 -> R s2 s3 -> R s1 s3.

Lemma preserves_ret {A} (a : A) : preserves R (ret a).
Proof. intros s. apply R_refl. Qed.

Lemma preserves_throw {A} (e : Error) : preserves R (@throw A e).
Proof. intros s. apply R_refl. Qed.

Lemma preserves_gets {A} (f : State -> A) : preserves R (gets f).
Proof. intros s. apply R_refl. Qed.

Lemma preserves_modify (f : State -> State) :
  (forall s, R s (f s)) -> preserves R (modify f).
Proof. intros H s. apply H. Qed.

Lemma preserves_bind {A B} (m : M A) (k : A -> M B) :
  preserves R m -> (forall a, preserves R (k a)) -> preserves R (bind m k).
Proof.
  intros Hm Hk s. unfold bind. specialize (Hm s).
  destruct (m s) as [[a|e] s']; cbn in *; [|exact Hm].
  eapply R_trans; [exact Hm | apply Hk].
Qed.

Lemma preserves_tryCatch {A} (m : M A) (h : Error -> M A) :
  preserves R m -> (forall e, preserves R (h e)) -> preserves R (tryCatch m h).
Proof.
  intros Hm Hh s. unfold tryCatch. specialize (Hm s).
  destruct (m s) as [[a|e] s']; cbn in *; [exact Hm|].
  eapply R_trans; [exact Hm | apply Hh].
Qed.

End Preserves.

Lemma preserves_run (R : State -> State -> Prop) {A} (m : M A) s x s' :
  preserves R m -> m s = (x, s') -> R s s'.
Proof. intros H E. specialize (H s). by rewrite E in H. Qed.

Lemma untouched_refl s : untouched s s.
Proof. repeat split; auto. exists []. by rewrite app_nil_r. Qed.

Lemma untouched_trans s1 s2 s3 : untouched s1 s2 -> untouched s2 s3 -> untouched s1 s3.
Proof.
  intros (A1 & B1 & [l1 C1] & D1) (A2 & B2 & [l2 C2] & D2).
  repeat split; try congruence; [|lia].
  exists (app l1 l2). rewrite C2, C1. by rewrite app_assoc.
Qed.

Lemma sameCache_refl s : sameCache s s.
Proof. reflexivity. Qed.

Lemma sameCache_trans s1 s2 s3 : sameCache s1 s2 -> sameCache s2 s3 -> sameCache s1 s3.
Proof. unfold sameCache. congruence. Qed.

(** Decomposes a goal [preserves R m] along the structure of [m]; the
    arguments are the proofs that [R] is a preorder and a tactic for the
    steps that write the state. *)
Ltac preserve Rrefl Rtrans leaf :=
  repeat first
    [ solve [auto]
    | apply (preserves_ret _ Rrefl)
    | apply (preserves_throw _ Rrefl)
    | apply (preserves_gets _ Rrefl)
    | apply (preserves_bind _ Rtrans); [|intros ?]
    | apply (preserves_tryCatch _ Rtrans); [|intros ?]
    | match goal with
      | |- preserves _ (match ?x with _ => _ end) => destruct x
      | |- preserves _ (if ?b then _ else _) => destruct b
      end
    | progress leaf ].

Ltac unfold_with :=
  unfold withPeers, withPeersByAddress, withRunningPeerDiscoveries, withNodeCachedData,
    withPeerObjects, withNextId, withChannels, withNodeSessions, withResumptionRecords,
    withStore, withMdnsScanner, withCalls in *.

Ltac untouched_leaf :=
  first
    [ solve [auto]
    | solve [ intros ?; cbv [modify record call PeerSet.fresh openChannel casePair];
              repeat case_match; unfold_with; unfold untouched; cbn;
              repeat split;
              first [ done | lia | by eexists | by (exists []; rewrite app_nil_r) ] ] ].

Ltac sameCache_leaf :=
  first
    [ solve [auto]
    | solve [ intros ?; cbv [modify record call PeerSet.fresh openChannel casePair];
              repeat case_match; unfold_with; unfold sameCache; reflexivity ] ].

Ltac untouched_op := cbv zeta; preserve untouched_refl untouched_trans untouched_leaf.
Ltac sameCache_op := cbv zeta; preserve sameCache_refl sameCache_trans sameCache_leaf.

Section Frames.

Variable world : World.
Variable inherits : ErrorClass -> ErrorClass -> bool.
Variable isIPv6 : string -> bool.

Lemma untouched_removeAllSessionsForNode a b :
  preserves untouched (removeAllSessionsForNode world a b).
Proof. unfold removeAllSessionsForNode. untouched_op. Qed.

Lemma untouched_addOrUpdatePeer a known data :
  preserves untouched (addOrUpdatePeer world a known data).
Proof. unfold addOrUpdatePeer, addPeer, updatePeer. untouched_op. Qed.

Lemma untouched_pair a known data expected :
  preserves untouched (pair world inherits isIPv6 a known data expected).
Proof.
  unfold pair, establishSecureSession, createInsecureSession,
    initiateExchangeWithChannel, exchangeClose, sessionDestroy, setChannel.
  untouched_op.
Qed.

Lemma untouched_reconnectKnownAddress a known data expected :
  preserves untouched (reconnectKnownAddress world inherits isIPv6 a known data expected).
Proof.
  pose proof untouched_pair. pose proof untouched_addOrUpdatePeer.
  pose proof untouched_removeAllSessionsForNode.
  unfold reconnectKnownAddress. untouched_op.
Qed.

Lemma sameCache_removeAllSessionsForNode a b :
  preserves sameCache (removeAllSessionsForNode world a b).
Proof. unfold removeAllSessionsForNode. sameCache_op. Qed.

Lemma sameCache_addOrUpdatePeer a known data :
  preserves sameCache (addOrUpdatePeer world a known data).
Proof. unfold addOrUpdatePeer, addPeer, updatePeer. sameCache_op. Qed.

End Frames.

(** *** The operational address cache *)

Lemma sameEndpoint_spec x y :
  sameEndpoint x y = true <-> ip x = ip y /\ port x = port y.
Proof.
  unfold sameEndpoint. rewrite andb_true_iff, String.eqb_eq, N.eqb_eq. reflexivity.
Qed.

Lemma emptied_record (a : PeerAddress) (s : State) addresses :
  (mdnsScanner s ≫= λ records, records !! a) = Some addresses ->
  (mdnsScanner (withMdnsScanner (fmap <[a := []]>) s) ≫= λ records, records !! a)
  = Some [].
Proof.
  unfold withMdnsScanner; cbn. destruct (mdnsScanner s) as [records|]; cbn; [|done].
  intros _. apply lookup_insert_eq.
Qed.

Example known_address_is_first_discovered :
  let s := withMdnsScanner (λ _, Some {[ Samples.peer_1_5 :=
               [ {| ip := "2001:db8::2"; port := 5540 |}; Samples.endpoint ] ]})
             PeerSet.initial in
  (knownOperationalAddressFor Samples.peer_1_5 s).1
  = Returned (Some {| ip := "2001:db8::2"; port := 5540 |}).
Proof. vm_compute. reflexivity. Qed.

Example just_failed_address_is_dropped :
  let s := withMdnsScanner (λ _, Some {[ Samples.peer_1_5 :=
               [ {| ip := "2001:db8::2"; port := 5540 |}; Samples.endpoint ] ]})
             Samples.connected in
  let r := knownOperationalAddressFor Samples.peer_1_5 s in
  r.1 = Returned None /\
  (mdnsScanner r.2 ≫= λ records, records !! Samples.peer_1_5) = Some [].
Proof. vm_compute. split; reflexivity. Qed.

(** C10. When the last known operational address of the peer has the ip and
    port of some address in the scanner's record for the peer,
    #knownOperationalAddressFor empties the address list of that record and
    returns undefined; otherwise it changes nothing and returns the first
    address of the record, or undefined when there is no record (or no
    address in it). *)
Theorem knownOperationalAddressFor_cases (a : PeerAddress) (s : State) :
  let lastKnown := peersByAddress s !! a ≫= λ r, peerObjects s !! r ≫= operationalAddress in
  let discovered := mdnsScanner s ≫= λ records, records !! a in
  (forall last addresses x,
      lastKnown = Some last -> discovered = Some addresses ->
      x ∈ addresses -> ip x = ip last -> port x = port last ->
      let s' := withMdnsScanner (fmap <[a := []]>) s in
      knownOperationalAddressFor a s = (Returned None, s') /\
      (mdnsScanner s' ≫= λ records, records !! a) = Some []) /\
  ((forall last addresses x,
       lastKnown = Some last -> discovered = Some addresses ->
       x ∈ addresses -> ~ (ip x = ip last /\ port x = port last)) ->
   knownOperationalAddressFor a s = (Returned (discovered ≫= head), s)).
Proof.
  cbn zeta. split.
  - intros last addresses x Hlast Hdisc Hx Hip Hport.
    pose proof (emptied_record a s addresses Hdisc) as Hemptied.
    split; [|exact Hemptied].
    unfold knownOperationalAddressFor, getDiscoveredOperationalDevice,
      getLastOperationalAddress, bind, gets, modify, ret.
    rewrite Hlast, Hdisc.
    assert (Hex : existsb (λ y, sameEndpoint y last) addresses = true).
    { apply existsb_exists. exists x. split; [by apply list_elem_of_In|].
      by apply sameEndpoint_spec. }
    rewrite Hex, Hemptied. reflexivity.
  - intros Hnone.
    unfold knownOperationalAddressFor, getDiscoveredOperationalDevice,
      getLastOperationalAddress, bind, gets, modify, ret.
    destruct (mdnsScanner s ≫= _) as [addresses|] eqn:Hdisc;
      destruct (peersByAddress s !! a ≫= _) as [last|] eqn:Hlast;
      rewrite ?Hdisc; try reflexivity.
    destruct (existsb _ addresses) eqn:Hex; rewrite ?Hdisc; [|reflexivity].
    apply existsb_exists in Hex as (x & Hx & Hsame).
    apply sameEndpoint_spec in Hsame. apply list_elem_of_In in Hx.
    destruct (Hnone last addresses x eq_refl eq_refl Hx Hsame).
Qed.

Lemma knownOperationalAddressFor_cases_witness :
  let a := Samples.peer_1_5 in
  let s := withMdnsScanner (λ _, Some {[ Samples.peer_1_5 :=
               [ {| ip := "2001:db8::2"; port := 5540 |}; Samples.endpoint ] ]})
             Samples.connected in
  let s' := withMdnsScanner (fmap <[a := []]>) s in
  knownOperationalAddressFor a s = (Returned None, s') /\
  (mdnsScanner s' ≫= λ records, records !! a) = Some [].
Proof.
  cbn zeta.
  refine (proj1 (knownOperationalAddressFor_cases _ _) Samples.endpoint
            [ {| ip := "2001:db8::2"; port := 5540 |}; Samples.endpoint ]
            Samples.endpoint _ _ _ _ _).
  - vm_compute. reflexivity.
  - vm_compute. reflexivity.
  - apply list_elem_of_In. simpl. auto.
  - reflexivity.
  - reflexivity.
Defined.

(** *** Forgetting a peer *)

Section Delete.

Variable world : World.

(** delete on an address or a peer that is not filed is a silent no-op. *)
Lemma delete_unknown (peer : Item) (s : State) :
  (get peer s).1 = Returned None -> delete world peer s = (Returned tt, s).
Proof.
  unfold delete, bind. destruct (get peer s) as [[[[r o]|]|e] s'] eqn:Hget;
    cbn; try discriminate.
  intros _. unfold get, gets in Hget. by injection Hget as _ <-.
Qed.

(** Whatever the collaborators answer, delete for a filed peer removes it
    from the set and the index first, so that the disconnect step finds
    no peer: no session and no channel is ever removed, and the only
    calls made are those to the store and, if the store did not fail, for
    the resumption record. *)
Lemma delete_never_disconnects (peer : Item) (s : State) r o :
  indexed s -> (get peer s).1 = Returned (Some (r, o)) ->
  let s' := (delete world peer s).2 in
  (delete world peer s).1
  = match rejects world (calls s) (DeletePeer (address o)) with
    | Some e => Threw e
    | None =>
        match rejects world (app (calls s) [DeletePeer (address o)])
                (DeleteResumptionRecord (address o)) with
        | Some e => Threw e
        | None => Returned tt
        end
    end /\
  peersByAddress s' !! address o = None /\
  channels s' = channels s /\ nodeSessions s' = nodeSessions s /\
  (calls s' = app (calls s) [DeletePeer (address o)] \/
   calls s' = app (calls s) [DeletePeer (address o); DeleteResumptionRecord (address o)]).
Proof.
  intros Hidx Hget. cbn zeta.
  assert (Hfiled : r ∈ peers s).
  { unfold get, gets in Hget. cbn in Hget.
    destruct (peersByAddress s !! _) as [r'|] eqn:Hr; cbn in Hget; [|discriminate].
    destruct (peerObjects s !! r') as [o'|] eqn:Ho; cbn in Hget; [|discriminate].
    injection Hget as -> ->. by destruct (Hidx _ _ Hr). }
  unfold delete, bind at 1. unfold get, gets in *. cbn in Hget. cbn.
  injection Hget as ->.
  unfold deleteFromPeers, bind, gets, modify, ret. cbn.
  rewrite (bool_decide_eq_true_2 _ Hfiled). cbn.
  unfold deletePeer, call, bind, modify. cbn.
  destruct (rejects world (calls s) (DeletePeer (address o))) as [e|]; cbn.
  { rewrite lookup_delete_eq. auto 6. }
  unfold disconnect, bind, get, gets. cbn. rewrite lookup_delete_eq. cbn.
  unfold deleteResumptionRecord, call, bind, modify, ret. cbn.
  destruct (rejects world _ (DeleteResumptionRecord (address o))) as [e|]; cbn;
    rewrite lookup_delete_eq, <- app_assoc; cbn; auto 6.
Qed.

End Delete.

(** C6 (the code departs from the claim). Deleting the known peer of
    [Samples.connected], with collaborators that never fail: the peer is no
    longer filed, its stored record and its resumption record are gone, but
    its session and its channel are still there, and neither
    removeAllSessionsForNode nor removeAllNodeChannels was called. *)
Theorem delete_keeps_sessions_and_channels :
  let p := Samples.peer_1_5 in
  let r := delete (Samples.answering false) (ByAddress p) Samples.connected in
  r.1 = Returned tt /\
  (get (ByAddress p) r.2).1 = Returned None /\
  store r.2 !! p = None /\
  resumptionRecords r.2 !! p = None /\
  channels r.2 !! p = channels Samples.connected !! p /\
  is_Some (channels r.2 !! p) /\
  nodeSessions r.2 !! p = nodeSessions Samples.connected !! p /\
  is_Some (nodeSessions r.2 !! p) /\
  calls r.2 = [DeletePeer p; DeleteResumptionRecord p].
Proof. vm_compute. repeat split; eauto. Qed.

(** *** Discovery orchestration *)

Lemma value_nonnegative x : (0 <= NodeDiscoveryType.value x)%Z.
Proof. destruct x; cbn; lia. Qed.

Lemma accepted_checks o :
  accepted o ->
  bool_decide (is_Some (timeoutSeconds o))
  && negb (bool_decide (requestedType o = NodeDiscoveryType.TimedDiscovery)) = false /\
  bool_decide (requestedType o = NodeDiscoveryType.RetransmissionDiscovery) = false.
Proof.
  intros [Htimeout Hretransmission]. split.
  - destruct (bool_decide (is_Some (timeoutSeconds o))) eqn:E; [|done].
    apply bool_decide_eq_true in E. cbn. by rewrite (bool_decide_eq_true_2 _ (Htimeout E)).
  - by apply bool_decide_eq_false.
Qed.

Section Orchestrator.

Variable world : World.
Variable inherits : ErrorClass -> ErrorClass -> bool.
Variable isIPv6 : string -> bool.

Lemma cancelLowerDiscovery_lower a requested s d :
  runningPeerDiscoveries s !! a = Some d ->
  type d <> NodeDiscoveryType.None ->
  (NodeDiscoveryType.value (type d) < NodeDiscoveryType.value requested)%Z ->
  cancelLowerDiscovery a requested s
  = (Returned {| type := NodeDiscoveryType.None; promises := promises d;
                 timer := timer d |},
     cancelled a s).
Proof.
  intros Hrun Hnn Hlt. unfold cancelLowerDiscovery, bind, gets. rewrite Hrun. cbn.
  rewrite (bool_decide_eq_false_2 _ Hnn). cbn.
  rewrite (proj2 (Z.ltb_lt _ _) Hlt). reflexivity.
Qed.

Lemma cancelLowerDiscovery_keep a requested s :
  (forall d, runningPeerDiscoveries s !! a = Some d ->
             type d = NodeDiscoveryType.None \/
             (NodeDiscoveryType.value requested <= NodeDiscoveryType.value (type d))%Z) ->
  cancelLowerDiscovery a requested s
  = (Returned (default {| type := NodeDiscoveryType.None; promises := None;
                          timer := None |}
                 (runningPeerDiscoveries s !! a)), s).
Proof.
  intros Hkeep. unfold cancelLowerDiscovery, bind, gets.
  destruct (runningPeerDiscoveries s !! a) as [d|]; cbn; [|reflexivity].
  destruct (Hkeep d eq_refl) as [Hnone | Hle].
  - by rewrite (bool_decide_eq_true_2 _ Hnone).
  - rewrite (proj2 (Z.ltb_ge _ _) Hle), andb_false_r. reflexivity.
Qed.

Lemma cancelLowerDiscovery_keep_running a requested s d :
  runningPeerDiscoveries s !! a = Some d ->
  type d = NodeDiscoveryType.None \/
  (NodeDiscoveryType.value requested <= NodeDiscoveryType.value (type d))%Z ->
  cancelLowerDiscovery a requested s = (Returned d, s).
Proof.
  intros Hrun Hkeep. rewrite cancelLowerDiscovery_keep; [by rewrite Hrun|].
  intros d' Hd'. rewrite Hrun in Hd'. by injection Hd' as <-.
Qed.

(** With accepted options and a scanner, the orchestrator is its three
    steps in a row. *)
Lemma orchestrate_accepted a known o s :
  accepted o -> is_Some (mdnsScanner s) ->
  connectOrDiscoverNode world inherits isIPv6 a known o s
  = bind (cancelLowerDiscovery a (requestedType o)) (λ existing,
      bind (reachDirectly world inherits isIPv6 a known (requestedType o)
              (type existing) (discoveryDataOf a o s))
        (λ direct,
           match direct with
           | Some messageChannel => ret (Resolved messageChannel)
           | None =>
               reuseOrStartDiscovery a known (requestedType o) (timeoutSeconds o)
                 (discoveryDataOf a o s) existing
           end)) s.
Proof.
  intros Hacc [records Hscan]. destruct (accepted_checks o Hacc) as [Hc1 Hc2].
  unfold connectOrDiscoverNode. cbv zeta. unfold bind at 1, gets at 1.
  rewrite Hc1, Hc2. unfold bind at 1, gets at 1. rewrite Hscan. reflexivity.
Qed.

(** A discovery that is started registers itself under the address, with
    new closures as producers, the last of which is the mDNS producer
    for the requested timeout; the producers are called, so that the
    scan is started last, and the caller awaits them. *)
Lemma startDiscovery_starts a known requested timeout data s :
  exists running polling s',
    startDiscovery a known requested timeout data s
    = (Returned (AnyPromise running true), s') /\
    runningPeerDiscoveries s'
    = <[a := {| type := requested; promises := Some running; timer := polling |}]>
        (runningPeerDiscoveries s) /\
    Forall (λ p, nextId s <= producerId p) running /\
    (exists i, last running = Some (MdnsDiscovery i a timeout data)) /\
    (exists l, calls s'
               = app (calls s)
                   (app l [DiscoverOperationalDevice a timeout
                             (bool_decide (timeout = None))])).
Proof.
  unfold startDiscovery.
  destruct known as [operationalAddress|];
    [destruct (decide (requested = NodeDiscoveryType.FullDiscovery))|];
    cbv [bind ret modify record PeerSet.fresh anyPromise produce
           discoverOperationalDevice];
    unfold_with; cbn;
    eexists _, _, _; (split; [reflexivity|]); cbn;
    (split; [reflexivity|]);
    (split; [repeat constructor; cbn; lia|]);
    (split; [eexists; reflexivity|]).
  - eexists [_]. by rewrite <- app_assoc.
  - by exists [].
  - by exists [].
Qed.

(** What the direct reconnection of the orchestrator amounts to. *)
Lemma reachDirectly_skipped a known requested running data s :
  known = None \/
  (running <> NodeDiscoveryType.None /\ requested <> NodeDiscoveryType.None) ->
  reachDirectly world inherits isIPv6 a known requested running data s
  = (Returned None, s).
Proof.
  intros [-> | [Hrun Hreq]]; [reflexivity|]. unfold reachDirectly.
  destruct known; [|reflexivity].
  by rewrite (bool_decide_eq_false_2 _ Hrun), (bool_decide_eq_false_2 _ Hreq).
Qed.

Lemma reachDirectly_tried a operationalAddress requested running data s :
  running = NodeDiscoveryType.None \/ requested = NodeDiscoveryType.None ->
  reachDirectly world inherits isIPv6 a (Some operationalAddress) requested running data s
  = match reconnectKnownAddress world inherits isIPv6 a operationalAddress data None s with
    | (Returned (Some messageChannel), s') => (Returned (Some messageChannel), s')
    | (Returned None, s') =>
        if bool_decide (requested = NodeDiscoveryType.None) then
          (Threw (newError DiscoveryError (toString a ++ " is not reachable right now.")),
           s')
        else (Returned None, s')
    | (Threw e, s') => (Threw e, s')
    end.
Proof.
  intros Hcond. unfold reachDirectly.
  assert (bool_decide (running = NodeDiscoveryType.None)
          || bool_decide (requested = NodeDiscoveryType.None) = true) as ->.
  { destruct Hcond as [H|H]; rewrite (bool_decide_eq_true_2 _ H);
      [reflexivity | apply orb_true_r]. }
  unfold bind.
  destruct (reconnectKnownAddress _ _ _ _ _ _ _ s) as [[[messageChannel|]|e] s'];
    try reflexivity.
  destruct (bool_decide _); reflexivity.
Qed.

(** Calling the producers starts the scans of the mDNS producers among
    them and does nothing else. *)
Lemma anyPromise_produces producers : forall s,
  anyPromise producers s = (Returned tt, produced producers s).
Proof.
  induction producers as [|p rest IH]; intros s.
  - unfold produced; unfold_with. destruct s; cbn. by rewrite app_nil_r.
  - cbn [anyPromise]. unfold bind at 1.
    destruct p as [i b operationalAddress data | i b timeout data]; cbn [produce].
    + exact (IH s).
    + unfold discoverOperationalDevice, record, modify. rewrite IH.
      unfold produced; unfold_with; cbn. by rewrite <- app_assoc.
Qed.

(** C2 (amended). While a discovery with producers runs for an address, an
    accepted request of the same type waits on those producers through
    the any-of combinator: nothing is cancelled or registered and the
    peer set is left as it is, but the combinator calls the producers
    once more, so that every mDNS producer among them starts one more
    scan.  An accepted request of a strictly lower type never waits on
    them.  It is answered with a discovery error and changes nothing,
    except for a request of type None with a known address: that address
    is tried instead, and the result is its channel, the discovery error
    of an address that does not answer, or the error of the attempt. *)
Theorem running_discovery_is_shared_or_refused
  (a : PeerAddress) (known : option ServerAddressIp) (o : DiscoveryOptions)
  (s : State) (d : RunningDiscovery) (running : list Producer) :
  accepted o -> is_Some (mdnsScanner s) ->
  runningPeerDiscoveries s !! a = Some d -> promises d = Some running ->
  type d <> NodeDiscoveryType.None ->
  let result := connectOrDiscoverNode world inherits isIPv6 a known o s in
  (requestedType o = type d ->
     result = (Returned (AnyPromise running false), produced running s)) /\
  ((NodeDiscoveryType.value (requestedType o) < NodeDiscoveryType.value (type d))%Z ->
     (forall producers removes, result.1 <> Returned (AnyPromise producers removes)) /\
     (known = None \/ requestedType o <> NodeDiscoveryType.None ->
        result
        = (Threw (newError DiscoveryError
                    (toString a
                     ++ " is not reachable right now and discovery already running.")),
           s)) /\
     (forall operationalAddress,
        known = Some operationalAddress ->
        requestedType o = NodeDiscoveryType.None ->
        result
        = match reconnectKnownAddress world inherits isIPv6 a operationalAddress
                  (discoveryDataOf a o s) None s with
          | (Returned (Some messageChannel), s') =>
              (Returned (Resolved messageChannel), s')
          | (Returned None, s') =>
              (Threw (newError DiscoveryError
                        (toString a ++ " is not reachable right now.")), s')
          | (Threw e, s') => (Threw e, s')
          end)).
Proof.
  intros Hacc Hscan Hrun Hprom Hnn. cbn zeta.
  rewrite (orchestrate_accepted a known o s Hacc Hscan).
  split.
  - intros Heq. unfold bind at 1.
    rewrite (cancelLowerDiscovery_keep_running _ _ _ d Hrun); cbn.
    2:{ right. rewrite Heq. lia. }
    unfold bind at 1. rewrite reachDirectly_skipped.
    2:{ right. split; [done | congruence]. }
    unfold reuseOrStartDiscovery. rewrite Hprom, Heq, Z.ltb_irrefl.
    unfold bind. by rewrite anyPromise_produces.
  - intros Hlt.
    assert (Hstep : forall s',
              reachDirectly world inherits isIPv6 a known (requestedType o) (type d)
                (discoveryDataOf a o s) s = (Returned None, s') ->
              bind (cancelLowerDiscovery a (requestedType o)) (λ existing,
                bind (reachDirectly world inherits isIPv6 a known (requestedType o)
                        (type existing) (discoveryDataOf a o s))
                  (λ direct,
                     match direct with
                     | Some messageChannel => ret (Resolved messageChannel)
                     | None =>
                         reuseOrStartDiscovery a known (requestedType o)
                           (timeoutSeconds o) (discoveryDataOf a o s) existing
                     end)) s
              = (Threw (newError DiscoveryError
                          (toString a
                           ++ " is not reachable right now and discovery already running.")),
                 s')).
    { intros s' Hdirect. unfold bind at 1.
      rewrite (cancelLowerDiscovery_keep_running _ _ _ d Hrun); cbn.
      2:{ right. lia. }
      unfold bind at 1. rewrite Hdirect.
      unfold reuseOrStartDiscovery. rewrite Hprom, (proj2 (Z.ltb_lt _ _) Hlt).
      reflexivity. }
    split.
    + intros producers removes.
      destruct (reachDirectly world inherits isIPv6 a known (requestedType o) (type d)
                  (discoveryDataOf a o s) s) as [[[messageChannel|]|e] s'] eqn:Hdirect.
      * unfold bind at 1. rewrite (cancelLowerDiscovery_keep_running _ _ _ d Hrun); cbn.
        2:{ right. lia. }
        unfold bind at 1. rewrite Hdirect. cbn. discriminate.
      * rewrite (Hstep s' eq_refl). cbn. discriminate.
      * unfold bind at 1. rewrite (cancelLowerDiscovery_keep_running _ _ _ d Hrun); cbn.
        2:{ right. lia. }
        unfold bind at 1. rewrite Hdirect. cbn. discriminate.
    + split.
      * intros Hskip. apply Hstep. apply reachDirectly_skipped.
        destruct Hskip as [-> | Hreq]; [by left | right; done].
      * intros operationalAddress -> Hreq. unfold bind at 1.
        rewrite (cancelLowerDiscovery_keep_running _ _ _ d Hrun); cbv beta iota.
        2:{ right. lia. }
        unfold bind at 1. rewrite reachDirectly_tried by (by right).
        rewrite (bool_decide_eq_true_2 _ Hreq).
        by destruct (reconnectKnownAddress _ _ _ _ _ _ _ _) as [[[messageChannel|]|e] s'].
Qed.



(** C3, the part the code keeps: an accepted request of type None with a
    known operational address reaches the device directly; it returns the
    channel, or raises a discovery error when the address does not
    answer, and no discovery is registered. *)
Lemma none_request_tries_known_address
  (a : PeerAddress) (operationalAddress : ServerAddressIp) (o : DiscoveryOptions)
  (s : State) :
  accepted o -> is_Some (mdnsScanner s) ->
  requestedType o = NodeDiscoveryType.None ->
  let direct := reconnectKnownAddress world inherits isIPv6 a operationalAddress
                  (discoveryDataOf a o s) None s in
  let result := connectOrDiscoverNode world inherits isIPv6 a
                  (Some operationalAddress) o s in
  result = match direct with
           | (Returned (Some messageChannel), s') =>
               (Returned (Resolved messageChannel), s')
           | (Returned None, s') =>
               (Threw (newError DiscoveryError
                         (toString a ++ " is not reachable right now.")), s')
           | (Threw e, s') => (Threw e, s')
           end /\
  runningPeerDiscoveries result.2 = runningPeerDiscoveries s.
Proof.
  intros Hacc Hscan Hreq. cbn zeta.
  pose proof (untouched_reconnectKnownAddress world inherits isIPv6 a operationalAddress
                (discoveryDataOf a o s) None s) as (Hsame & _).
  assert (Hresult :
    connectOrDiscoverNode world inherits isIPv6 a (Some operationalAddress) o s
    = match reconnectKnownAddress world inherits isIPv6 a operationalAddress
              (discoveryDataOf a o s) None s with
      | (Returned (Some messageChannel), s') =>
          (Returned (Resolved messageChannel), s')
      | (Returned None, s') =>
          (Threw (newError DiscoveryError
                    (toString a ++ " is not reachable right now.")), s')
      | (Threw e, s') => (Threw e, s')
      end).
  { rewrite (orchestrate_accepted a _ o s Hacc Hscan).
    unfold bind at 1. rewrite cancelLowerDiscovery_keep.
    2:{ intros d _. right. rewrite Hreq. apply value_nonnegative. }
    cbv beta iota. unfold bind at 1. rewrite reachDirectly_tried by (by right).
    rewrite (bool_decide_eq_true_2 _ Hreq).
    by destruct (reconnectKnownAddress _ _ _ _ _ _ _ _) as [[[messageChannel|]|e] s']. }
  rewrite Hresult. split; [reflexivity|].
  by destruct (reconnectKnownAddress _ _ _ _ _ _ _ _) as [[[messageChannel|]|e] s'].
Qed.

(** C3, the part the code misses: an accepted request of type None
    without a known operational address, for an address whose running
    discovery, if any, has no producers, is not refused; a discovery of
    type None is registered, with the mDNS producer last, and awaited. *)
Lemma none_request_without_known_address_discovers
  (a : PeerAddress) (o : DiscoveryOptions) (s : State) :
  accepted o -> is_Some (mdnsScanner s) ->
  requestedType o = NodeDiscoveryType.None ->
  (forall d, runningPeerDiscoveries s !! a = Some d -> promises d = None) ->
  let result := connectOrDiscoverNode world inherits isIPv6 a None o s in
  exists running polling,
    result.1 = Returned (AnyPromise running true) /\
    runningPeerDiscoveries result.2 !! a
    = Some {| type := NodeDiscoveryType.None; promises := Some running;
              timer := polling |} /\
    exists i, last running
              = Some (MdnsDiscovery i a (timeoutSeconds o) (discoveryDataOf a o s)).
Proof.
  intros Hacc Hscan Hreq Hnone. cbn zeta.
  assert (Hresult :
    connectOrDiscoverNode world inherits isIPv6 a None o s
    = startDiscovery a None (requestedType o) (timeoutSeconds o)
        (discoveryDataOf a o s) s).
  { rewrite (orchestrate_accepted a _ o s Hacc Hscan).
    unfold bind at 1. rewrite cancelLowerDiscovery_keep.
    2:{ intros d _. right. rewrite Hreq. apply value_nonnegative. }
    cbv beta iota. unfold bind at 1. rewrite reachDirectly_skipped by (by left).
    cbv beta iota. unfold reuseOrStartDiscovery.
    assert (promises (default {| type := NodeDiscoveryType.None; promises := None;
                                 timer := None |}
                        (runningPeerDiscoveries s !! a)) = None) as ->; [|reflexivity].
    destruct (runningPeerDiscoveries s !! a) as [d|] eqn:Hd; [by apply Hnone | reflexivity]. }
  rewrite Hresult.
  destruct (startDiscovery_starts a None (requestedType o) (timeoutSeconds o)
              (discoveryDataOf a o s) s)
    as (running & polling & s' & -> & Hreg & _ & Hlast & _).
  exists running, polling. cbn [fst snd]. rewrite Hreg, lookup_insert_eq, Hreq. auto.
Qed.

(** C1, the case the amended claim leaves open: when the cancelled
    discovery has producers and no channel comes from a direct
    reconnection, the caller awaits those very producers, and the address
    is left without a running discovery. *)
Lemma superseded_producers_are_awaited
  (a : PeerAddress) (o : DiscoveryOptions) (s : State) (d : RunningDiscovery)
  (stale : list Producer) :
  accepted o -> is_Some (mdnsScanner s) ->
  runningPeerDiscoveries s !! a = Some d ->
  type d <> NodeDiscoveryType.None ->
  (NodeDiscoveryType.value (type d) < NodeDiscoveryType.value (requestedType o))%Z ->
  promises d = Some stale ->
  connectOrDiscoverNode world inherits isIPv6 a None o s
  = (Returned (AnyPromise stale false), produced stale (cancelled a s)).
Proof.
  intros Hacc Hscan Hrun Hnn Hlt Hprom.
  rewrite (orchestrate_accepted a _ o s Hacc Hscan).
  unfold bind at 1. rewrite (cancelLowerDiscovery_lower a _ s d Hrun Hnn Hlt).
  cbn [type]. unfold bind at 1. rewrite reachDirectly_skipped by (by left).
  unfold reuseOrStartDiscovery. cbn [promises type]. rewrite Hprom.
  rewrite (proj2 (Z.ltb_ge _ _) (value_nonnegative _)).
  unfold bind. by rewrite anyPromise_produces.
Qed.

(** *** Configuration mistakes *)

Lemma knownOperationalAddressFor_returns a s :
  exists known,
    (knownOperationalAddressFor a s).1 = Returned known /\
    calls (knownOperationalAddressFor a s).2 = calls s /\
    runningPeerDiscoveries (knownOperationalAddressFor a s).2
    = runningPeerDiscoveries s /\
    channels (knownOperationalAddressFor a s).2 = channels s /\
    peersByAddress (knownOperationalAddressFor a s).2 = peersByAddress s.
Proof.
  unfold knownOperationalAddressFor, getDiscoveredOperationalDevice,
    getLastOperationalAddress, bind, gets, modify, ret.
  destruct (peersByAddress s !! a ≫= _) as [last|];
    destruct (mdnsScanner s ≫= _) as [addresses|]; cbn; eauto 6.
  destruct (existsb _ addresses); cbn; eauto 6.
Qed.

(** C5 (amended). A request for RetransmissionDiscovery, or one with a
    timeout and a discovery type other than TimedDiscovery, makes the
    orchestrator throw an ImplementationError before it cancels, reaches
    or discovers anything.  connect hands that error on unchanged when it
    has no channel for the address, having done nothing but look up the
    known operational address.  (With a channel for the address connect
    does not look at the options.) *)
Theorem misconfigured_request_is_rejected
  (a : PeerAddress) (o : DiscoveryOptions) (s : State) :
  requestedType o = NodeDiscoveryType.RetransmissionDiscovery \/
  (is_Some (timeoutSeconds o) /\ requestedType o <> NodeDiscoveryType.TimedDiscovery) ->
  exists e,
    class e = ImplementationError /\
    (forall known s0,
        connectOrDiscoverNode world inherits isIPv6 a known o s0 = (Threw e, s0)) /\
    (channels s !! a = None ->
     inherits ImplementationError DiscoveryError = false ->
     inherits ImplementationError NoResponseTimeoutError = false ->
     let s' := (knownOperationalAddressFor a s).2 in
     connect world inherits isIPv6 a o s = (Threw e, s') /\
     calls s' = calls s /\
     runningPeerDiscoveries s' = runningPeerDiscoveries s /\
     channels s' = channels s).
Proof.
  intros Hbad.
  assert (Hthrow : exists e, class e = ImplementationError /\
            forall known s0,
              connectOrDiscoverNode world inherits isIPv6 a known o s0 = (Threw e, s0)).
  { unfold connectOrDiscoverNode. cbv zeta.
    destruct (bool_decide (is_Some (timeoutSeconds o))
              && negb (bool_decide (requestedType o = NodeDiscoveryType.TimedDiscovery)))
      eqn:Htimeout.
    - eexists. split; [|intros known s0; unfold bind, gets; reflexivity]. reflexivity.
    - assert (Hretransmission : requestedType o = NodeDiscoveryType.RetransmissionDiscovery).
      { destruct Hbad as [H | [Hsome Hnot]]; [exact H|].
        rewrite (bool_decide_eq_true_2 _ Hsome), (bool_decide_eq_false_2 _ Hnot) in Htimeout.
        discriminate. }
      rewrite (bool_decide_eq_true_2 _ Hretransmission).
      eexists. split; [|intros known s0; unfold bind, gets; reflexivity]. reflexivity. }
  destruct Hthrow as (e & Hclass & Hthrow). exists e. split; [exact Hclass|].
  split; [exact Hthrow|]. intros Hchannel Hd Hn. cbn zeta.
  destruct (knownOperationalAddressFor_returns a s) as (known & Hknown & Hc & Hr & Hch & _).
  split; [|auto].
  unfold connect. unfold bind at 1, gets at 1. rewrite Hchannel.
  unfold bind at 1, resume. unfold bind at 1.
  destruct (knownOperationalAddressFor a s) as [result s'] eqn:Hlookup.
  cbn in Hknown. subst result. unfold tryCatch. rewrite Hthrow.
  unfold resumeFailed, instanceOf. rewrite Hclass, Hd, Hn. reflexivity.
Qed.

(** *** Cached data and pairing *)

Lemma bind_Returned {A B} (m : M A) (k : A -> M B) s b s'' :
  bind m k s = (Returned b, s'') ->
  exists x s', m s = (Returned x, s') /\ k x s' = (Returned b, s'').
Proof.
  unfold bind. destruct (m s) as [[x|e] s']; [eauto | discriminate].
Qed.

Lemma sameCache_createInsecureSession p : preserves sameCache (createInsecureSession p).
Proof. unfold createInsecureSession. sameCache_op. Qed.

Lemma sameCache_sessionDestroy u : preserves sameCache (sessionDestroy world u).
Proof. unfold sessionDestroy. sameCache_op. Qed.

Lemma sameCache_setChannel a c : preserves sameCache (setChannel world a c).
Proof. unfold setChannel. sameCache_op. Qed.

Lemma sameCache_openChannel b a : preserves sameCache (openChannel world b a).
Proof. sameCache_op. Qed.

(** The CASE run of a pairing that succeeds: the session is the one the
    driver reported, and the cached data of the peer is deleted exactly
    when the driver reported that the session was not resumed. *)
Lemma establishSecureSession_cache a exchange expected s secure s' :
  establishSecureSession world inherits a exchange expected s = (Returned secure, s') ->
  exists resumed,
    pairs world (app (calls s) [InitiateExchangeWithChannel exchange]) a expected
    = inr (secure, resumed) /\
    nodeCachedData s'
    = if resumed then nodeCachedData s else base.delete a (nodeCachedData s).
Proof.
  unfold establishSecureSession, initiateExchangeWithChannel, exchangeClose, tryCatch,
    bind, call, casePair, modify, ret, throw.
  destruct (rejects world (calls s) _) as [e|]; cbn.
  { destruct (instanceOf _ _ _); discriminate. }
  destruct (pairs world _ a expected) as [e|[session resumed]] eqn:Hpair; cbn.
  { destruct (rejects world _ ExchangeClose); cbn;
      destruct (instanceOf _ _ _); discriminate. }
  destruct resumed; cbn; intros [= <- <-]; eexists; (split; [reflexivity|]);
    reflexivity.
Qed.

Lemma pair_cache a known data expected s messageChannel s' :
  pair world inherits isIPv6 a known data expected s = (Returned messageChannel, s') ->
  exists history resumed,
    pairs world history a expected = inr (session messageChannel, resumed) /\
    nodeCachedData s'
    = if resumed then nodeCachedData s else base.delete a (nodeCachedData s).
Proof.
  unfold pair. cbv zeta. intros H.
  apply bind_Returned in H as (hasInterface & s0 & [= <- <-] & H).
  destruct (negb _); [discriminate|].
  apply bind_Returned in H as (operationalChannel & s1 & H1 & H).
  apply bind_Returned in H as (sessionParameters & s2 & [= <- <-] & H).
  apply bind_Returned in H as (unsecureSession & s3 & H3 & H).
  apply bind_Returned in H as (secure & s4 & H4 & H).
  apply bind_Returned in H as ([] & s5 & H5 & H).
  apply bind_Returned in H as ([] & s6 & H6 & [= <- <-]).
  pose proof (preserves_run _ _ _ _ _ (sameCache_openChannel _ _) H1) as E1.
  pose proof (preserves_run _ _ _ _ _ (sameCache_createInsecureSession _) H3) as E3.
  pose proof (preserves_run _ _ _ _ _ (sameCache_sessionDestroy _) H5) as E5.
  pose proof (preserves_run _ _ _ _ _ (sameCache_setChannel _ _) H6) as E6.
  apply establishSecureSession_cache in H4 as (resumed & Hpair & E4).
  unfold sameCache in *. cbn in *.
  eexists _, resumed. split; [exact Hpair|].
  rewrite E6, E5, E4, E3, E1. reflexivity.
Qed.

Lemma reconnectKnownAddress_cache a known data expected s messageChannel s' :
  reconnectKnownAddress world inherits isIPv6 a known data expected s
  = (Returned (Some messageChannel), s') ->
  exists history resumed,
    pairs world history a expected = inr (session messageChannel, resumed) /\
    nodeCachedData s'
    = if resumed then nodeCachedData s else base.delete a (nodeCachedData s).
Proof.
  unfold reconnectKnownAddress, tryCatch, bind at 1.
  destruct (pair world inherits isIPv6 a known data expected s)
    as [[paired|e] s1] eqn:Hpair.
  - apply pair_cache in Hpair as (history & resumed & Hreport & Hcache).
    pose proof (sameCache_addOrUpdatePeer world a known None s1) as Hsame.
    unfold bind at 1. destruct (addOrUpdatePeer world a known None s1) as [[[]|e] s2];
      unfold sameCache in Hsame; cbn in Hsame.
    + cbn. intros [= <- <-]. exists history, resumed. by rewrite Hsame.
    + destruct (instanceOf _ _ _); [|discriminate].
      unfold bind. destruct (removeAllSessionsForNode _ _ _ _) as [[[]|?] ?];
        discriminate.
  - destruct (instanceOf _ _ _); [|discriminate].
    unfold bind. destruct (removeAllSessionsForNode _ _ _ _) as [[[]|?] ?];
      discriminate.
Qed.

Lemma keptUnlessNotResumed_refl a expected s :
  keptUnlessNotResumed world a expected s s.
Proof. by left. Qed.

Lemma keptUnlessNotResumed_trans a expected s1 s2 s3 :
  keptUnlessNotResumed world a expected s1 s2 ->
  keptUnlessNotResumed world a expected s2 s3 ->
  keptUnlessNotResumed world a expected s1 s3.
Proof.
  unfold keptUnlessNotResumed.
  intros [E1 | [H1 E1]] [E2 | [H2 E2]]; rewrite E2, E1.
  - by left.
  - by right.
  - by right.
  - right. split; [done|]. apply delete_delete_eq.
Qed.

Lemma sameCache_keptUnlessNotResumed {A} (m : M A) a expected :
  preserves sameCache m -> preserves (keptUnlessNotResumed world a expected) m.
Proof. intros H s. left. apply H. Qed.

Lemma keptUnlessNotResumed_establishSecureSession a exchange expected :
  preserves (keptUnlessNotResumed world a expected)
    (establishSecureSession world inherits a exchange expected).
Proof.
  intros s.
  unfold establishSecureSession, initiateExchangeWithChannel, exchangeClose, tryCatch,
    bind, call, casePair, modify, ret, throw.
  destruct (rejects world (calls s) _) as [e|]; cbn.
  { destruct (instanceOf _ _ _); by left. }
  destruct (pairs world _ a expected) as [e|[session resumed]] eqn:Hpair; cbn.
  { destruct (rejects world _ ExchangeClose); cbn;
      destruct (instanceOf _ _ _); by left. }
  destruct resumed; cbn; [by left|]. right. split; [eauto | reflexivity].
Qed.

Lemma keptUnlessNotResumed_pair a known data expected :
  preserves (keptUnlessNotResumed world a expected)
    (pair world inherits isIPv6 a known data expected).
Proof.
  pose proof (keptUnlessNotResumed_establishSecureSession a).
  pose proof (λ p, sameCache_keptUnlessNotResumed _ a expected
                     (sameCache_createInsecureSession p)).
  pose proof (λ u, sameCache_keptUnlessNotResumed _ a expected
                     (sameCache_sessionDestroy u)).
  pose proof (λ b c, sameCache_keptUnlessNotResumed _ a expected
                     (sameCache_setChannel b c)).
  pose proof (λ b c, sameCache_keptUnlessNotResumed _ a expected
                     (sameCache_openChannel b c)).
  unfold pair. cbv zeta.
  preserve (keptUnlessNotResumed_refl a expected)
           (keptUnlessNotResumed_trans a expected) fail.
Qed.

Lemma keptUnlessNotResumed_reconnectKnownAddress a known data expected :
  preserves (keptUnlessNotResumed world a expected)
    (reconnectKnownAddress world inherits isIPv6 a known data expected).
Proof.
  pose proof (keptUnlessNotResumed_pair a).
  pose proof (λ k d, sameCache_keptUnlessNotResumed _ a expected
                     (sameCache_addOrUpdatePeer world a k d)).
  pose proof (λ b, sameCache_keptUnlessNotResumed _ a expected
                     (sameCache_removeAllSessionsForNode world a b)).
  unfold reconnectKnownAddress.
  preserve (keptUnlessNotResumed_refl a expected)
           (keptUnlessNotResumed_trans a expected) fail.
Qed.

Lemma reportedNotResumed_app a expected made : forall history more,
  reportedNotResumed world a expected history (app made more)
  = reportedNotResumed world a expected history made
    || reportedNotResumed world a expected (app history made) more.
Proof.
  induction made as [|c rest IH]; intros history more.
  - cbn. by rewrite app_nil_r.
  - cbn [app reportedNotResumed]. rewrite IH, <- app_assoc, orb_assoc. reflexivity.
Qed.

(** When the driver reports a session that was not resumed whenever it is
    asked for the peer, it has reported one as soon as it was asked. *)
Lemma reportedNotResumed_asked a expected secure :
  (forall history, pairs world history a expected = inr (secure, false)) ->
  forall made history,
    CasePair a expected ∈ made ->
    reportedNotResumed world a expected history made = true.
Proof.
  intros Hreport. induction made as [|c rest IH]; intros history Hasked.
  - by apply elem_of_nil in Hasked.
  - cbn [reportedNotResumed]. apply elem_of_cons in Hasked as [<- | Hasked].
    + rewrite Hreport, bool_decide_eq_true_2 by done. reflexivity.
    + rewrite (IH _ Hasked). apply orb_true_r.
Qed.

Lemma droppedIfNotResumed_refl a expected s :
  droppedIfNotResumed world a expected s s.
Proof. exists []. by rewrite app_nil_r. Qed.

Lemma droppedIfNotResumed_trans a expected s1 s2 s3 :
  droppedIfNotResumed world a expected s1 s2 ->
  droppedIfNotResumed world a expected s2 s3 ->
  droppedIfNotResumed world a expected s1 s3.
Proof.
  intros (made & Hmade & Hcache) (more & Hmore & Hcache').
  exists (app made more). split; [by rewrite Hmore, Hmade, app_assoc|].
  rewrite reportedNotResumed_app, Hcache', Hcache, Hmade.
  destruct (reportedNotResumed world a expected (calls s1) made),
    (reportedNotResumed world a expected (app (calls s1) made) more); cbn;
    try reflexivity.
  apply delete_delete_eq.
Qed.

(** The CASE run, however it ends: the cached data of the peer is deleted
    exactly when the driver was reached and reported a session that was
    not resumed, also when closing the exchange or converting the error
    follows. *)
Lemma droppedIfNotResumed_establishSecureSession a exchange expected :
  preserves (droppedIfNotResumed world a expected)
    (establishSecureSession world inherits a exchange expected).
Proof.
  intros s.
  unfold establishSecureSession, initiateExchangeWithChannel, exchangeClose, tryCatch,
    bind, call, casePair, modify, ret, throw.
  destruct (rejects world (calls s) _) as [e|]; cbn.
  { destruct (instanceOf _ _ _); by eexists [_]. }
  destruct (pairs world _ a expected) as [e|[secure resumed]] eqn:Hpair; cbn.
  { destruct (rejects world _ ExchangeClose); cbn;
      destruct (instanceOf _ _ _); cbn;
      unfold droppedIfNotResumed; unfold_with; cbn;
      (eexists [_; _; _]; rewrite <- !app_assoc; split; [reflexivity|]);
      cbn; rewrite Hpair; cbn; by rewrite andb_false_r. }
  destruct resumed; cbn;
    unfold droppedIfNotResumed; unfold_with; cbn;
    (eexists [_; _]; rewrite <- !app_assoc; split; [reflexivity|]);
    cbn; rewrite Hpair, bool_decide_eq_true_2 by done; reflexivity.
Qed.

Ltac droppedIfNotResumed_leaf :=
  first
    [ solve [auto]
    | solve [ intros ?; cbv [modify record call PeerSet.fresh openChannel];
              repeat case_match; unfold_with; unfold droppedIfNotResumed; cbn;
              first [ by (exists []; rewrite app_nil_r)
                    | by eexists [_] ] ] ].

Lemma droppedIfNotResumed_pair a known data expected :
  preserves (droppedIfNotResumed world a expected)
    (pair world inherits isIPv6 a known data expected).
Proof.
  pose proof (droppedIfNotResumed_establishSecureSession a).
  unfold pair, createInsecureSession, sessionDestroy, setChannel. cbv zeta.
  preserve (droppedIfNotResumed_refl a expected)
           (droppedIfNotResumed_trans a expected) droppedIfNotResumed_leaf.
Qed.

Lemma droppedIfNotResumed_reconnectKnownAddress a known data expected :
  preserves (droppedIfNotResumed world a expected)
    (reconnectKnownAddress world inherits isIPv6 a known data expected).
Proof.
  pose proof (droppedIfNotResumed_pair a).
  unfold reconnectKnownAddress, addOrUpdatePeer, addPeer, updatePeer,
    removeAllSessionsForNode.
  preserve (droppedIfNotResumed_refl a expected)
           (droppedIfNotResumed_trans a expected) droppedIfNotResumed_leaf.
Qed.

(** C4. However a pairing with a peer ends, on its own or as the direct
    reconnection, also when it throws after the CASE run (the insecure
    session cannot be destroyed, the channel cannot be filed): the cached
    data of the peer, and of no other node, is deleted if the CASE driver
    was reached and reported a session that was not resumed, and the
    cached data of every node is what it was otherwise.  Let then the
    CASE driver report, whenever it is asked for the peer, a session and
    whether it was resumed.  If it was not resumed, nothing is filed for
    the address once the driver was asked; a pairing that succeeds has
    deleted the cached data by the time it returns, and the client that
    connect then builds is handed an empty cache.  If it was resumed, the
    cached data of every node is what it was, however the pairing ends. *)
Theorem pairing_drops_cache_unless_resumed
  (a : PeerAddress) (known : ServerAddressIp) (data : option DiscoveryData)
  (expected : option N) (s : State) (secure : Session) (resumed : bool) :
  let paired := pair world inherits isIPv6 a known data expected s in
  let reconnected :=
    reconnectKnownAddress world inherits isIPv6 a known data expected s in
  droppedIfNotResumed world a expected s paired.2 /\
  droppedIfNotResumed world a expected s reconnected.2 /\
  ((forall history, pairs world history a expected = inr (secure, resumed)) ->
   (resumed = false ->
    forall s' made,
      s' = paired.2 \/ s' = reconnected.2 ->
      calls s' = app (calls s) made ->
      CasePair a expected ∈ made ->
      nodeCachedData s' !! a = None /\
      (forall b, b <> a -> nodeCachedData s' !! b = nodeCachedData s !! b)) /\
   (resumed = false ->
    forall messageChannel s',
      paired = (Returned messageChannel, s') \/
      reconnected = (Returned (Some messageChannel), s') ->
      session messageChannel = secure /\
      nodeCachedData s' !! a = None /\
      (forall b, b <> a -> nodeCachedData s' !! b = nodeCachedData s !! b) /\
      (forall handed,
          (newInteractionClient a messageChannel handed s').1
          = Returned {| exchangeChannel := messageChannel; clientAddress := a;
                        cachedData := emptyCachedData;
                        reconnectDiscoveryData := handed |})) /\
   (resumed = true ->
    nodeCachedData paired.2 = nodeCachedData s /\
    nodeCachedData reconnected.2 = nodeCachedData s)).
Proof.
  cbn zeta.
  pose proof (droppedIfNotResumed_pair a known data expected s) as Hpaired.
  pose proof (droppedIfNotResumed_reconnectKnownAddress a known data expected s)
    as Hreconnected.
  split; [exact Hpaired|]. split; [exact Hreconnected|].
  intros Hreport. split; [|split].
  - intros -> s' made Hrun Hcalls Hasked.
    assert (Hdropped : droppedIfNotResumed world a expected s s').
    { by destruct Hrun as [-> | ->]. }
    destruct Hdropped as (made' & Hcalls' & Hcache).
    assert (made' = made) as ->.
    { rewrite Hcalls in Hcalls'. by apply app_inv_head in Hcalls'. }
    rewrite (reportedNotResumed_asked a expected secure Hreport made _ Hasked)
      in Hcache.
    rewrite Hcache. split; [apply lookup_delete_eq|].
    intros b Hb. by apply lookup_delete_ne.
  - intros -> messageChannel s' Hrun.
    assert (exists history resumed',
              pairs world history a expected = inr (session messageChannel, resumed') /\
              nodeCachedData s'
              = if resumed' then nodeCachedData s else base.delete a (nodeCachedData s))
      as (history & resumed' & Hpair & Hcache).
    { destruct Hrun as [H|H];
        [by apply pair_cache in H | by apply reconnectKnownAddress_cache in H]. }
    rewrite Hreport in Hpair. injection Hpair as <- <-.
    assert (Hnone : nodeCachedData s' !! a = None).
    { rewrite Hcache. apply lookup_delete_eq. }
    split; [reflexivity|]. split; [exact Hnone|]. split.
    + intros b Hb. rewrite Hcache. by apply lookup_delete_ne.
    + intros handed.
      unfold newInteractionClient, bind, gets, modify, ret. cbn. by rewrite Hnone.
  - intros ->.
    assert (Hkept : forall s', keptUnlessNotResumed world a expected s s' ->
                      nodeCachedData s' = nodeCachedData s).
    { intros s' [E | [(history & other & Hpair) _]]; [exact E|].
      rewrite Hreport in Hpair. discriminate. }
    split; apply Hkept;
      [apply keptUnlessNotResumed_pair | apply keptUnlessNotResumed_reconnectKnownAddress].
Qed.

End Orchestrator.

(** *** The theorems at sample inputs *)

Import Samples.


(** The case that the amended C1 leaves open: the cancelled discovery has
    producers.  A request for a full discovery while a timed discovery is in
    flight cancels it and removes its entry, and then awaits the producers
    of the cancelled discovery, with their timeout of 30 seconds: they are
    called once more, which starts the timed scan again, and nothing is
    registered for the address. *)
Lemma upgrade_awaits_cancelled_producers :
  let r := connectOrDiscoverNode (answering false) hierarchy hasColon peer_1_5 None (requesting NodeDiscoveryType.FullDiscovery None)
             timedDiscoveryRunning in
  promises <$> runningPeerDiscoveries timedDiscoveryRunning !! peer_1_5
  = Some (Some [MdnsDiscovery 0 peer_1_5 (Some 30%N) None]) /\
  r.1 = Returned (AnyPromise [MdnsDiscovery 0 peer_1_5 (Some 30%N) None] false) /\
  runningPeerDiscoveries r.2 !! peer_1_5 = None /\
  calls timedDiscoveryRunning = [DiscoverOperationalDevice peer_1_5 (Some 30%N) false] /\
  calls r.2 = [DiscoverOperationalDevice peer_1_5 (Some 30%N) false;
               CancelOperationalDeviceDiscovery peer_1_5 None;
               DiscoverOperationalDevice peer_1_5 (Some 30%N) false].
Proof. vm_compute. repeat split; reflexivity. Qed.


(** The claim C2 as the specification words it fails: while a full
    discovery with producers runs for the address, a request for a timed
    discovery is refused with a discovery error instead of waiting on the
    producers. *)
Lemma lower_request_is_refused :
  let r := connectOrDiscoverNode (answering false) hierarchy hasColon peer_1_5 None
             (requesting NodeDiscoveryType.TimedDiscovery (Some 30%N))
             fullDiscoveryRunning in
  runningPeerDiscoveries fullDiscoveryRunning !! peer_1_5
  = Some {| type := NodeDiscoveryType.FullDiscovery;
            promises := Some [MdnsDiscovery 0 peer_1_5 None None];
            timer := None |} /\
  r.1 = Threw (newError DiscoveryError
                 "peer@1:5 is not reachable right now and discovery already running.").
Proof. vm_compute. split; reflexivity. Qed.

Lemma running_discovery_is_shared_or_refused_witness :
  let a := peer_1_5 in
  let o := requesting NodeDiscoveryType.FullDiscovery None in
  let s := fullDiscoveryRunning in
  let running := [MdnsDiscovery 0 peer_1_5 None None] in
  let d := {| type := NodeDiscoveryType.FullDiscovery; promises := Some running;
              timer := None |} in
  accepted o /\ is_Some (mdnsScanner s) /\
  runningPeerDiscoveries s !! a = Some d /\ promises d = Some running /\
  type d <> NodeDiscoveryType.None /\ requestedType o = type d /\
  connectOrDiscoverNode (answering false) hierarchy hasColon a None o s
  = (Returned (AnyPromise running false), produced running s) /\
  calls s = [DiscoverOperationalDevice a None true] /\
  calls (produced running s)
  = [DiscoverOperationalDevice a None true; DiscoverOperationalDevice a None true] /\
  runningPeerDiscoveries (produced running s) = runningPeerDiscoveries s.
Proof.
  cbn zeta.
  assert (H1 : accepted (requesting NodeDiscoveryType.FullDiscovery None)).
  { apply (bool_decide_unpack _). vm_compute. reflexivity. }
  assert (H2 : is_Some (mdnsScanner fullDiscoveryRunning)).
  { eexists. vm_compute. reflexivity. }
  assert (H3 : runningPeerDiscoveries fullDiscoveryRunning !! peer_1_5
               = Some {| type := NodeDiscoveryType.FullDiscovery;
                         promises := Some [MdnsDiscovery 0 peer_1_5 None None];
                         timer := None |}).
  { vm_compute. reflexivity. }
  do 6 (split; [first [assumption | reflexivity | discriminate]|]).
  split; [|vm_compute; repeat split; reflexivity].
  exact (proj1 (running_discovery_is_shared_or_refused (answering false) hierarchy
                  hasColon peer_1_5 None _ _ _ _ H1 H2 H3 eq_refl
                  ltac:(discriminate)) eq_refl).
Defined.

(** C3 (the code departs from the claim). connect for an address without
    channel, peer record or scanner record, with discovery type None: the
    call does not fail; it registers a discovery of type None whose only
    producer is the mDNS producer without timeout, and awaits it. *)
Theorem none_request_starts_discovery :
  let r := connect (answering false) hierarchy hasColon peer_1_5
             (requesting NodeDiscoveryType.None None) PeerSet.initial in
  (knownOperationalAddressFor peer_1_5 PeerSet.initial).1 = Returned None /\
  r.1 = Returned (Waiting [MdnsDiscovery 0 peer_1_5 None None] true) /\
  runningPeerDiscoveries r.2 !! peer_1_5
  = Some {| type := NodeDiscoveryType.None;
            promises := Some [MdnsDiscovery 0 peer_1_5 None None];
            timer := None |}.
Proof. vm_compute. repeat split; reflexivity. Qed.

(** The same request, by the calls it makes: the only call is the one
    that starts the scan for the node, without timeout. *)
Example none_request_scans :
  let r := connect (answering false) hierarchy hasColon peer_1_5
             (requesting NodeDiscoveryType.None None) PeerSet.initial in
  calls r.2 = [DiscoverOperationalDevice peer_1_5 None true].
Proof. vm_compute. reflexivity. Qed.

Example none_request_finds_known_address_silent :
  let s := withMdnsScanner (λ _, Some {[ peer_1_5 := [endpoint] ]}) PeerSet.initial in
  let r := connect unreachable hierarchy hasColon peer_1_5
             (requesting NodeDiscoveryType.None None) s in
  r.1 = Threw (newError DiscoveryError "peer@1:5 is not reachable right now.") /\
  runningPeerDiscoveries r.2 !! peer_1_5 = None.
Proof. vm_compute. split; reflexivity. Qed.

Lemma pairing_drops_cache_unless_resumed_witness :
  let cached := {| attributeValues :=
                     {[ "1/6/0" := {| endpointId := 1; clusterId := 6; attributeId := 0;
                                      attributeName := "onOff"; value := "true" |} ]};
                   clusterDataVersions := ∅; maxEventNumber := Some 42%N |} in
  let s := withNodeCachedData <[peer_1_5 := cached]> connected in
  let secure := {| sessionId := 100; isSecure := true |} in
  let lost := newError OtherError "no room for the channel" in
  let r := pair (losingChannel lost) hierarchy hasColon peer_1_5 endpoint None None s in
  (forall history, pairs (losingChannel lost) history peer_1_5 None = inr (secure, false)) /\
  nodeCachedData s !! peer_1_5 = Some cached /\
  r.1 = Threw lost /\
  calls r.2 = app (calls s) (calls r.2) /\
  CasePair peer_1_5 None ∈ calls r.2 /\
  nodeCachedData r.2 !! peer_1_5 = None.
Proof.
  cbn zeta.
  set (lost := newError OtherError "no room for the channel").
  set (s := withNodeCachedData _ connected).
  assert (H1 : forall history,
             pairs (losingChannel lost) history peer_1_5 None
             = inr ({| sessionId := 100; isSecure := true |}, false)).
  { reflexivity. }
  assert (H2 : calls (pair (losingChannel lost) hierarchy hasColon peer_1_5 endpoint
                        None None s).2
               = app (calls s)
                   (calls (pair (losingChannel lost) hierarchy hasColon peer_1_5
                             endpoint None None s).2)).
  { vm_compute. reflexivity. }
  assert (H3 : CasePair peer_1_5 None
               ∈ calls (pair (losingChannel lost) hierarchy hasColon peer_1_5 endpoint
                          None None s).2).
  { vm_compute. do 3 apply list_elem_of_further. apply list_elem_of_here. }
  split; [exact H1|]. split; [vm_compute; reflexivity|].
  split; [vm_compute; reflexivity|]. split; [exact H2|]. split; [exact H3|].
  exact (proj1 (proj1 (proj2 (proj2 (pairing_drops_cache_unless_resumed
                   (losingChannel lost) hierarchy hasColon peer_1_5 endpoint None None
                   s _ _)) H1) eq_refl _ _ (or_introl eq_refl) H2 H3)).
Defined.

(** A pairing that succeeds, with a driver that reports a session that
    was not resumed: the cached data of the peer is gone when the channel
    is returned. *)
Example pairing_without_resumption_drops_cache :
  let cached := {| attributeValues := ∅; clusterDataVersions := ∅;
                   maxEventNumber := Some 42%N |} in
  let s := withNodeCachedData <[peer_1_5 := cached]> connected in
  let r := pair (answering false) hierarchy hasColon peer_1_5 endpoint None None s in
  nodeCachedData s !! peer_1_5 = Some cached /\
  r.1 = Returned {| channel := 7; session := {| sessionId := 100; isSecure := true |} |} /\
  nodeCachedData r.2 !! peer_1_5 = None.
Proof. vm_compute. repeat split; reflexivity. Qed.

(** The claim C5 as the specification words it fails: with a channel for
    the address at hand, connect returns a client for a request that asks
    for RetransmissionDiscovery and sets a timeout; nothing is thrown. *)
Lemma misconfigured_request_with_channel_connects :
  let r := connect (answering false) hierarchy hasColon peer_1_5
             (requesting NodeDiscoveryType.RetransmissionDiscovery (Some 30%N))
             connected in
  r.1 = Returned (Client {| exchangeChannel :=
                              {| channel := 7;
                                 session := {| sessionId := 100; isSecure := true |} |};
                            clientAddress := peer_1_5;
                            cachedData := emptyCachedData;
                            reconnectDiscoveryData := None |}) /\
  calls r.2 = [].
Proof. vm_compute. split; reflexivity. Qed.

Lemma misconfigured_request_is_rejected_witness :
  let o := requesting NodeDiscoveryType.RetransmissionDiscovery None in
  (requestedType o = NodeDiscoveryType.RetransmissionDiscovery \/
   (is_Some (timeoutSeconds o) /\ requestedType o <> NodeDiscoveryType.TimedDiscovery)) /\
  exists e,
    class e = ImplementationError /\
    connect (answering false) hierarchy hasColon peer_1_5 o PeerSet.initial
    = (Threw e, PeerSet.initial).
Proof.
  cbn zeta. split; [left; reflexivity|].
  destruct (misconfigured_request_is_rejected (answering false) hierarchy hasColon
              peer_1_5 (requesting NodeDiscoveryType.RetransmissionDiscovery None)
              PeerSet.initial (or_introl eq_refl)) as (e & Hclass & _ & Hconnect).
  exists e. split; [exact Hclass|].
  exact (proj1 (Hconnect eq_refl eq_refl eq_refl)).
Defined.


(** *** Resubmissions *)

Section Resubmission.

(** X9. The discovery of a resubmission.  For a secure session of a peer
    without a running discovery, the handler files a placeholder of type
    RetransmissionDiscovery without producers and asks the scanner, if
    there is one, for a scan of five seconds that ignores existing
    records; a second notification changes nothing, and when the scan
    ends the discoveries are as they were before.  While a discovery runs
    for the peer the handler does nothing, and the end of the scan leaves
    a discovery of any other type in place. *)
Theorem resubmission_discovery_comes_and_goes (session : ResubmittedSession)
  (a : PeerAddress) (s : State) :
  resubmittedSecure session = true -> resubmittedPeer session = Some a ->
  (runningPeerDiscoveries s !! a = None ->
   let s1 := (handleResubmissionStarted session s).2 in
   (handleResubmissionStarted session s).1 = Returned tt /\
   runningPeerDiscoveries s1 !! a
   = Some {| type := NodeDiscoveryType.RetransmissionDiscovery;
             promises := None; timer := None |} /\
   calls s1
   = app (calls s)
       (match mdnsScanner s with
        | Some _ => [FindOperationalDevice a RETRANSMISSION_DISCOVERY_TIMEOUT_MS true]
        | None => []
        end) /\
   handleResubmissionStarted session s1 = (Returned tt, s1) /\
   runningPeerDiscoveries (resubmissionDiscoveryFinished a s1).2
   = runningPeerDiscoveries s) /\
  (forall d, runningPeerDiscoveries s !! a = Some d ->
     handleResubmissionStarted session s = (Returned tt, s) /\
     (type d <> NodeDiscoveryType.RetransmissionDiscovery ->
      resubmissionDiscoveryFinished a s = (Returned tt, s))).
Proof.
  intros Hsecure Hpeer. split.
  - intros Hnone. cbn zeta.
    assert (Hresult : handleResubmissionStarted session s
              = (Returned tt,
                 withCalls (λ l, app l (match mdnsScanner s with
                                        | Some _ =>
                                            [FindOperationalDevice a
                                               RETRANSMISSION_DISCOVERY_TIMEOUT_MS true]
                                        | None => []
                                        end))
                   (withRunningPeerDiscoveries
                      <[a := {| type := NodeDiscoveryType.RetransmissionDiscovery;
                                promises := None; timer := None |}]> s))).
    { unfold handleResubmissionStarted. rewrite Hsecure, Hpeer. cbn.
      unfold bind, gets, modify, record. rewrite Hnone. cbn.
      destruct (mdnsScanner s); cbn; unfold_with; cbn; [reflexivity|].
      by rewrite app_nil_r. }
    rewrite Hresult. cbn [fst snd].
    split; [reflexivity|]. split; [apply lookup_insert_eq|]. split; [reflexivity|].
    split.
    + unfold handleResubmissionStarted. rewrite Hsecure, Hpeer. cbn.
      unfold bind, gets. cbn. by rewrite lookup_insert_eq.
    + unfold resubmissionDiscoveryFinished, bind, gets, modify. cbn.
      rewrite lookup_insert_eq. cbn. rewrite decide_True by reflexivity. cbn.
      rewrite delete_insert_eq. by apply delete_id.
  - intros d Hd. split.
    + unfold handleResubmissionStarted. rewrite Hsecure, Hpeer. cbn.
      unfold bind, gets. by rewrite Hd.
    + intros Hother. unfold resubmissionDiscoveryFinished, bind, gets. rewrite Hd. cbn.
      rewrite decide_False; [reflexivity | congruence].
Qed.

Lemma resubmission_discovery_comes_and_goes_witness :
  let session := {| resubmittedSecure := true; resubmittedPeer := Some Samples.peer_1_5 |} in
  let s1 := (handleResubmissionStarted session PeerSet.initial).2 in
  calls s1
  = [FindOperationalDevice Samples.peer_1_5 RETRANSMISSION_DISCOVERY_TIMEOUT_MS true] /\
  runningPeerDiscoveries (resubmissionDiscoveryFinished Samples.peer_1_5 s1).2
  = runningPeerDiscoveries PeerSet.initial.
Proof.
  cbn zeta.
  destruct (proj1 (resubmission_discovery_comes_and_goes
                     {| resubmittedSecure := true; resubmittedPeer := Some Samples.peer_1_5 |}
                     Samples.peer_1_5 PeerSet.initial eq_refl eq_refl) eq_refl)
    as (_ & _ & Hcalls & _ & Hback).
  split; [exact Hcalls | exact Hback].
Defined.

End Resubmission.

(** *** Disconnecting and connecting over an open channel *)

(** Closes a case whose hypotheses say that a call both failed and did
    not. *)
Ltac absurd_case :=
  first [ discriminate
        | match goal with
          | H : is_Some None |- _ => destruct H as [? ?]; discriminate
          end ].

Section Channels.

Variable world : World.
Variable inherits : ErrorClass -> ErrorClass -> bool.
Variable isIPv6 : string -> bool.

(** X10. disconnect keeps the peer.  For a peer that is filed, disconnect
    asks for the sessions of its address to be removed, with a close
    message, and then for its channels; the peer stays in the set, in the
    index and in the store, with its resumption record and its cached
    data.  When both calls succeed, the address has no session and no
    channel afterwards and every other address keeps its own; a failure
    of the first call leaves the channel in place.  For an address or
    peer that is not filed, disconnect does nothing. *)
Theorem disconnect_keeps_the_peer (peer : Item) (s : State) :
  let result := disconnect world peer s in
  let s' := result.2 in
  (forall r o, (get peer s).1 = Returned (Some (r, o)) ->
     let a := address o in
     peers s' = peers s /\ peersByAddress s' = peersByAddress s /\
     peerObjects s' = peerObjects s /\ store s' = store s /\
     resumptionRecords s' = resumptionRecords s /\
     nodeCachedData s' = nodeCachedData s /\
     (result.1 = Returned tt ->
      calls s' = app (calls s) [RemoveAllSessionsForNode a true; RemoveAllNodeChannels a] /\
      nodeSessions s' = base.delete a (nodeSessions s) /\
      channels s' = base.delete a (channels s)) /\
     (is_Some (rejects world (calls s) (RemoveAllSessionsForNode a true)) ->
      channels s' = channels s /\ nodeSessions s' = nodeSessions s)) /\
  ((get peer s).1 = Returned None -> result = (Returned tt, s)).
Proof.
  cbn zeta. split.
  - intros r o Hget.
    assert (Hresult : disconnect world peer s
              = bind (removeAllSessionsForNode world (address o) true)
                  (λ _, removeAllNodeChannels world (address o)) s).
    { unfold disconnect, bind at 1. unfold get, gets in *. cbn in Hget.
      injection Hget as ->. reflexivity. }
    rewrite Hresult.
    unfold removeAllSessionsForNode, removeAllNodeChannels, call, bind, modify.
    destruct (rejects world (calls s) (RemoveAllSessionsForNode (address o) true))
      as [e1|] eqn:H1; cbn.
    { repeat split; auto; absurd_case. }
    destruct (rejects world _ (RemoveAllNodeChannels (address o))) as [e2|] eqn:H2; cbn.
    { repeat split; auto; absurd_case. }
    rewrite <- app_assoc. cbn. repeat split; auto; absurd_case.
  - intros Hget. unfold disconnect, bind. unfold get, gets in *. cbn in Hget.
    injection Hget as ->. reflexivity.
Qed.

(** X11. connect over an open channel is local.  When the channel manager
    has a channel for the address, connect hands out a client for that
    channel with the cached data of the peer, which it creates empty if
    there is none; whatever the discovery options are, no collaborator is
    called, nothing but the cached data changes, and a second connect
    hands out the same client and changes nothing at all. *)
Theorem connect_over_open_channel (a : PeerAddress) (o : DiscoveryOptions)
  (messageChannel : MessageChannel) (s : State) :
  channels s !! a = Some messageChannel ->
  let cached := default emptyCachedData (nodeCachedData s !! a) in
  let client := {| exchangeChannel := messageChannel; clientAddress := a;
                   cachedData := cached;
                   reconnectDiscoveryData := optionsDiscoveryData o |} in
  let s' := withNodeCachedData <[a := cached]> s in
  connect world inherits isIPv6 a o s = (Returned (Client client), s') /\
  calls s' = calls s /\
  (forall b, b <> a -> nodeCachedData s' !! b = nodeCachedData s !! b) /\
  connect world inherits isIPv6 a o s' = (Returned (Client client), s').
Proof.
  intros Hchannel. cbn zeta.
  assert (Hfirst : forall t, channels t !! a = Some messageChannel ->
            connect world inherits isIPv6 a o t
            = (Returned (Client {| exchangeChannel := messageChannel; clientAddress := a;
                                   cachedData := default emptyCachedData (nodeCachedData t !! a);
                                   reconnectDiscoveryData := optionsDiscoveryData o |}),
               withNodeCachedData <[a := default emptyCachedData (nodeCachedData t !! a)]> t)).
  { intros t Ht. unfold connect, newInteractionClient, bind, gets, modify, ret.
    by rewrite Ht. }
  split; [by apply Hfirst|]. split; [reflexivity|]. split.
  - intros b Hne. unfold_with. cbn. by rewrite lookup_insert_ne.
  - rewrite Hfirst by exact Hchannel. unfold_with. cbn.
    rewrite lookup_insert_eq. cbn. by rewrite insert_insert_eq.
Qed.

End Channels.

Lemma disconnect_keeps_the_peer_witness :
  let p := Samples.peer_1_5 in
  let s' := (disconnect (Samples.answering false) (ByAddress p) Samples.connected).2 in
  peers s' = peers Samples.connected /\ store s' = store Samples.connected /\
  nodeSessions s' = base.delete p (nodeSessions Samples.connected) /\
  channels s' = base.delete p (channels Samples.connected).
Proof.
  cbn zeta.
  destruct (proj1 (disconnect_keeps_the_peer (Samples.answering false)
                     (ByAddress Samples.peer_1_5) Samples.connected)
              0 {| address := Samples.peer_1_5;
                   operationalAddress := Some Samples.endpoint;
                   discoveryData := None |} eq_refl)
    as (Hpeers & _ & _ & Hstore & _ & _ & Hdone & _).
  destruct (Hdone eq_refl) as (_ & Hsessions & Hchannels).
  repeat split; assumption.
Defined.

Lemma connect_over_open_channel_witness :
  let o := Samples.requesting NodeDiscoveryType.RetransmissionDiscovery (Some 30%N) in
  let s' := withNodeCachedData <[Samples.peer_1_5 := emptyCachedData]> Samples.connected in
  calls s' = calls Samples.connected /\
  connect (Samples.answering false) Samples.hierarchy Samples.hasColon
    Samples.peer_1_5 o s'
  = (Returned (Client {| exchangeChannel :=
                           {| channel := 7;
                              session := {| sessionId := 100; isSecure := true |} |};
                         clientAddress := Samples.peer_1_5;
                         cachedData := emptyCachedData;
                         reconnectDiscoveryData := None |}), s').
Proof.
  cbn zeta.
  destruct (connect_over_open_channel (Samples.answering false) Samples.hierarchy
              Samples.hasColon Samples.peer_1_5
              (Samples.requesting NodeDiscoveryType.RetransmissionDiscovery (Some 30%N))
              {| channel := 7; session := {| sessionId := 100; isSecure := true |} |}
              Samples.connected eq_refl)
    as (_ & Hcalls & _ & Hagain).
  split; [exact Hcalls | exact Hagain].
Defined.


(** *** Pre- and postconditions *)

Section Hoare.

Context {A B : Type}.

Lemma hoare_ret (P : State -> Prop) (a : A) (Q : A -> State -> Prop) E :
  (forall s, P s -> Q a s) -> hoare P (ret a) Q E.
Proof. intros H s Hs. by apply H. Qed.

Lemma hoare_throw (P : State -> Prop) (e : Error) (Q : A -> State -> Prop)
  (E : Error -> State -> Prop) :
  (forall s, P s -> E e s) -> hoare P (throw e) Q E.
Proof. intros H s Hs. by apply H. Qed.

Lemma hoare_gets (P : State -> Prop) (f : State -> A) (Q : A -> State -> Prop) E :
  (forall s, P s -> Q (f s) s) -> hoare P (gets f) Q E.
Proof. intros H s Hs. by apply H. Qed.

Lemma hoare_bind (P : State -> Prop) (m : M A) (k : A -> M B)
  (Q1 : A -> State -> Prop) (Q : B -> State -> Prop) E :
  hoare P m Q1 E -> (forall a, hoare (Q1 a) (k a) Q E) -> hoare P (bind m k) Q E.
Proof.
  intros Hm Hk s Hs. unfold bind. specialize (Hm s Hs).
  destruct (m s) as [[a|e] s1]; [by apply Hk | exact Hm].
Qed.

Lemma hoare_tryCatch (P : State -> Prop) (m : M A) (h : Error -> M A)
  (Q : A -> State -> Prop) (E1 E : Error -> State -> Prop) :
  hoare P m Q E1 -> (forall e, hoare (E1 e) (h e) Q E) -> hoare P (tryCatch m h) Q E.
Proof.
  intros Hm Hh s Hs. unfold tryCatch. specialize (Hm s Hs).
  destruct (m s) as [[a|e] s1]; [exact Hm | by apply Hh].
Qed.

Lemma hoare_consequence (P P' : State -> Prop) (m : M A)
  (Q Q' : A -> State -> Prop) (E E' : Error -> State -> Prop) :
  hoare P' m Q' E' -> (forall s, P s -> P' s) ->
  (forall a s, Q' a s -> Q a s) -> (forall e s, E' e s -> E e s) ->
  hoare P m Q E.
Proof.
  intros Hm HP HQ HE s Hs. specialize (Hm s (HP s Hs)).
  destruct (m s) as [[a|e] s1]; auto.
Qed.

(** A relation that a computation maintains carries a precondition on an
    earlier state over to the state it ends in. *)
Lemma hoare_preserves (R : State -> State -> Prop) (m : M A) (s0 : State) :
  (forall s1 s2 s3, R s1 s2 -> R s2 s3 -> R s1 s3) ->
  preserves R m -> hoare (R s0) m (λ _, R s0) (λ _, R s0).
Proof.
  intros Rtrans Hm s Hs. specialize (Hm s).
  destruct (m s) as [[a|e] s1]; cbn in Hm; eauto.
Qed.

Lemma hoare_run (P : State -> Prop) (m : M A) Q E s :
  hoare P m Q E -> P s ->
  match (m s).1 with
  | Returned a => Q a (m s).2
  | Threw e => E e (m s).2
  end.
Proof. intros Hm Hs. specialize (Hm s Hs). by destruct (m s) as [[a|e] s1]. Qed.

End Hoare.

Lemma sameRecords_refl s : sameRecords s s.
Proof. by repeat split. Qed.

Lemma sameRecords_trans s1 s2 s3 :
  sameRecords s1 s2 -> sameRecords s2 s3 -> sameRecords s1 s3.
Proof. unfold sameRecords. intuition congruence. Qed.

Ltac sameRecords_leaf :=
  first
    [ solve [auto]
    | solve [ intros ?; cbv [modify record call PeerSet.fresh openChannel casePair];
              repeat case_match; unfold_with; unfold sameRecords; cbn;
              repeat split; reflexivity ] ].

Ltac sameRecords_op := cbv zeta; preserve sameRecords_refl sameRecords_trans sameRecords_leaf.

Lemma bind_returns {A B} (m : M A) (k : A -> M B) s a s1 :
  m s = (Returned a, s1) -> bind m k s = k a s1.
Proof. unfold bind. by intros ->. Qed.

Lemma bind_throws {A B} (m : M A) (k : A -> M B) s e s1 :
  m s = (Threw e, s1) -> bind m k s = (Threw e, s1).
Proof. unfold bind. by intros ->. Qed.

Lemma bind_gets {A B} (f : State -> A) (k : A -> M B) s :
  bind (gets f) k s = k (f s) s.
Proof. reflexivity. Qed.

Lemma bind_ret {A B} (a : A) (k : A -> M B) s : bind (ret a) k s = k a s.
Proof. reflexivity. Qed.

Lemma bind_modify {B} (f : State -> State) (k : unit -> M B) s :
  bind (modify f) k s = k tt (f s).
Proof. reflexivity. Qed.

(** *** Pairing *)

Section Pairing.

Variable world : World.
Variable inherits : ErrorClass -> ErrorClass -> bool.
Variable isIPv6 : string -> bool.

Lemma sameRecords_openChannel b a : preserves sameRecords (openChannel world b a).
Proof. sameRecords_op. Qed.

Lemma sameRecords_createInsecureSession p :
  preserves sameRecords (createInsecureSession p).
Proof. unfold createInsecureSession. sameRecords_op. Qed.

Lemma sameRecords_establishSecureSession a exchange expected :
  preserves sameRecords (establishSecureSession world inherits a exchange expected).
Proof.
  unfold establishSecureSession, initiateExchangeWithChannel, exchangeClose.
  sameRecords_op.
Qed.

Lemma sameRecords_sessionDestroy u : preserves sameRecords (sessionDestroy world u).
Proof. unfold sessionDestroy. sameRecords_op. Qed.

Lemma sameRecords_removeAllSessionsForNode a b :
  preserves sameRecords (removeAllSessionsForNode world a b).
Proof. unfold removeAllSessionsForNode. sameRecords_op. Qed.

(** What the last two steps of pair do, after the insecure session was
    destroyed: the channel is registered if setChannel does not fail. *)
Lemma register_outcome (s0 : State) a messageChannel :
  hoare (sameRecords s0)
    (setChannel world a messageChannel;; ret messageChannel)
    (λ returned s',
       returned = messageChannel /\
       peers s' = peers s0 /\ peersByAddress s' = peersByAddress s0 /\
       peerObjects s' = peerObjects s0 /\ store s' = store s0 /\
       resumptionRecords s' = resumptionRecords s0 /\
       channels s' = <[a := messageChannel]> (channels s0) /\
       last (calls s') = Some (SetChannel a messageChannel))
    (λ _, sameRecords s0).
Proof.
  intros s (H1 & H2 & H3 & H4 & H5 & H6).
  unfold setChannel, call, bind, modify, ret.
  destruct (rejects world (calls s) (SetChannel a messageChannel)); cbn.
  - by repeat split.
  - rewrite H6, last_snoc. by repeat split.
Qed.

(** What pair leaves alone, and what it does to the channels. *)
Lemma pair_outcome a known data expected (s0 : State) :
  hoare (sameRecords s0) (pair world inherits isIPv6 a known data expected)
    (λ messageChannel s',
       peers s' = peers s0 /\ peersByAddress s' = peersByAddress s0 /\
       peerObjects s' = peerObjects s0 /\ store s' = store s0 /\
       resumptionRecords s' = resumptionRecords s0 /\
       channels s' = <[a := messageChannel]> (channels s0) /\
       last (calls s') = Some (SetChannel a messageChannel))
    (λ _, sameRecords s0).
Proof.
  unfold pair. cbv zeta.
  eapply (hoare_bind _ _ _ (λ _, sameRecords s0)); [by apply hoare_gets|].
  intros hasInterface. destruct hasInterface; cbn [negb]; [|by apply hoare_throw].
  eapply hoare_bind;
    [apply (hoare_preserves _ _ _ sameRecords_trans), sameRecords_openChannel|].
  intros operationalChannel.
  eapply (hoare_bind _ _ _ (λ _, sameRecords s0)); [by apply hoare_gets|].
  intros sessionParameters.
  eapply hoare_bind;
    [apply (hoare_preserves _ _ _ sameRecords_trans), sameRecords_createInsecureSession|].
  intros unsecureSession. cbv zeta.
  eapply hoare_bind;
    [apply (hoare_preserves _ _ _ sameRecords_trans), sameRecords_establishSecureSession|].
  intros operationalSecureSession.
  eapply hoare_bind;
    [apply (hoare_preserves _ _ _ sameRecords_trans), sameRecords_sessionDestroy|].
  intros ?.
  eapply hoare_consequence; [apply (register_outcome s0) | auto | | auto].
  cbn beta. intros returned s (-> & H). exact H.
Qed.

(** X12. pair registers a channel exactly when it returns.  However the
    collaborators answer, pair leaves the peers, the index, the stored
    records and the resumption records alone.  When it returns a channel,
    that channel has just been registered for the address and setChannel
    was its last call; when it throws, the channels are as before.  With
    no interface for the address family of the operational address it
    throws a PairRetransmissionLimitReachedError and has done nothing. *)
Theorem pair_registers_exactly_on_success (a : PeerAddress) (known : ServerAddressIp)
  (data : option DiscoveryData) (expected : option N) (s : State) :
  let r := pair world inherits isIPv6 a known data expected s in
  peers r.2 = peers s /\ peersByAddress r.2 = peersByAddress s /\
  peerObjects r.2 = peerObjects s /\ store r.2 = store s /\
  resumptionRecords r.2 = resumptionRecords s /\
  match r.1 with
  | Returned messageChannel =>
      channels r.2 = <[a := messageChannel]> (channels s) /\
      last (calls r.2) = Some (SetChannel a messageChannel)
  | Threw e => channels r.2 = channels s
  end /\
  ((if isIPv6 (ip known) then "::" else "0.0.0.0") ∉ udpInterfaces s ->
   r.2 = s /\
   exists text, r.1 = Threw (newError PairRetransmissionLimitReachedError text)).
Proof.
  cbn zeta.
  pose proof (hoare_run _ _ _ _ s (pair_outcome a known data expected s)
                (sameRecords_refl s)) as H.
  split; [|split; [|split; [|split; [|split; [|split]]]]].
  7:{ intros Hmissing.
      assert (Hresult : exists text,
                pair world inherits isIPv6 a known data expected s
                = (Threw (newError PairRetransmissionLimitReachedError text), s)).
      { eexists. unfold pair. cbv zeta. unfold bind at 1, gets at 1.
        rewrite (bool_decide_eq_false_2 _ Hmissing). reflexivity. }
      destruct Hresult as [text ->]. split; [reflexivity | by eexists]. }
  all: destruct (pair world inherits isIPv6 a known data expected s).1 as [ch|e];
    cbn in H; unfold sameRecords in H; intuition.
Qed.

Lemma establishSecureSession_case_fails a exchange expected s e :
  rejects world (calls s) (InitiateExchangeWithChannel exchange) = None ->
  pairs world (app (calls s) [InitiateExchangeWithChannel exchange]) a expected = inl e ->
  rejects world (app (calls s) [InitiateExchangeWithChannel exchange; CasePair a expected])
    ExchangeClose = None ->
  establishSecureSession world inherits a exchange expected s
  = (Threw (if instanceOf inherits e NoResponseTimeoutError
            then newError PairRetransmissionLimitReachedError (message e)
            else e),
     withCalls (λ l, app l [InitiateExchangeWithChannel exchange; CasePair a expected;
                            ExchangeClose]) s).
Proof.
  intros Hinitiate Hcase Hclose.
  unfold establishSecureSession, tryCatch, initiateExchangeWithChannel, bind, call.
  rewrite Hinitiate. unfold casePair. cbn [calls withCalls]. rewrite Hcase.
  unfold exchangeClose, call. cbn [calls withCalls]. rewrite <- app_assoc. cbn [app].
  rewrite Hclose. unfold throw.
  destruct (instanceOf inherits e NoResponseTimeoutError);
    unfold_with; cbn; rewrite <- !app_assoc; reflexivity.
Qed.

(** X13. A failed CASE run.  When the channel opens, the exchange is
    initiated, CASE fails with an error and the exchange closes, pair
    throws: a PairRetransmissionLimitReachedError with the message of the
    error if that is a NoResponseTimeoutError, the error itself otherwise.
    The exchange was closed, the insecure session that pair created is not
    destroyed, no channel is registered, and sessions and cached data are
    as before. *)
Theorem pair_closes_exchange_when_case_fails (a : PeerAddress) (known : ServerAddressIp)
  (data : option DiscoveryData) (expected : option N) (s : State)
  (opened : TransportChannel) (e : Error) :
  let bindAddress := if isIPv6 (ip known) then "::" else "0.0.0.0" in
  let sessionParameters := resumptionRecords s !! a in
  let parameters :=
    {| idleIntervalMs := orElse (data ≫= SII) (sessionParameters ≫= idleIntervalMs);
       activeIntervalMs := orElse (data ≫= SAI) (sessionParameters ≫= activeIntervalMs);
       activeThresholdMs :=
         orElse (data ≫= SAT) (sessionParameters ≫= activeThresholdMs) |} in
  let exchange := {| channel := opened;
                     session := {| sessionId := nextId s; isSecure := false |} |} in
  let prepared := app (calls s) [OpenChannel bindAddress known;
                                 CreateInsecureSession parameters] in
  bindAddress ∈ udpInterfaces s ->
  opens world (calls s) bindAddress known = inr opened ->
  rejects world prepared (InitiateExchangeWithChannel exchange) = None ->
  pairs world (app prepared [InitiateExchangeWithChannel exchange]) a expected = inl e ->
  rejects world (app prepared [InitiateExchangeWithChannel exchange; CasePair a expected])
    ExchangeClose = None ->
  let r := pair world inherits isIPv6 a known data expected s in
  r.1 = Threw (if instanceOf inherits e NoResponseTimeoutError
               then newError PairRetransmissionLimitReachedError (message e)
               else e) /\
  calls r.2
  = app prepared [InitiateExchangeWithChannel exchange; CasePair a expected; ExchangeClose] /\
  channels r.2 = channels s /\ nodeSessions r.2 = nodeSessions s /\
  nodeCachedData r.2 = nodeCachedData s.
Proof.
  intros bindAddress sessionParameters parameters exchange prepared
    Hinterface Hopens Hinitiate Hcase Hclose. cbn zeta.
  set (s2 := withNextId S (withCalls (λ l, app l [CreateInsecureSession parameters])
               (withCalls (λ l, app l [OpenChannel bindAddress known]) s))).
  assert (Hprepared : calls s2 = prepared).
  { unfold s2, prepared. cbn. by rewrite <- app_assoc. }
  assert (Hresult : pair world inherits isIPv6 a known data expected s
            = (Threw (if instanceOf inherits e NoResponseTimeoutError
                      then newError PairRetransmissionLimitReachedError (message e)
                      else e),
               withCalls (λ l, app l [InitiateExchangeWithChannel exchange;
                                      CasePair a expected; ExchangeClose]) s2)).
  { unfold pair. cbv zeta. fold bindAddress.
    erewrite bind_returns;
      [|unfold gets; by rewrite (bool_decide_eq_true_2 _ Hinterface)].
    cbn [negb].
    erewrite bind_returns; [|unfold openChannel; by rewrite Hopens].
    erewrite bind_returns; [|reflexivity].
    cbn [resumptionRecords withCalls]. fold sessionParameters. fold parameters.
    erewrite bind_returns; [|reflexivity].
    cbn [nextId withCalls]. fold exchange. fold s2.
    erewrite bind_throws; [reflexivity|].
    apply establishSecureSession_case_fails; by rewrite Hprepared. }
  rewrite Hresult. cbn [fst snd calls withCalls]. rewrite Hprepared.
  repeat split; reflexivity.
Qed.

End Pairing.

Lemma pair_closes_exchange_when_case_fails_witness :
  let e := newError NoResponseTimeoutError "no answer" in
  let r := pair (Samples.refusing e) Samples.hierarchy Samples.hasColon
             Samples.peer_1_5 Samples.endpoint None None PeerSet.initial in
  r.1 = Threw (newError PairRetransmissionLimitReachedError "no answer") /\
  channels r.2 = channels PeerSet.initial.
Proof.
  cbn zeta.
  destruct (pair_closes_exchange_when_case_fails
              (Samples.refusing (newError NoResponseTimeoutError "no answer"))
              Samples.hierarchy Samples.hasColon
              Samples.peer_1_5 Samples.endpoint None None PeerSet.initial 7
              (newError NoResponseTimeoutError "no answer"))
    as (Hthrown & _ & Hchannels & _).
  - vm_compute. apply list_elem_of_here.
  - reflexivity.
  - reflexivity.
  - reflexivity.
  - reflexivity.
  - split; [exact Hthrown | exact Hchannels].
Defined.

(** *** Filing a peer *)

Section Filing.

Variable world : World.
Variable inherits : ErrorClass -> ErrorClass -> bool.
Variable isIPv6 : string -> bool.

Lemma addPeer_returns peer s :
  addPeer peer s
  = (Returned (nextId s),
     withPeersByAddress <[address peer := nextId s]>
       (withPeers (λ l, app l [nextId s])
          (withPeerObjects <[nextId s := peer]> (withNextId S s)))).
Proof. reflexivity. Qed.

(** addOrUpdatePeer is the write of the updated peer to the store, from a
    state in which that peer is filed under the address. *)
Lemma addOrUpdatePeer_steps a operationalServerAddress data s :
  indexed s ->
  let updated := updatedPeer a operationalServerAddress data s in
  exists ref s1,
    addOrUpdatePeer world a operationalServerAddress data s = updatePeer world updated s1 /\
    peersByAddress s1 !! a = Some ref /\ peerObjects s1 !! ref = Some updated /\
    calls s1 = calls s /\ channels s1 = channels s /\ nodeSessions s1 = nodeSessions s /\
    store s1 = store s /\ nodeCachedData s1 = nodeCachedData s /\
    runningPeerDiscoveries s1 = runningPeerDiscoveries s.
Proof.
  intros Hindexed. cbn zeta. unfold updatedPeer, addOrUpdatePeer.
  rewrite bind_gets.
  destruct (peersByAddress s !! a) as [ref|] eqn:Hknown; cbn [mbind option_bind].
  - destruct (Hindexed a ref Hknown) as [_ Haddress].
    destruct (peerObjects s !! ref) as [old|] eqn:Hold; cbn in Haddress; [|discriminate].
    injection Haddress as Haddress. cbn [mbind option_bind].
    rewrite bind_ret, bind_modify.
    destruct data as [d|]; rewrite ?bind_modify, ?bind_ret, bind_gets.
    + assert (Hobject : peerObjects
                (withPeerObjects
                   (alter (λ p, {| address := address p;
                                   operationalAddress := operationalAddress p;
                                   discoveryData :=
                                     Some (spread (discoveryData p) (Some d)) |}) ref)
                   (withPeerObjects
                      (alter (λ p, {| address := address p;
                                      operationalAddress := Some operationalServerAddress;
                                      discoveryData := discoveryData p |}) ref) s)) !! ref
              = Some {| address := a; operationalAddress := Some operationalServerAddress;
                        discoveryData := Some (spread (discoveryData old) (Some d)) |}).
      { unfold_with. cbn [peerObjects]. rewrite !lookup_alter_eq, Hold. cbn.
        by rewrite Haddress. }
      rewrite Hobject. eexists ref, _. split; [reflexivity|]. rewrite Hobject.
      repeat split; auto.
    + assert (Hobject : peerObjects
                (withPeerObjects
                   (alter (λ p, {| address := address p;
                                   operationalAddress := Some operationalServerAddress;
                                   discoveryData := discoveryData p |}) ref) s) !! ref
              = Some {| address := a; operationalAddress := Some operationalServerAddress;
                        discoveryData := discoveryData old |}).
      { unfold_with. cbn [peerObjects]. rewrite !lookup_alter_eq, Hold. cbn.
        by rewrite Haddress. }
      rewrite Hobject. eexists ref, _. split; [reflexivity|]. rewrite Hobject.
      repeat split; auto.
  - rewrite (bind_returns _ _ _ _ _ (addPeer_returns _ _)), bind_modify.
    set (s0 := withPeersByAddress _ _).
    assert (Hfiled : peersByAddress s0 !! a = Some (nextId s)).
    { unfold s0. unfold_with. cbn. apply lookup_insert_eq. }
    destruct data as [d|]; rewrite ?bind_modify, ?bind_ret, bind_gets.
    + match goal with
      | |- context [match ?x with Some _ => _ | None => _ end] =>
          assert (Hobject : x = Some {| address := a;
                                        operationalAddress := Some operationalServerAddress;
                                        discoveryData := Some (spread None (Some d)) |})
      end.
      { unfold withPeerObjects at 1 2. cbn [peerObjects]. rewrite !lookup_alter_eq.
        unfold s0. unfold_with. cbn [peerObjects]. by rewrite lookup_insert_eq. }
      rewrite Hobject. eexists (nextId s), _. split; [reflexivity|]. rewrite Hobject.
      repeat split; auto.
    + match goal with
      | |- context [match ?x with Some _ => _ | None => _ end] =>
          assert (Hobject : x = Some {| address := a;
                                        operationalAddress := Some operationalServerAddress;
                                        discoveryData := None |})
      end.
      { unfold withPeerObjects at 1. cbn [peerObjects]. rewrite !lookup_alter_eq.
        unfold s0. unfold_with. cbn [peerObjects]. by rewrite lookup_insert_eq. }
      rewrite Hobject. eexists (nextId s), _. split; [reflexivity|]. rewrite Hobject.
      repeat split; auto.
Qed.

Lemma addOrUpdatePeer_outcome a operationalServerAddress data s :
  indexed s ->
  let updated := updatedPeer a operationalServerAddress data s in
  let r := addOrUpdatePeer world a operationalServerAddress data s in
  (exists ref, peersByAddress r.2 !! a = Some ref /\ peerObjects r.2 !! ref = Some updated) /\
  calls r.2 = app (calls s) [UpdatePeer updated] /\
  channels r.2 = channels s /\ nodeSessions r.2 = nodeSessions s /\
  nodeCachedData r.2 = nodeCachedData s /\
  runningPeerDiscoveries r.2 = runningPeerDiscoveries s /\
  match rejects world (calls s) (UpdatePeer updated) with
  | Some e => r.1 = Threw e /\ store r.2 = store s
  | None => r.1 = Returned tt /\ store r.2 = <[a := updated]> (store s)
  end.
Proof.
  intros Hindexed. cbn zeta.
  destruct (addOrUpdatePeer_steps a operationalServerAddress data s Hindexed)
    as (ref & s1 & -> & Hfiled & Hobject & Hcalls & Hchannels & Hsessions & Hstore
        & Hcache & Hrunning).
  unfold updatePeer, call, bind, modify. rewrite Hcalls.
  destruct (rejects world (calls s) _) as [e|]; unfold_with; cbn;
    rewrite Hcalls, ?Hstore; (split; [eauto|]); auto 10.
Qed.

Lemma indexed_sameRecords s s' : sameRecords s s' -> indexed s -> indexed s'.
Proof. intros (Hp & Hi & Ho & _). unfold indexed. by rewrite Hp, Hi, Ho. Qed.

(** X14. addOrUpdatePeer files the peer and writes it to the store.  In a
    set whose index is in step, the call leaves under the address a peer
    with the given operational address; its discovery data are the ones
    it had, overridden field by field by the ones given.  The peer is
    then written to the store: if that write fails, its error is thrown
    and the store is as before, while the peer in the set is already
    updated. *)
Theorem addOrUpdatePeer_files_the_peer (a : PeerAddress)
  (operationalServerAddress : ServerAddressIp) (data : option DiscoveryData) (s : State) :
  indexed s ->
  let updated := updatedPeer a operationalServerAddress data s in
  let r := addOrUpdatePeer world a operationalServerAddress data s in
  (exists ref, (get (ByAddress a) r.2).1 = Returned (Some (ref, updated))) /\
  calls r.2 = app (calls s) [UpdatePeer updated] /\
  match rejects world (calls s) (UpdatePeer updated) with
  | Some e => r.1 = Threw e /\ store r.2 = store s
  | None => r.1 = Returned tt /\ store r.2 = <[a := updated]> (store s)
  end.
Proof.
  intros Hindexed. cbn zeta.
  destruct (addOrUpdatePeer_outcome a operationalServerAddress data s Hindexed)
    as ((ref & Hfiled & Hobject) & Hcalls & _ & _ & _ & _ & Hstore).
  split; [|split; [exact Hcalls | exact Hstore]].
  exists ref. unfold get, gets. cbn [fst]. rewrite Hfiled. cbn [mbind option_bind].
  by rewrite Hobject.
Qed.

(** X15. The outcomes of a direct reconnection.  In a set whose index is
    in step: when reconnectKnownAddress returns a channel, that channel
    is registered for the address and the peer is filed and stored with
    the operational address that was tried; when it returns undefined,
    the sessions of the address have just been removed; and an error it
    throws is no NoResponseTimeoutError, unless it comes from the removal
    of the sessions. *)
Theorem reconnectKnownAddress_outcomes (a : PeerAddress) (known : ServerAddressIp)
  (data : option DiscoveryData) (expected : option N) (s : State) :
  indexed s ->
  let r := reconnectKnownAddress world inherits isIPv6 a known data expected s in
  match r.1 with
  | Returned (Some messageChannel) =>
      channels r.2 !! a = Some messageChannel /\
      exists ref peer,
        (get (ByAddress a) r.2).1 = Returned (Some (ref, peer)) /\
        operationalAddress peer = Some known /\ store r.2 !! a = Some peer
  | Returned None =>
      nodeSessions r.2 !! a = None /\
      last (calls r.2) = Some (RemoveAllSessionsForNode a false)
  | Threw e =>
      instanceOf inherits e NoResponseTimeoutError = false \/
      last (calls r.2) = Some (RemoveAllSessionsForNode a false)
  end.
Proof.
  intros Hindexed. cbn zeta. unfold reconnectKnownAddress, tryCatch.
  destruct (bind (pair world inherits isIPv6 a known data expected) _ s)
    as [[result|e] s2] eqn:Hbody.
  - apply bind_Returned in Hbody as (messageChannel & s1 & Hpair & Hrest).
    apply bind_Returned in Hrest as ([] & s1' & Hadd & Hret).
    unfold ret in Hret. injection Hret as <- <-. cbn [fst snd].
    pose proof (hoare_run _ _ _ _ s (pair_outcome world inherits isIPv6 a known data
                                       expected s) (sameRecords_refl s)) as Hp.
    rewrite Hpair in Hp. cbn in Hp.
    destruct Hp as (Hp1 & Hp2 & Hp3 & _ & _ & Hchannels & _).
    assert (Hindexed1 : indexed s1).
    { unfold indexed. by rewrite Hp1, Hp2, Hp3. }
    destruct (addOrUpdatePeer_outcome a known None s1 Hindexed1)
      as ((ref & Hfiled & Hobject) & _ & Hsame & _ & _ & _ & Hstore).
    rewrite Hadd in Hfiled, Hobject, Hsame, Hstore. cbn [fst snd] in *.
    destruct (rejects world (calls s1) _); destruct Hstore as [Hresult Hstore];
      [discriminate|].
    split; [rewrite Hsame, Hchannels; apply lookup_insert_eq|].
    eexists ref, _. split; [|split].
    + unfold get, gets. cbn [fst]. rewrite Hfiled. cbn [mbind option_bind].
      by rewrite Hobject.
    + reflexivity.
    + rewrite Hstore. apply lookup_insert_eq.
  - destruct (instanceOf inherits e NoResponseTimeoutError) eqn:Htimeout; [|by left].
    unfold removeAllSessionsForNode, call, bind, modify, ret.
    destruct (rejects world (calls s2) _); cbn.
    + right. apply last_snoc.
    + split; [apply lookup_delete_eq | apply last_snoc].
Qed.

End Filing.

Lemma addOrUpdatePeer_files_the_peer_witness :
  let data := Some {| SII := Some 500%N; SAI := None; SAT := None |} in
  let updated := {| address := Samples.peer_1_5;
                    operationalAddress := Some Samples.endpoint;
                    discoveryData := data |} in
  let r := addOrUpdatePeer (Samples.answering false) Samples.peer_1_5 Samples.endpoint
             data PeerSet.initial in
  indexed PeerSet.initial /\
  (exists ref, (get (ByAddress Samples.peer_1_5) r.2).1 = Returned (Some (ref, updated))) /\
  calls r.2 = [UpdatePeer updated].
Proof.
  cbn zeta.
  assert (Hindexed : indexed PeerSet.initial).
  { apply (bool_decide_unpack _). vm_compute. reflexivity. }
  split; [exact Hindexed|].
  destruct (addOrUpdatePeer_files_the_peer (Samples.answering false) Samples.peer_1_5
              Samples.endpoint (Some {| SII := Some 500%N; SAI := None; SAT := None |})
              PeerSet.initial Hindexed)
    as (Hfiled & Hcalls & _).
  split; [exact Hfiled | exact Hcalls].
Defined.

Lemma reconnectKnownAddress_outcomes_witness :
  let r := reconnectKnownAddress Samples.unreachable Samples.hierarchy Samples.hasColon
             Samples.peer_1_5 Samples.endpoint None None Samples.connected in
  indexed Samples.connected /\
  r.1 = Returned None /\ nodeSessions r.2 !! Samples.peer_1_5 = None.
Proof.
  cbn zeta.
  assert (Hindexed : indexed Samples.connected).
  { apply (bool_decide_unpack _). vm_compute. reflexivity. }
  split; [exact Hindexed|].
  pose proof (reconnectKnownAddress_outcomes Samples.unreachable Samples.hierarchy
                Samples.hasColon Samples.peer_1_5 Samples.endpoint None None
                Samples.connected Hindexed) as H.
  cbn zeta in H.
  assert (Hresult : (reconnectKnownAddress Samples.unreachable Samples.hierarchy
                       Samples.hasColon Samples.peer_1_5 Samples.endpoint None None
                       Samples.connected).1 = Returned None).
  { vm_compute. reflexivity. }
  rewrite Hresult in H. split; [exact Hresult | exact (proj1 H)].
Defined.

(** *** The set and its index *)

Lemma keepsInStep_refl s : keepsInStep s s.
Proof. by intros H. Qed.

Lemma keepsInStep_trans s1 s2 s3 :
  keepsInStep s1 s2 -> keepsInStep s2 s3 -> keepsInStep s1 s3.
Proof. unfold keepsInStep. auto. Qed.

(** A step that leaves the set, the index and the objects alone and does
    not take an identity back keeps them in step. *)
Lemma inStep_frame s s' :
  peers s' = peers s -> peersByAddress s' = peersByAddress s ->
  peerObjects s' = peerObjects s -> nextId s <= nextId s' ->
  keepsInStep s s'.
Proof.
  intros Hp Hi Ho Hn (H1 & H2 & H3 & H4). unfold inStep, indexed in *.
  rewrite Hp, Hi, Ho. split; [exact H1|]. split; [exact H2|]. split; [exact H3|].
  intros r o Hr. specialize (H4 r o Hr). cbn in *. lia.
Qed.

Ltac keepsInStep_leaf :=
  first
    [ solve [auto]
    | solve [ intros ?; cbv [modify record call PeerSet.fresh openChannel casePair];
              repeat case_match; unfold_with; apply inStep_frame; cbn;
              first [reflexivity | lia] ] ].

Ltac keepsInStep_op :=
  cbv zeta; preserve keepsInStep_refl keepsInStep_trans keepsInStep_leaf.

Section InStep.

Variable world : World.
Variable inherits : ErrorClass -> ErrorClass -> bool.
Variable isIPv6 : string -> bool.

Lemma keepsInStep_pair a known data expected :
  preserves keepsInStep (pair world inherits isIPv6 a known data expected).
Proof.
  unfold pair, establishSecureSession, createInsecureSession,
    initiateExchangeWithChannel, exchangeClose, sessionDestroy, setChannel.
  keepsInStep_op.
Qed.

Lemma keepsInStep_removeAllSessionsForNode a b :
  preserves keepsInStep (removeAllSessionsForNode world a b).
Proof. unfold removeAllSessionsForNode. keepsInStep_op. Qed.

Lemma keepsInStep_updatePeer p : preserves keepsInStep (updatePeer world p).
Proof. unfold updatePeer. keepsInStep_op. Qed.

(** Rewriting the fields of a filed object other than its address. *)
Lemma keepsInStep_alter (f : OperationalPeer -> OperationalPeer) r :
  (forall p, address (f p) = address p) ->
  preserves keepsInStep (modify (withPeerObjects (alter f r))).
Proof.
  intros Hf s (H1 & H2 & H3 & H4). unfold modify. unfold_with. cbn [snd].
  unfold inStep, indexed. cbn.
  assert (Haddress : forall r', address <$> alter f r (peerObjects s) !! r'
                                = address <$> peerObjects s !! r').
  { intros r'. destruct (decide (r' = r)) as [->|Hne].
    - rewrite lookup_alter_eq. destruct (peerObjects s !! r); cbn; [by rewrite Hf | done].
    - by rewrite lookup_alter_ne. }
  split; [|split; [|split; [exact H3|]]].
  - intros a r' Hr'. destruct (H1 a r' Hr') as [Hin Ha]. split; [exact Hin|].
    by rewrite Haddress.
  - eapply Forall_impl; [exact H2|]. cbn. intros r' Hr'.
    pose proof (Haddress r') as Ha.
    destruct (peerObjects s !! r') as [o|] eqn:Ho; cbn in Hr'; [|discriminate].
    destruct (alter f r (peerObjects s) !! r') as [o'|]; cbn in Ha; [|discriminate].
    cbn. injection Ha as ->. exact Hr'.
  - intros r' o' Ho'. assert (Hsome : is_Some (peerObjects s !! r')).
    { apply (lookup_alter_is_Some f (peerObjects s) r r'). by eexists. }
    destruct Hsome as [o Ho]. by apply (H4 r' o).
Qed.

(** A new object for an address that has none. *)
Lemma inStep_addPeer peer s :
  peersByAddress s !! address peer = None ->
  inStep s -> inStep (addPeer peer s).2.
Proof.
  intros Hnone (H1 & H2 & H3 & H4). rewrite addPeer_returns. cbn [snd].
  unfold_with. unfold inStep, indexed. cbn.
  assert (Hout : nextId s ∉ peers s).
  { intros Hin. rewrite Forall_forall in H2. specialize (H2 _ Hin).
    match type of H2 with
    | (?x ≫= _) = _ => destruct x as [o|] eqn:Ho; [|discriminate]
    end.
    specialize (H4 _ _ Ho). cbn in H4. lia. }
  split; [|split; [|split]].
  - intros a r Hr. apply lookup_insert_Some in Hr as [[<- <-] | [Hne Hr]].
    + split; [apply elem_of_app; right; apply list_elem_of_here|].
      by rewrite lookup_insert_eq.
    + destruct (H1 a r Hr) as [Hin Ha]. split; [apply elem_of_app; by left|].
      rewrite lookup_insert_ne; [exact Ha|]. intros <-. by apply Hout.
  - apply Forall_app. split.
    + rewrite Forall_forall in H2 |- *. intros r Hin. specialize (H2 r Hin).
      rewrite lookup_insert_ne by (intros <-; by apply Hout).
      destruct (peerObjects s !! r) as [o|]; cbn in *; [|discriminate].
      rewrite lookup_insert_ne; [exact H2|].
      intros E. rewrite E in Hnone. congruence.
    + apply Forall_singleton. rewrite lookup_insert_eq. cbn. apply lookup_insert_eq.
  - apply NoDup_app. split; [exact H3|]. split; [|apply NoDup_singleton].
    intros r Hin Hr. apply list_elem_of_singleton in Hr as ->. by apply Hout.
  - intros r o Ho. apply lookup_insert_Some in Ho as [[<- _] | [_ Ho]]; cbn; [lia|].
    specialize (H4 r o Ho). cbn in H4. lia.
Qed.

Lemma keepsInStep_addOrUpdatePeer a known data :
  preserves keepsInStep (addOrUpdatePeer world a known data).
Proof.
  intros s Hs. unfold addOrUpdatePeer. rewrite bind_gets.
  pose proof keepsInStep_updatePeer as Hupdate.
  pose proof keepsInStep_alter as Halter.
  destruct (peersByAddress s !! a) as [ref|] eqn:Hknown.
  - rewrite bind_ret. revert s Hs Hknown.
    assert (Hrest : preserves keepsInStep
              (modify (withPeerObjects (alter (λ p,
                 {| address := address p; operationalAddress := Some known;
                    discoveryData := discoveryData p |}) ref));;
               (match data with
                | Some d =>
                    modify (withPeerObjects (alter (λ p,
                      {| address := address p; operationalAddress := operationalAddress p;
                         discoveryData := Some (spread (discoveryData p) (Some d)) |}) ref))
                | None => ret tt
                end);;
               let! peer := gets (λ t, peerObjects t !! ref) in
               match peer with
               | Some p => updatePeer world p
               | None => ret tt
               end)).
    { keepsInStep_op. }
    intros s Hs _. by apply Hrest.
  - rewrite (bind_returns _ _ _ _ _ (addPeer_returns _ _)).
    pose proof (inStep_addPeer {| address := a; operationalAddress := None;
                                  discoveryData := None |} s Hknown Hs) as Hadded.
    rewrite addPeer_returns in Hadded. cbn [snd] in Hadded. revert Hadded.
    generalize (withPeersByAddress
                  <[address {| address := a; operationalAddress := None;
                               discoveryData := None |} := nextId s]>
                  (withPeers (λ l, app l [nextId s])
                     (withPeerObjects
                        <[nextId s := {| address := a; operationalAddress := None;
                                         discoveryData := None |}]>
                        (withNextId S s)))).
    intros s0 Hs0.
    assert (Hrest : preserves keepsInStep
              (modify (withPeerObjects (alter (λ p,
                 {| address := address p; operationalAddress := Some known;
                    discoveryData := discoveryData p |}) (nextId s)));;
               (match data with
                | Some d =>
                    modify (withPeerObjects (alter (λ p,
                      {| address := address p; operationalAddress := operationalAddress p;
                         discoveryData := Some (spread (discoveryData p) (Some d)) |})
                      (nextId s)))
                | None => ret tt
                end);;
               let! peer := gets (λ t, peerObjects t !! nextId s) in
               match peer with
               | Some p => updatePeer world p
               | None => ret tt
               end)).
    { keepsInStep_op. }
    by apply Hrest.
Qed.

Lemma deleteFromPeers_returns r o s :
  deleteFromPeers r o s
  = (Returned (bool_decide (r ∈ peers s)),
     if bool_decide (r ∈ peers s)
     then withPeersByAddress (base.delete (address o)) (withPeers (filter (λ x, x ≠ r)) s)
     else s).
Proof.
  unfold deleteFromPeers. rewrite bind_gets. by destruct (bool_decide (r ∈ peers s)).
Qed.

(** Taking a filed peer out of the set and out of the index. *)
Lemma inStep_deleteFromPeers r o s :
  peersByAddress s !! address o = Some r -> peerObjects s !! r = Some o ->
  inStep s -> inStep (deleteFromPeers r o s).2.
Proof.
  intros Hfiled Hobject Hs. rewrite deleteFromPeers_returns. cbn [snd].
  destruct (bool_decide (r ∈ peers s)); [|exact Hs].
  destruct Hs as (H1 & H2 & H3 & H4). unfold_with. unfold inStep, indexed. cbn.
  rewrite Forall_forall in H2.
  split; [|split; [|split; [by apply NoDup_filter | exact H4]]].
  - intros a' r' Hr'. apply lookup_delete_Some in Hr' as [Hne Hr'].
    destruct (H1 a' r' Hr') as [Hin Ha']. split; [|exact Ha'].
    apply list_elem_of_filter. split; [|exact Hin].
    intros ->. rewrite Hobject in Ha'. cbn in Ha'. congruence.
  - apply Forall_forall. intros r' Hin. apply list_elem_of_filter in Hin as [Hne Hin].
    specialize (H2 r' Hin).
    match type of H2 with
    | (?x ≫= _) = _ => destruct x as [o'|] eqn:Ho'; [|discriminate]
    end.
    cbn in H2 |- *. rewrite lookup_delete_ne; [exact H2|].
    intros E. rewrite <- E, Hfiled in H2. congruence.
Qed.

Lemma keepsInStep_disconnect peer : preserves keepsInStep (disconnect world peer).
Proof.
  pose proof keepsInStep_removeAllSessionsForNode.
  unfold disconnect, get, removeAllNodeChannels. keepsInStep_op.
Qed.

Lemma keepsInStep_delete peer : preserves keepsInStep (delete world peer).
Proof.
  intros s Hs. unfold delete, get. rewrite bind_gets.
  destruct (peersByAddress s !! _) as [r|] eqn:Hfiled; cbn [mbind option_bind];
    [|exact Hs].
  destruct (peerObjects s !! r) as [o|] eqn:Hobject; cbn [mbind option_bind];
    [|exact Hs].
  assert (Haddress : peersByAddress s !! address o = Some r).
  { destruct Hs as (H1 & _). destruct (H1 _ _ Hfiled) as [_ Ha].
    rewrite Hobject in Ha. cbn in Ha. injection Ha as ->. exact Hfiled. }
  pose proof (inStep_deleteFromPeers r o s Haddress Hobject Hs) as Hdeleted.
  rewrite (bind_returns _ _ _ _ _ (deleteFromPeers_returns r o s)).
  rewrite deleteFromPeers_returns in Hdeleted. cbn [snd] in Hdeleted.
  revert Hdeleted. generalize (if bool_decide (r ∈ peers s)
     then withPeersByAddress (base.delete (address o)) (withPeers (filter (λ x, x ≠ r)) s)
     else s).
  intros s0 Hs0.
  assert (Hrest : preserves keepsInStep
            (deletePeer world (address o);;
             disconnect world (ByPeer o);;
             deleteResumptionRecord world (address o))).
  { pose proof keepsInStep_disconnect.
    unfold deletePeer, deleteResumptionRecord. keepsInStep_op. }
  by apply Hrest.
Qed.

Lemma keepsInStep_reconnectKnownAddress a known data expected :
  preserves keepsInStep (reconnectKnownAddress world inherits isIPv6 a known data expected).
Proof.
  pose proof keepsInStep_pair. pose proof keepsInStep_addOrUpdatePeer.
  pose proof keepsInStep_removeAllSessionsForNode.
  unfold reconnectKnownAddress. keepsInStep_op.
Qed.

Lemma keepsInStep_knownOperationalAddressFor a :
  preserves keepsInStep (knownOperationalAddressFor a).
Proof.
  unfold knownOperationalAddressFor, getDiscoveredOperationalDevice,
    getLastOperationalAddress.
  keepsInStep_op.
Qed.

Lemma keepsInStep_newInteractionClient a messageChannel data :
  preserves keepsInStep (newInteractionClient a messageChannel data).
Proof. unfold newInteractionClient. keepsInStep_op. Qed.

Lemma keepsInStep_anyPromise producers : preserves keepsInStep (anyPromise producers).
Proof.
  intros s. rewrite anyPromise_produces. unfold produced; unfold_with.
  by apply inStep_frame.
Qed.

Lemma keepsInStep_connect a o :
  preserves keepsInStep (connect world inherits isIPv6 a o).
Proof.
  pose proof keepsInStep_anyPromise.
  pose proof keepsInStep_reconnectKnownAddress.
  pose proof keepsInStep_removeAllSessionsForNode.
  pose proof keepsInStep_knownOperationalAddressFor.
  pose proof keepsInStep_newInteractionClient.
  unfold connect, resume, resumeFailed, connectOrDiscoverNode, cancelLowerDiscovery,
    reachDirectly, reuseOrStartDiscovery, startDiscovery,
    cancelOperationalDeviceDiscovery.
  keepsInStep_op.
Qed.

Lemma keepsInStep_serve request :
  preserves keepsInStep (serve world inherits isIPv6 request).
Proof.
  pose proof keepsInStep_connect. pose proof keepsInStep_disconnect.
  pose proof keepsInStep_delete. pose proof keepsInStep_reconnectKnownAddress.
  pose proof keepsInStep_removeAllSessionsForNode.
  pose proof keepsInStep_knownOperationalAddressFor.
  pose proof keepsInStep_newInteractionClient.
  pose proof keepsInStep_pair. pose proof keepsInStep_addOrUpdatePeer.
  destruct request; unfold serve, connectSettled, reconnectChannel, pairDiscovered,
    handleResubmissionStarted, resubmissionDiscoveryFinished, hasChannel, getChannel,
    removeAllNodeChannels.
  all: keepsInStep_op.
Qed.

(** X16. The set and its index stay in step.  Whatever is asked of a peer
    set, in whatever order, and however the collaborators answer: every
    address of the index leads to a peer of the set that carries that
    address, every peer of the set is filed under its own address, and
    the set holds no peer twice. *)
Theorem peers_and_index_stay_in_step (requests : list Request) (s : State) :
  inStep s -> inStep (served world inherits isIPv6 requests s).
Proof.
  revert s. induction requests as [|request requests IH]; intros s Hs; cbn; [exact Hs|].
  apply IH. by apply keepsInStep_serve.
Qed.

End InStep.

Lemma peers_and_index_stay_in_step_witness :
  let requests :=
    [Connect Samples.peer_1_5 (Samples.requesting NodeDiscoveryType.FullDiscovery None);
     PairDiscovered Samples.peer_1_5 Samples.endpoint
       {| SII := Some 500%N; SAI := None; SAT := None |} None;
     Delete (ByAddress Samples.peer_1_5)] in
  inStep PeerSet.initial /\
  inStep (served (Samples.answering false) Samples.hierarchy Samples.hasColon requests
            PeerSet.initial).
Proof.
  cbn zeta.
  assert (Hinitial : inStep PeerSet.initial).
  { apply (bool_decide_unpack _). vm_compute. reflexivity. }
  split; [exact Hinitial|].
  by apply peers_and_index_stay_in_step.
Defined.

(** *** The rendering of addresses *)

Lemma decimal_digits_only d :
  allDigits (DecimalString.NilEmpty.string_of_uint d) = true.
Proof. induction d; cbn; auto. Qed.

Lemma decimal_allDigits n : allDigits (decimal n) = true.
Proof.
  unfold decimal, DecimalString.NilZero.string_of_uint.
  destruct (N.to_uint n); try reflexivity; apply (decimal_digits_only (_ _)).
Qed.

Lemma decimal_inj m n : decimal m = decimal n -> m = n.
Proof.
  unfold decimal. intros H.
  assert (Hnonnil : forall k, N.to_uint k <> Decimal.Nil).
  { intros [|p]; [discriminate | apply DecimalPos.Unsigned.to_uint_nonnil]. }
  apply (f_equal DecimalString.NilZero.uint_of_string) in H.
  rewrite !DecimalString.NilZero.usu in H by apply Hnonnil.
  injection H as H. apply (f_equal N.of_uint) in H.
  by rewrite !DecimalN.Unsigned.of_to in H.
Qed.

Lemma hexadecimal_inj m n : hexadecimal m = hexadecimal n -> m = n.
Proof.
  unfold hexadecimal. intros H.
  assert (Hnonnil : forall k, N.to_hex_uint k <> Hexadecimal.Nil).
  { intros [|p]; [discriminate | apply HexadecimalPos.Unsigned.to_uint_nonnil]. }
  apply (f_equal HexadecimalString.NilZero.uint_of_string) in H.
  rewrite !HexadecimalString.NilZero.usu in H by apply Hnonnil.
  injection H as H. apply (f_equal N.of_hex_uint) in H.
  by rewrite !HexadecimalN.Unsigned.of_to in H.
Qed.

(** Two numerals followed by a colon end at the same place. *)
Lemma split_at_colon (u : string) : forall v x y,
  allDigits u = true -> allDigits v = true ->
  u ++ String ":"%char x = v ++ String ":"%char y -> u = v /\ x = y.
Proof.
  induction u as [|c u IH]; intros [|c' v] x y Hu Hv H.
  - change (String ":"%char x = String ":"%char y) in H. by injection H.
  - change (String ":"%char x = String c' (v ++ String ":"%char y)) in H.
    injection H as <- _. discriminate.
  - change (String c (u ++ String ":"%char x) = String ":"%char y) in H.
    injection H as -> _. discriminate.
  - change (String c (u ++ String ":"%char x) = String c' (v ++ String ":"%char y)) in H.
    injection H as <- H.
    change (isDigit c && allDigits u = true) in Hu.
    change (isDigit c && allDigits v = true) in Hv.
    apply andb_prop in Hu as [_ Hu]. apply andb_prop in Hv as [_ Hv].
    destruct (IH v x y Hu Hv H) as [-> ->]. done.
Qed.

Lemma append_cancel_l (u x y : string) : u ++ x = u ++ y -> x = y.
Proof.
  induction u as [|c u IH]; intros H; [exact H|].
  change (String c (u ++ x) = String c (u ++ y)) in H. injection H as H. by apply IH.
Qed.

Lemma hexadecimal_prefix (text : string) : allDigits ("0x" ++ text) = false.
Proof. reflexivity. Qed.

(** X17. Addresses render apart.  Two interned addresses with the same
    string form have the same fabric index and the same node id: the
    rendering [peer@<fabric index>:<node id>], with the node id in
    hexadecimal above 0xffff, never confuses two addresses. *)
Theorem toString_is_injective (a b : PeerAddress) :
  toString a = toString b -> a = b.
Proof.
  unfold toString. cbv zeta. intros H.
  apply append_cancel_l in H.
  apply (split_at_colon (decimal (fabricIndex a)) (decimal (fabricIndex b))) in H
    as [Hfabric Hnode]; try apply decimal_allDigits.
  apply decimal_inj in Hfabric.
  assert (Hnodes : nodeId a = nodeId b).
  { destruct (0xffff <? nodeId a)%N eqn:Ha, (0xffff <? nodeId b)%N eqn:Hb.
    - apply append_cancel_l in Hnode. by apply hexadecimal_inj.
    - apply (f_equal allDigits) in Hnode.
      rewrite decimal_allDigits, hexadecimal_prefix in Hnode. discriminate.
    - apply (f_equal allDigits) in Hnode.
      rewrite decimal_allDigits, hexadecimal_prefix in Hnode. discriminate.
    - by apply decimal_inj. }
  destruct a, b; cbn in *. congruence.
Qed.

Lemma toString_is_injective_witness :
  toString {| fabricIndex := 1; nodeId := 70000 |} = "peer@1:0x11170" /\
  {| fabricIndex := 1; nodeId := 70000 |} = {| fabricIndex := 1; nodeId := 0x11170 |}.
Proof.
  split; [reflexivity|]. apply toString_is_injective. reflexivity.
Defined.

(** *** Loading the stored peers *)

Lemma loadPeers_cons peer rest s :
  loadPeers (peer :: rest) s = loadPeers rest (addPeer peer s).2.
Proof.
  cbn [loadPeers]. by rewrite (bind_returns _ _ _ _ _ (addPeer_returns _ _)), addPeer_returns.
Qed.

(** A new object is filed under its address. *)
Lemma addPeer_files peer s :
  peersByAddress (addPeer peer s).2 !! address peer = Some (nextId s) /\
  peerObjects (addPeer peer s).2 !! nextId s = Some peer.
Proof.
  rewrite addPeer_returns. cbn [snd]. unfold_with. cbn. split; apply lookup_insert_eq.
Qed.

(** A new object leaves the peers that are filed where they are. *)
Lemma addPeer_keeps_filed peer s a r o :
  inStep s -> address peer <> a ->
  peersByAddress s !! a = Some r -> peerObjects s !! r = Some o ->
  let s' := (addPeer peer s).2 in
  peersByAddress s' !! a = Some r /\ peerObjects s' !! r = Some o.
Proof.
  intros (_ & _ & _ & H4) Hne Hfiled Hobject. rewrite addPeer_returns. cbn [snd].
  unfold_with. cbn. split; [by rewrite lookup_insert_ne|].
  rewrite lookup_insert_ne; [exact Hobject|].
  intros <-. specialize (H4 _ _ Hobject). cbn in H4. lia.
Qed.

Lemma loadPeers_outcome stored : forall s,
  inStep s -> NoDup (address <$> stored) ->
  (forall p, p ∈ stored -> peersByAddress s !! address p = None) ->
  let r := loadPeers stored s in
  r.1 = Returned tt /\ inStep r.2 /\
  (forall p, p ∈ stored ->
     exists ref, peersByAddress r.2 !! address p = Some ref /\
                 peerObjects r.2 !! ref = Some p) /\
  (forall a ref o, (forall p, p ∈ stored -> address p <> a) ->
     peersByAddress s !! a = Some ref -> peerObjects s !! ref = Some o ->
     peersByAddress r.2 !! a = Some ref /\ peerObjects r.2 !! ref = Some o) /\
  length (peers r.2) = length (peers s) + length stored /\
  calls r.2 = calls s.
Proof.
  induction stored as [|peer rest IH]; intros s Hs Hnd Hnew; cbn zeta.
  - cbn. split; [reflexivity|]. split; [exact Hs|].
    split; [intros p Hp; by apply elem_of_nil in Hp|]. split; [auto|].
    split; [lia | reflexivity].
  - rewrite loadPeers_cons. rewrite fmap_cons in Hnd. apply NoDup_cons in Hnd as [Hhead Hnd].
    assert (Hnone : peersByAddress s !! address peer = None).
    { apply Hnew, list_elem_of_here. }
    pose proof (inStep_addPeer peer s Hnone Hs) as Hs1.
    pose proof (addPeer_files peer s) as Hfiled.
    assert (Hdistinct : forall p, p ∈ rest -> address p <> address peer).
    { intros p Hp E. apply Hhead. rewrite <- E. apply list_elem_of_fmap. eauto. }
    assert (Hnew1 : forall p, p ∈ rest ->
                      peersByAddress (addPeer peer s).2 !! address p = None).
    { intros p Hp. rewrite addPeer_returns. cbn [snd]. unfold_with. cbn.
      rewrite lookup_insert_ne by (intros E; by apply (Hdistinct p Hp)).
      by apply Hnew, list_elem_of_further. }
    assert (Hlength : length (peers (addPeer peer s).2) = S (length (peers s))).
    { rewrite addPeer_returns. cbn [snd]. unfold_with. cbn. rewrite length_app. cbn. lia. }
    assert (Hcalls : calls (addPeer peer s).2 = calls s).
    { by rewrite addPeer_returns. }
    destruct (IH (addPeer peer s).2 Hs1 Hnd Hnew1)
      as (Hresult & Hstep & Hloaded & Hkept & Hcount & Hquiet).
    split; [exact Hresult|]. split; [exact Hstep|]. split; [|split; [|split]].
    + intros p Hp. apply elem_of_cons in Hp as [-> | Hp]; [|by apply Hloaded].
      exists (nextId s). destruct Hfiled as [Hindex Hobject].
      apply Hkept; [exact Hdistinct | exact Hindex | exact Hobject].
    + intros a ref o Hother Hfiled' Hobject'.
      apply Hkept; [intros p Hp; by apply Hother, list_elem_of_further| |].
      all: apply (addPeer_keeps_filed peer s a ref o Hs); auto;
        apply Hother, list_elem_of_here.
    + rewrite Hcount, Hlength. cbn. lia.
    + by rewrite Hquiet.
Qed.

(** X25. Loading the stored peers.  When the store hands out peers with
    pairwise different addresses, none of them filed yet, the initializer
    of the peer set adds them all without calling a collaborator: set and
    index are in step afterwards and get finds every loaded peer under
    its address.  When the store hands out two peers with the same
    address, both are in the set but get finds only the second. *)
Theorem loaded_peers_are_filed (stored : list OperationalPeer) (s : State) :
  inStep s ->
  (forall p, p ∈ stored -> peersByAddress s !! address p = None) ->
  let r := loadPeers stored s in
  r.1 = Returned tt /\ calls r.2 = calls s /\
  length (peers r.2) = length (peers s) + length stored /\
  (NoDup (address <$> stored) ->
   inStep r.2 /\
   forall p, p ∈ stored ->
     exists ref, (get (ByAddress (address p)) r.2).1 = Returned (Some (ref, p))) /\
  (forall p q, stored = [p; q] -> address p = address q ->
     exists ref, (get (ByAddress (address p)) r.2).1 = Returned (Some (ref, q))).
Proof.
  intros Hs Hnew. cbn zeta.
  assert (Hquiet : forall l t, (loadPeers l t).1 = Returned tt /\
                               calls (loadPeers l t).2 = calls t /\
                               length (peers (loadPeers l t).2) = length (peers t) + length l).
  { induction l as [|peer rest IH]; intros t; [cbn; auto|].
    rewrite loadPeers_cons. destruct (IH (addPeer peer t).2) as (H1 & H2 & H3).
    rewrite H1, H2, H3, addPeer_returns. cbn [snd]. unfold_with. cbn.
    rewrite length_app. cbn. split; [done|]. split; [done | lia]. }
  destruct (Hquiet stored s) as (Hresult & Hcalls & Hlength).
  split; [exact Hresult|]. split; [exact Hcalls|]. split; [exact Hlength|]. split.
  - intros Hnd.
    destruct (loadPeers_outcome stored s Hs Hnd Hnew) as (_ & Hstep & Hloaded & _).
    split; [exact Hstep|]. intros p Hp. destruct (Hloaded p Hp) as (ref & Hfiled & Hobject).
    exists ref. unfold get, gets. cbn [fst]. rewrite Hfiled. cbn [mbind option_bind].
    by rewrite Hobject.
  - intros p q -> Haddress. rewrite !loadPeers_cons. cbn [loadPeers ret snd].
    destruct (addPeer_files q (addPeer p s).2) as [Hindex Hobject].
    exists (nextId (addPeer p s).2).
    unfold get, gets. cbn [fst]. rewrite Haddress.
    match goal with
    | |- Returned (?x ≫= _) = _ =>
        replace x with (Some (nextId (addPeer p s).2)) by (symmetry; exact Hindex)
    end.
    cbn [mbind option_bind].
    match goal with
    | |- Returned (?x ≫= _) = _ => replace x with (Some q) by (symmetry; exact Hobject)
    end.
    reflexivity.
Qed.

Lemma loaded_peers_are_filed_witness :
  let lamp := {| address := Samples.peer_1_5; operationalAddress := Some Samples.endpoint;
                 discoveryData := None |} in
  let plug := {| address := {| fabricIndex := 1; nodeId := 6 |};
                 operationalAddress := None; discoveryData := None |} in
  let r := loadPeers [lamp; plug] PeerSet.initial in
  inStep PeerSet.initial /\ r.1 = Returned tt /\ length (peers r.2) = 2.
Proof.
  cbn zeta.
  assert (Hinitial : inStep PeerSet.initial).
  { apply (bool_decide_unpack _). vm_compute. reflexivity. }
  split; [exact Hinitial|].
  destruct (loaded_peers_are_filed
              [ {| address := Samples.peer_1_5; operationalAddress := Some Samples.endpoint;
                   discoveryData := None |};
                {| address := {| fabricIndex := 1; nodeId := 6 |};
                   operationalAddress := None; discoveryData := None |} ]
              PeerSet.initial Hinitial)
    as (Hresult & _ & Hlength & _).
  - intros p _. apply lookup_empty.
  - split; [exact Hresult | exact Hlength].
Defined.

End PeerSetSpec.

(** ** Part store service *)

Module PartStoreServiceSpec.
Import PartStoreService.

Lemma rem_succ_small (next : Z) :
  (-0xffff < next)%Z -> (next < 2)%Z -> Z.rem (next + 1) 0xffff = (next + 1)%Z.
Proof.
  intros Hlo Hhi. destruct (Z.le_gt_cases 0 (next + 1)) as [Hpos | Hneg].
  - apply Z.rem_small. lia.
  - rewrite <- (Z.opp_involutive (next + 1)), Z.rem_opp_l by lia.
    rewrite Z.rem_small by lia. reflexivity.
Qed.

(** A number that is at least 2 and free ends the loop at once. *)
Lemma findFree_free fuel start allocated next :
  (2 <= next)%Z -> next ∉ allocated ->
  findFree fuel start allocated next = Some (inr next).
Proof.
  intros Hge Hfree.
  destruct fuel; cbn; rewrite (proj2 (Z.ltb_ge _ _) Hge), (bool_decide_eq_false_2 _ Hfree);
    reflexivity.
Qed.

(** Below 2 the loop climbs to 2, one step per iteration. *)
Lemma findFree_climbs fuel : forall start allocated next,
  (-0xffff < start <= next)%Z -> (next < 2)%Z -> 2%Z ∉ allocated ->
  Z.to_nat (2 - next) <= fuel ->
  findFree fuel start allocated next = Some (inr 2%Z).
Proof.
  induction fuel as [|fuel IH]; intros start allocated next Hstart Hlt Hfree Hfuel; [lia|].
  cbn [findFree]. rewrite (proj2 (Z.ltb_lt _ _) Hlt). cbn [orb].
  rewrite rem_succ_small by lia.
  rewrite (proj2 (Z.eqb_neq _ _)) by lia.
  destruct (Z.eq_dec (next + 1)%Z 2%Z) as [E | Hne].
  - rewrite E. apply findFree_free; [lia | exact Hfree].
  - apply IH; [lia | lia | exact Hfree | lia].
Qed.

(** Whatever the fuel, below 2 the loop ends at 2 if it ends at all. *)
Lemma findFree_below fuel : forall start allocated next,
  (-0xffff < start <= next)%Z -> (next < 2)%Z -> 2%Z ∉ allocated ->
  findFree fuel start allocated next = None \/
  findFree fuel start allocated next = Some (inr 2%Z).
Proof.
  induction fuel as [|fuel IH]; intros start allocated next Hstart Hlt Hfree.
  - left. cbn. by rewrite (proj2 (Z.ltb_lt _ _) Hlt).
  - cbn [findFree]. rewrite (proj2 (Z.ltb_lt _ _) Hlt). cbn [orb].
    rewrite rem_succ_small by lia.
    rewrite (proj2 (Z.eqb_neq _ _)) by lia.
    destruct (Z.eq_dec (next + 1)%Z 2%Z) as [E | Hne].
    + right. rewrite E. apply findFree_free; [lia | exact Hfree].
    + apply IH; [lia | lia | exact Hfree].
Qed.

(** In a numbered state the loop, if it ends, ends at the larger of 2 and
    the next number, and never with the exhaustion error. *)
Lemma findFree_numbered fuel allocated next :
  (-0xffff < next)%Z -> (forall n, n ∈ allocated -> (2 <= n < next)%Z) ->
  ((Z.max 2 next) ∉ allocated) /\
  (findFree fuel next allocated next = None \/
   findFree fuel next allocated next = Some (inr (Z.max 2 next))) /\
  (Z.to_nat (2 - next) <= fuel ->
   findFree fuel next allocated next = Some (inr (Z.max 2 next))).
Proof.
  intros Hlo Hbelow.
  assert (Hfree : (Z.max 2 next) ∉ allocated).
  { intros Hin. specialize (Hbelow _ Hin). lia. }
  split; [exact Hfree|].
  destruct (Z.le_gt_cases 2 next) as [Hge | Hlt].
  - rewrite Z.max_r in * by lia.
    rewrite findFree_free by (lia || done). auto.
  - rewrite Z.max_l in * by lia. split.
    + apply findFree_below; [lia | lia | exact Hfree].
    + intros Hfuel. apply findFree_climbs; [lia | lia | exact Hfree | exact Hfuel].
Qed.

(** What a call that may create a store leaves as it is. *)
Lemma storeForPartId_available partId s :
  available s ->
  exists store s1,
    storeForPartId partId s = (Returned store, s1) /\
    stores s1 !! partId = Some store /\
    storeNumber store = (stores s !! partId ≫= storeNumber) /\
    (forall other, other <> partId -> stores s1 !! other = stores s !! other) /\
    construction s1 = construction s /\
    allocatedNumbers s1 = allocatedNumbers s /\
    nextNumber s1 = nextNumber s /\
    numbersPersisted s1 = numbersPersisted s /\
    numbersToPersist s1 = numbersToPersist s.
Proof.
  intros Hav. unfold storeForPartId. rewrite Hav.
  destruct (stores s !! partId) as [store|] eqn:Hstore.
  - exists store, s. rewrite Hstore. cbn. auto 10.
  - eexists _, _. split; [reflexivity|]. cbn. rewrite lookup_insert_eq.
    repeat split; auto. intros other Hne. by rewrite lookup_insert_ne.
Qed.

Lemma persistNumber_frame partId n s :
  let s' := persistNumber partId n s in
  construction s' = construction s /\ stores s' = stores s /\
  allocatedNumbers s' = allocatedNumbers s /\ nextNumber s' = nextNumber s /\
  knownParts s' = knownParts s /\ writes s' = writes s /\
  (numbersToPersist s' ≫= λ numbers, numbers !! partId) = Some n.
Proof.
  unfold persistNumber. destruct (numbersToPersist s) as [numbers|]; cbn.
  - rewrite lookup_insert_eq. repeat split; auto.
  - rewrite lookup_singleton_eq. repeat split; auto.
Qed.

Lemma available_construction s s' :
  construction s' = construction s -> available s -> available s'.
Proof. unfold available, assert. by intros ->. Qed.

Lemma settled_frame partId n s :
  let s' := settled partId n s in
  construction s' = construction s /\
  allocatedNumbers s' = allocatedNumbers s /\ nextNumber s' = nextNumber s /\
  knownParts s' = knownParts s /\ writes s' = writes s /\
  (forall other, other <> partId -> stores s' !! other = stores s !! other) /\
  (is_Some (stores s !! partId) -> (storeNumber <$> stores s' !! partId) = Some (Some n)) /\
  (numbersToPersist s' ≫= λ numbers, numbers !! partId) = Some n.
Proof.
  unfold settled.
  destruct (persistNumber_frame partId n (assignStoreNumber partId n s))
    as (Hc & Hs & Ha & Hn & Hk & Hw & Hp).
  cbn zeta in *. rewrite Hc, Hs, Ha, Hn, Hk, Hw, Hp. cbn.
  repeat split; auto.
  - intros other Hne. by rewrite lookup_alter_ne.
  - intros [store Hstore]. by rewrite lookup_alter_eq, Hstore.
Qed.

(** The allocating branch of assignNumber, in a numbered state. *)
Lemma assignNumber_allocating fuel part partId s next :
  available s -> nextNumber s = Some next -> (-0xffff < next)%Z ->
  (forall n, n ∈ allocatedNumbers s -> (2 <= n < next)%Z) ->
  id part = Some partId -> number part = None ->
  (forall store, stores s !! partId = Some store ->
                 storeNumber store = None \/ storeNumber store = Some 0%Z) ->
  Z.to_nat (2 - next) <= fuel ->
  assignNumber fuel part s
  = Some (Returned {| id := Some partId; number := Some (Z.max 2 next) |},
          settled partId (Z.max 2 next)
            (allocate (Z.max 2 next) (storeForPartId partId s).2)).
Proof.
  intros Hav Hnext Hlo Hbelow Hid Hnumber Hstore Hfuel.
  destruct (storeForPartId_available partId s Hav)
    as (store & s1 & Hcall & Hfiled & Hknown & _ & Hc & Ha & Hn & _ & _).
  destruct (findFree_numbered fuel (allocatedNumbers s) next Hlo Hbelow)
    as (Hfree & _ & Hfound).
  specialize (Hfound Hfuel).
  assert (Hunknown : bool_decide (is_Some (storeNumber store)
                                  ∧ storeNumber store ≠ Some 0%Z) = false).
  { apply bool_decide_eq_false. intros [Hsome Hnz]. rewrite Hknown in Hsome, Hnz.
    destruct (stores s !! partId) as [old|]; cbn in *; [|by destruct Hsome].
    destruct (Hstore old eq_refl) as [E|E]; rewrite E in *; [by destruct Hsome | done]. }
  unfold assignNumber, idOf. rewrite Hav. unfold storeForPart. rewrite Hid, Hcall.
  cbv zeta. rewrite Hnumber, Hunknown.
  rewrite (available_construction s s1 Hc Hav), Hn, Hnext, Ha, Hfound.
  reflexivity.
Qed.

(** The reserving branch of assignNumber, for a number that the counter
    has not handed out. *)
Lemma assignNumber_reserving fuel part partId n s :
  available s -> id part = Some partId -> number part = Some n ->
  n ∉ allocatedNumbers s ->
  assignNumber fuel part s
  = Some (Returned part, settled partId n (storeForPartId partId s).2).
Proof.
  intros Hav Hid Hnumber Hfree.
  destruct (storeForPartId_available partId s Hav)
    as (store & s1 & Hcall & _ & _ & _ & _ & Ha & _).
  unfold assignNumber, idOf. rewrite Hav. unfold storeForPart. rewrite Hid, Hcall.
  cbv zeta. rewrite Hnumber, Ha, (bool_decide_eq_false_2 _ Hfree).
  destruct part as [i k]; cbn in Hid, Hnumber; subst. reflexivity.
Qed.

(** X18. Allocation.  In an available service whose allocated numbers lie
    between 2 and the next number, a part that has an id, no number and no
    number in its store is given the larger of 2 and the next number,
    whatever its size: the number was free, it is now allocated, held by
    the store of the part and noted for persisting, and the next number
    is the one after it. *)
Theorem assignNumber_allocates (fuel : nat) (part : Part) (partId : string)
  (s : State) (next : Z) :
  available s -> nextNumber s = Some next -> (-0xffff < next)%Z ->
  (forall n, n ∈ allocatedNumbers s -> (2 <= n < next)%Z) ->
  id part = Some partId -> number part = None ->
  (forall store, stores s !! partId = Some store ->
                 storeNumber store = None \/ storeNumber store = Some 0%Z) ->
  Z.to_nat (2 - next) <= fuel ->
  let free := Z.max 2 next in
  exists s',
    assignNumber fuel part s
    = Some (Returned {| id := Some partId; number := Some free |}, s') /\
    (free ∉ allocatedNumbers s) /\
    allocatedNumbers s' = {[ free ]} ∪ allocatedNumbers s /\
    nextNumber s' = Some (free + 1)%Z /\
    (storeNumber <$> stores s' !! partId) = Some (Some free) /\
    (numbersToPersist s' ≫= λ numbers, numbers !! partId) = Some free /\
    available s' /\ numbered s'.
Proof.
  intros Hav Hnext Hlo Hbelow Hid Hnumber Hstore Hfuel free.
  eexists. split; [by apply (assignNumber_allocating fuel part partId s next)|].
  fold free.
  destruct (storeForPartId_available partId s Hav)
    as (store & s1 & Hcall & Hfiled & _ & _ & Hc & Ha & _).
  rewrite Hcall. cbn [snd].
  destruct (settled_frame partId free (allocate free s1))
    as (Hc' & Ha' & Hn' & _ & _ & _ & Hs' & Hp').
  cbn zeta in *. rewrite Ha', Hn', Hp'. cbn.
  assert (Hfree : free ∉ allocatedNumbers s).
  { intros Hin. specialize (Hbelow _ Hin). unfold free in Hbelow. lia. }
  split; [exact Hfree|]. split; [by rewrite Ha|]. split; [reflexivity|].
  split; [apply Hs'; cbn; by rewrite Hfiled|]. split; [reflexivity|].
  split.
  - apply (available_construction s); [|exact Hav]. rewrite Hc'. cbn. exact Hc.
  - exists (free + 1)%Z. rewrite Hn', Ha'. cbn. split; [reflexivity|]. split; [unfold free; lia|].
    intros n Hin. rewrite Ha in Hin. apply elem_of_union in Hin as [Hin|Hin].
    + apply elem_of_singleton in Hin. lia.
    + specialize (Hbelow n Hin). unfold free. lia.
Qed.

Lemma assignNumber_allocates_witness :
  let s := initialized None None None None (λ _, None) in
  let part := {| id := Some "lamp"; number := None |} in
  exists s',
    assignNumber 1 part s = Some (Returned {| id := Some "lamp"; number := Some 2%Z |}, s') /\
    (2%Z ∉ allocatedNumbers s) /\
    allocatedNumbers s' = {[ 2%Z ]} ∪ allocatedNumbers s /\
    nextNumber s' = Some 3%Z /\
    (storeNumber <$> stores s' !! "lamp") = Some (Some 2%Z) /\
    (numbersToPersist s' ≫= λ numbers, numbers !! "lamp") = Some 2%Z /\
    available s' /\ numbered s'.
Proof.
  cbn zeta.
  refine (assignNumber_allocates 1 {| id := Some "lamp"; number := None |} "lamp"
            (initialized None None None None (λ _, None)) 1 _ _ _ _ _ _ _ _).
  - reflexivity.
  - reflexivity.
  - lia.
  - intros n Hn. cbn in Hn. by apply not_elem_of_empty in Hn.
  - reflexivity.
  - reflexivity.
  - intros store Hstore. vm_compute in Hstore. discriminate.
  - vm_compute. lia.
Defined.

Lemma storeForPartId_frame partId s :
  let r := storeForPartId partId s in
  construction r.2 = construction s /\
  allocatedNumbers r.2 = allocatedNumbers s /\ nextNumber r.2 = nextNumber s /\
  numbersPersisted r.2 = numbersPersisted s /\
  numbersToPersist r.2 = numbersToPersist s.
Proof.
  unfold storeForPartId. destruct (assert s); [cbn; auto 6|].
  destruct (stores s !! partId); cbn; auto 6.
Qed.

Lemma storeForPart_frame part s :
  let r := storeForPart part s in
  construction r.2 = construction s /\
  allocatedNumbers r.2 = allocatedNumbers s /\ nextNumber r.2 = nextNumber s /\
  numbersPersisted r.2 = numbersPersisted s /\
  numbersToPersist r.2 = numbersToPersist s.
Proof.
  unfold storeForPart. destruct (id part); [apply storeForPartId_frame | cbn; auto 6].
Qed.

Lemma numbered_frame s s' :
  nextNumber s' = nextNumber s -> allocatedNumbers s' = allocatedNumbers s ->
  numbered s -> numbered s'.
Proof. unfold numbered. intros -> ->. auto. Qed.

Lemma storeForPart_throws part s e s' :
  storeForPart part s = (Threw e, s') -> e <> exhausted.
Proof.
  unfold storeForPart, storeForPartId, assert, exhausted.
  destruct (id part); [|intros [= <- _]; discriminate].
  destruct (AsyncConstruction.assert (construction s)); cbn; [intros [= <- _]; discriminate|].
  destruct (stores s !! _); discriminate.
Qed.

(** X19. The numbering is kept.  Whatever part is presented and however the
    call ends, assignNumber leaves the allocated numbers between 2 and the
    next number: it takes no number back, never lowers the next number,
    does not touch the construction, and the error of the exhaustion check
    is never thrown. *)
Theorem assignNumber_keeps_numbered (fuel : nat) (part : Part) (s : State)
  (o : Outcome Part) (s' : State) :
  numbered s -> assignNumber fuel part s = Some (o, s') ->
  numbered s' /\ construction s' = construction s /\
  allocatedNumbers s ⊆ allocatedNumbers s' /\
  (forall next next', nextNumber s = Some next -> nextNumber s' = Some next' ->
                      (next <= next')%Z) /\
  o <> Threw exhausted.
Proof.
  intros Hnum Hcall. pose proof storeForPart_throws as Hthrows. unfold exhausted in *.
  assert (Hsame : forall t (x : Outcome Part),
             construction t = construction s -> allocatedNumbers t = allocatedNumbers s ->
             nextNumber t = nextNumber s ->
             x <> Threw exhausted ->
             numbered t /\ construction t = construction s /\
             allocatedNumbers s ⊆ allocatedNumbers t /\
             (forall next next', nextNumber s = Some next -> nextNumber t = Some next' ->
                                 (next <= next')%Z) /\
             x <> Threw exhausted).
  { intros t x Hc Ha Hn Hx. split; [by apply (numbered_frame s)|]. split; [exact Hc|].
    split; [by rewrite Ha|]. split; [|exact Hx].
    intros next next' E E'. rewrite Hn, E in E'. injection E' as <-. lia. }
  unfold assignNumber in Hcall.
  destruct (assert s) as [e|] eqn:Hassert.
  { injection Hcall as <- <-. apply Hsame; auto. unfold assert in Hassert.
    destruct (AsyncConstruction.assert (construction s)); cbn in Hassert; [|discriminate].
    injection Hassert as <-. discriminate. }
  pose proof (storeForPart_frame part s) as Hframe. cbn zeta in Hframe.
  destruct (storeForPart part s) as [[store|e] s1] eqn:Hstore; cbn in Hframe;
    destruct Hframe as (Hc & Ha & Hn & _ & _).
  2:{ injection Hcall as <- <-. apply Hsame; auto.
      intros [= E]. by apply (Hthrows part s e s1 Hstore). }
  cbv zeta in Hcall.
  destruct (number part) as [reserved|].
  - destruct (bool_decide (reserved ∈ allocatedNumbers s1)).
    + pose proof (storeForPart_frame part s1) as Hframe. cbn zeta in Hframe.
      destruct (storeForPart part s1) as [[again|e] s2] eqn:Hagain; cbn in Hframe;
        destruct Hframe as (Hc2 & Ha2 & Hn2 & _ & _).
      * destruct (bool_decide (storeNumber again = Some reserved));
          injection Hcall as <- <-; apply Hsame; first [discriminate | congruence].
      * injection Hcall as <- <-. apply Hsame; try first [discriminate | congruence].
        intros [= E]. by apply (Hthrows part s1 e s2 Hagain).
    + injection Hcall as <- <-.
      destruct (settled_frame (idOf part) reserved s1) as (Hc' & Ha' & Hn' & _).
      unfold settled in Hc', Ha', Hn'.
      apply Hsame; first [discriminate | congruence].
  - destruct (bool_decide (is_Some (storeNumber store) ∧ storeNumber store ≠ Some 0%Z)).
    { injection Hcall as <- <-. apply Hsame; first [discriminate | congruence]. }
    destruct (assert s1) as [e|] eqn:Hassert1.
    { injection Hcall as <- <-. apply Hsame; auto. unfold assert in Hassert1.
      destruct (AsyncConstruction.assert (construction s1)); cbn in Hassert1; [|discriminate].
      injection Hassert1 as <-. discriminate. }
    destruct Hnum as (next & Hnext & Hlo & Hbelow).
    rewrite Hn, Hnext, Ha in Hcall.
    destruct (findFree_numbered fuel (allocatedNumbers s) next Hlo Hbelow)
      as (Hfree & [Hnone | Hfound] & _).
    { rewrite Hnone in Hcall. discriminate. }
    rewrite Hfound in Hcall. injection Hcall as <- <-.
    destruct (settled_frame (idOf part) (Z.max 2 next) (allocate (Z.max 2 next) s1))
      as (Hc' & Ha' & Hn' & _).
    unfold settled in Hc', Ha', Hn'.
    cbn zeta in *. split; [|split; [|split; [|split]]].
    + exists (Z.max 2 next + 1)%Z. rewrite Hn', Ha'. cbn.
      split; [reflexivity|]. split; [lia|].
      intros n Hin. rewrite Ha in Hin. apply elem_of_union in Hin as [Hin|Hin].
      * apply elem_of_singleton in Hin. lia.
      * specialize (Hbelow n Hin). lia.
    + rewrite Hc'. cbn. exact Hc.
    + rewrite Ha'. cbn. rewrite Ha. apply union_subseteq_r.
    + intros n n'. rewrite Hnext, Hn'. cbn. intros [= <-] [= <-]. lia.
    + discriminate.
Qed.

Lemma assignNumber_keeps_numbered_witness :
  let s := initialized None None None None (λ _, None) in
  let part := {| id := Some "lamp"; number := None |} in
  let s' := settled "lamp" 2 (allocate 2 (storeForPartId "lamp" s).2) in
  numbered s /\
  numbered s' /\ construction s' = construction s /\
  allocatedNumbers s ⊆ allocatedNumbers s' /\
  (forall next next', nextNumber s = Some next -> nextNumber s' = Some next' ->
                      (next <= next')%Z) /\
  Returned {| id := Some "lamp"; number := Some 2%Z |}
  <> Threw exhausted.
Proof.
  cbn zeta.
  assert (Hnum : numbered (initialized None None None None (λ _, None))).
  { exists 1%Z. split; [reflexivity|]. split; [lia|].
    intros n Hn. cbn in Hn. by apply not_elem_of_empty in Hn. }
  split; [exact Hnum|].
  refine (assignNumber_keeps_numbered 1 {| id := Some "lamp"; number := None |}
            (initialized None None None None (λ _, None)) _ _ Hnum _).
  vm_compute. reflexivity.
Defined.


(** One reservation of a number that the counter has not handed out. *)
Lemma reserving_step partId n s :
  available s ->
  let s1 := settled partId n (storeForPartId partId s).2 in
  available s1 /\ nextNumber s1 = nextNumber s /\
  allocatedNumbers s1 = allocatedNumbers s /\
  (storeNumber <$> stores s1 !! partId) = Some (Some n) /\
  (forall other, other <> partId -> stores s1 !! other = stores s !! other).
Proof.
  intros Hav.
  destruct (storeForPartId_available partId s Hav)
    as (store & s0 & Hcall & Hfiled & _ & Hother & Hc & Ha & Hn & _).
  rewrite Hcall. cbn [snd].
  destruct (settled_frame partId n s0) as (Hc' & Ha' & Hn' & _ & _ & Hother' & Hs' & _).
  cbn zeta in *. split; [|split; [|split; [|split]]].
  - apply (available_construction s); [congruence | exact Hav].
  - congruence.
  - congruence.
  - apply Hs'. by rewrite Hfiled.
  - intros other Hne. rewrite Hother' by done. by apply Hother.
Qed.

(** X20. Reserved numbers are not set aside.  A number that a part brings
    along is stored and persisted but not recorded as allocated: when the
    number is the one the counter hands out next, a second part may bring
    the same number and a third part is allocated it, all without an
    error; the stores of the three parts then hold the same number. *)
Theorem reserved_number_is_not_protected (fuel : nat) (first second third : string)
  (s : State) (next : Z) :
  available s -> nextNumber s = Some next -> (-0xffff < next)%Z ->
  (forall n, n ∈ allocatedNumbers s -> (2 <= n < next)%Z) ->
  first <> second -> first <> third -> second <> third ->
  (forall store, stores s !! third = Some store ->
                 storeNumber store = None \/ storeNumber store = Some 0%Z) ->
  Z.to_nat (2 - next) <= fuel ->
  let n := Z.max 2 next in
  let p := {| id := Some first; number := Some n |} in
  let q := {| id := Some second; number := Some n |} in
  let r := {| id := Some third; number := None |} in
  exists s1 s2 s3,
    assignNumber fuel p s = Some (Returned p, s1) /\
    assignNumber fuel q s1 = Some (Returned q, s2) /\
    assignNumber fuel r s2 = Some (Returned {| id := Some third; number := Some n |}, s3) /\
    forall partId, partId ∈ [first; second; third] ->
                   (storeNumber <$> stores s3 !! partId) = Some (Some n).
Proof.
  intros Hav Hnext Hlo Hbelow H12 H13 H23 Hstore Hfuel n p q r.
  assert (Hfree : n ∉ allocatedNumbers s).
  { intros Hin. specialize (Hbelow _ Hin). unfold n in Hbelow. lia. }
  destruct (reserving_step first n s Hav) as (Hav1 & Hn1 & Ha1 & Hs1 & Ho1).
  set (s1 := settled first n (storeForPartId first s).2) in *.
  assert (Hfree1 : n ∉ allocatedNumbers s1) by (by rewrite Ha1).
  destruct (reserving_step second n s1 Hav1) as (Hav2 & Hn2 & Ha2 & Hs2 & Ho2).
  set (s2 := settled second n (storeForPartId second s1).2) in *.
  assert (Hbelow2 : forall k, k ∈ allocatedNumbers s2 -> (2 <= k < next)%Z).
  { intros k. rewrite Ha2, Ha1. apply Hbelow. }
  assert (Hstore2 : forall store, stores s2 !! third = Some store ->
                      storeNumber store = None \/ storeNumber store = Some 0%Z).
  { intros store. rewrite Ho2, Ho1 by done. apply Hstore. }
  assert (Hnext2 : nextNumber s2 = Some next) by congruence.
  exists s1, s2. eexists.
  split; [by apply assignNumber_reserving|].
  split; [by apply assignNumber_reserving|].
  split; [by apply (assignNumber_allocating fuel r third s2 next)|].
  fold n.
  destruct (storeForPartId_available third s2 Hav2)
    as (store & s0 & Hcall & Hfiled & _ & Hother & _).
  rewrite Hcall. cbn [snd].
  destruct (settled_frame third n (allocate n s0)) as (_ & _ & _ & _ & _ & Ho3 & Hs3 & _).
  cbn zeta in *.
  intros partId Hin. apply elem_of_cons in Hin as [-> | Hin];
    [|apply elem_of_cons in Hin as [-> | Hin];
      [|apply list_elem_of_singleton in Hin as ->]].
  - rewrite Ho3 by done. cbn. rewrite Hother by done. rewrite Ho2 by done. exact Hs1.
  - rewrite Ho3 by done. cbn. rewrite Hother by done. exact Hs2.
  - apply Hs3. cbn. by rewrite Hfiled.
Qed.

Lemma reserved_number_is_not_protected_witness :
  let s := initialized None None None None (λ _, None) in
  let p := {| id := Some "lamp"; number := Some 2%Z |} in
  let q := {| id := Some "plug"; number := Some 2%Z |} in
  let r := {| id := Some "lock"; number := None |} in
  exists s1 s2 s3,
    assignNumber 1 p s = Some (Returned p, s1) /\
    assignNumber 1 q s1 = Some (Returned q, s2) /\
    assignNumber 1 r s2 = Some (Returned {| id := Some "lock"; number := Some 2%Z |}, s3) /\
    forall partId, partId ∈ ["lamp"; "plug"; "lock"] ->
                   (storeNumber <$> stores s3 !! partId) = Some (Some 2%Z).
Proof.
  cbn zeta.
  refine (reserved_number_is_not_protected 1 "lamp" "plug" "lock"
            (initialized None None None None (λ _, None)) 1 _ _ _ _ _ _ _ _ _).
  - reflexivity.
  - reflexivity.
  - lia.
  - intros n Hn. cbn in Hn. by apply not_elem_of_empty in Hn.
  - discriminate.
  - discriminate.
  - discriminate.
  - intros store Hstore. vm_compute in Hstore. discriminate.
  - vm_compute. lia.
Defined.

(** X21. Allocated numbers have one owner.  Once the counter has handed a
    number to a part, the part may present that number again, which
    changes nothing; a part with another id that presents the number is
    refused with an IdentityConflictError, unless its own store holds the
    number already, and the refusal leaves the numbers as they are. *)
Theorem allocated_number_is_owned (fuel : nat) (owner other : string)
  (s : State) (next : Z) :
  available s -> nextNumber s = Some next -> (-0xffff < next)%Z ->
  (forall n, n ∈ allocatedNumbers s -> (2 <= n < next)%Z) ->
  (forall store, stores s !! owner = Some store ->
                 storeNumber store = None \/ storeNumber store = Some 0%Z) ->
  Z.to_nat (2 - next) <= fuel ->
  owner <> other ->
  (forall store, stores s !! other = Some store ->
                 storeNumber store <> Some (Z.max 2 next)) ->
  let n := Z.max 2 next in
  let p := {| id := Some owner; number := Some n |} in
  let q := {| id := Some other; number := Some n |} in
  exists s1 s2,
    assignNumber fuel {| id := Some owner; number := None |} s = Some (Returned p, s1) /\
    assignNumber fuel p s1 = Some (Returned p, s1) /\
    assignNumber fuel q s1 = Some (Threw (IdentityConflictError other n), s2) /\
    allocatedNumbers s2 = allocatedNumbers s1 /\ nextNumber s2 = nextNumber s1 /\
    (storeNumber <$> stores s2 !! owner) = Some (Some n).
Proof.
  intros Hav Hnext Hlo Hbelow Hstore Hfuel Hne Hother n p q.
  destruct (storeForPartId_available owner s Hav)
    as (store & s0 & Hcall & Hfiled & _ & Hrest & Hc & Ha & _).
  destruct (settled_frame owner n (allocate n s0))
    as (Hc' & Ha' & Hn' & _ & _ & Ho' & Hs' & _).
  cbn zeta in *.
  pose proof (assignNumber_allocating fuel {| id := Some owner; number := None |}
                owner s next Hav Hnext Hlo Hbelow eq_refl eq_refl Hstore Hfuel) as Hfirst.
  fold n in Hfirst. rewrite Hcall in Hfirst. cbn [snd] in Hfirst.
  set (s1 := settled owner n (allocate n s0)) in *.
  assert (Hav1 : available s1).
  { apply (available_construction s); [|exact Hav]. rewrite Hc'. cbn. exact Hc. }
  assert (Hin : n ∈ allocatedNumbers s1).
  { rewrite Ha'. cbn. apply elem_of_union_l. by apply elem_of_singleton. }
  assert (Hmine : exists mine, stores s1 !! owner = Some mine /\ storeNumber mine = Some n).
  { specialize (Hs' ltac:(cbn; by rewrite Hfiled)).
    destruct (stores s1 !! owner) as [mine|]; cbn in Hs'; [|discriminate].
    exists mine. split; [reflexivity | congruence]. }
  destruct Hmine as (mine & Hmine & Hnumber).
  destruct (storeForPartId_available other s1 Hav1)
    as (theirs & s2 & Hcall2 & Hfiled2 & Hknown2 & Hrest2 & Hc2 & Ha2 & Hn2 & _).
  assert (Hagain : storeForPartId other s2 = (Returned theirs, s2)).
  { unfold storeForPartId.
    rewrite (available_construction s1 s2 Hc2 Hav1), Hfiled2. reflexivity. }
  exists s1, s2. split; [exact Hfirst|]. split; [|split; [|split; [|split]]].
  - unfold assignNumber, idOf, storeForPart, storeForPartId. cbn [id number p].
    rewrite Hav1, Hmine. cbv zeta. rewrite (bool_decide_eq_true_2 _ Hin), Hav1, Hmine.
    by rewrite (bool_decide_eq_true_2 _ Hnumber).
  - unfold assignNumber, idOf, storeForPart. cbn [id number q].
    rewrite Hav1, Hcall2. cbv zeta. rewrite Ha2, (bool_decide_eq_true_2 _ Hin), Hagain.
    rewrite bool_decide_eq_false_2; [reflexivity|].
    rewrite Hknown2, Ho' by done. cbn. rewrite Hrest by done.
    destruct (stores s !! other) as [old|] eqn:Hold; cbn; [|discriminate].
    by apply Hother.
  - exact Ha2.
  - exact Hn2.
  - rewrite Hrest2 by done. rewrite Hmine. cbn. by rewrite Hnumber.
Qed.

Lemma allocated_number_is_owned_witness :
  let s := initialized None None None None (λ _, None) in
  let p := {| id := Some "lamp"; number := Some 2%Z |} in
  let q := {| id := Some "plug"; number := Some 2%Z |} in
  exists s1 s2,
    assignNumber 1 {| id := Some "lamp"; number := None |} s = Some (Returned p, s1) /\
    assignNumber 1 p s1 = Some (Returned p, s1) /\
    assignNumber 1 q s1 = Some (Threw (IdentityConflictError "plug" 2), s2) /\
    allocatedNumbers s2 = allocatedNumbers s1 /\ nextNumber s2 = nextNumber s1 /\
    (storeNumber <$> stores s2 !! "lamp") = Some (Some 2%Z).
Proof.
  cbn zeta.
  refine (allocated_number_is_owned 1 "lamp" "plug"
            (initialized None None None None (λ _, None)) 1 _ _ _ _ _ _ _ _).
  - reflexivity.
  - reflexivity.
  - lia.
  - intros n Hn. cbn in Hn. by apply not_elem_of_empty in Hn.
  - intros store Hstore. vm_compute in Hstore. discriminate.
  - vm_compute. lia.
  - discriminate.
  - intros store Hstore. vm_compute in Hstore. discriminate.
Defined.


(** *** The state that the initializer leaves *)

Lemma newSet_from (array : list string) : forall set,
  NoDup set ->
  let result := fold_left (λ set x, if bool_decide (x ∈ set) then set else app set [x])
                  array set in
  NoDup result /\ forall x, x ∈ result <-> x ∈ set \/ x ∈ array.
Proof.
  induction array as [|y array IH]; intros set Hnd; cbn.
  - split; [exact Hnd|]. intros x. rewrite elem_of_nil. tauto.
  - destruct (bool_decide (y ∈ set)) eqn:Hy.
    + apply bool_decide_eq_true in Hy. destruct (IH set Hnd) as [Hnd' Hin].
      split; [exact Hnd'|]. intros x. rewrite Hin, elem_of_cons.
      split; [tauto|]. intros [?|[->|?]]; auto.
    + apply bool_decide_eq_false in Hy.
      assert (Hnd1 : NoDup (app set [y])).
      { apply NoDup_app. split; [exact Hnd|]. split; [|apply NoDup_singleton].
        intros x Hx Hx'. apply list_elem_of_singleton in Hx' as ->. done. }
      destruct (IH _ Hnd1) as [Hnd' Hin].
      split; [exact Hnd'|]. intros x.
      rewrite Hin, elem_of_app, list_elem_of_singleton, elem_of_cons. tauto.
Qed.

Lemma newSet_spec array :
  NoDup (newSet array) /\ forall x, x ∈ newSet array <-> x ∈ array.
Proof.
  destruct (newSet_from array [] (NoDup_nil_2)) as [Hnd Hin].
  split; [exact Hnd|]. intros x. unfold newSet. rewrite Hin, elem_of_nil. tauto.
Qed.

Lemma loaded_lookup (content : string -> option Z) (l : list string) :
  forall (m : gmap string ServerPartStore) x,
  fold_left (λ m partId, <[partId := {| storeNumber := content partId; isNew := false |}]> m)
    l m !! x
  = if bool_decide (x ∈ l) then Some {| storeNumber := content x; isNew := false |}
    else m !! x.
Proof.
  induction l as [|y l IH]; intros m x; cbn [fold_left].
  - rewrite bool_decide_eq_false_2; [done | apply not_elem_of_nil].
  - rewrite IH. destruct (bool_decide (x ∈ l)) eqn:Hl.
    + apply bool_decide_eq_true in Hl.
      rewrite bool_decide_eq_true_2; [done | by apply list_elem_of_further].
    + apply bool_decide_eq_false in Hl. destruct (decide (x = y)) as [->|Hne].
      * rewrite lookup_insert_eq, bool_decide_eq_true_2; [done | apply list_elem_of_here].
      * rewrite lookup_insert_ne by done. rewrite bool_decide_eq_false_2; [done|].
        rewrite elem_of_cons. tauto.
Qed.

Lemma initialized_available nextNumber stored loadKnown known loadedStore :
  available (initialized nextNumber stored loadKnown known loadedStore).
Proof. reflexivity. Qed.

Lemma loadNextNumber_range nextNumber stored :
  let next := (loadNextNumber nextNumber stored).1 in
  next <> 0%Z /\ (-0xffff < next < 0xffff)%Z.
Proof.
  unfold loadNextNumber. cbv zeta.
  set (v := default (default 1%Z nextNumber) stored).
  pose proof (Z.rem_bound_abs v 0xffff ltac:(lia)) as Habs.
  destruct (Z.eqb_spec (Z.rem v 0xffff) 0) as [E|Hne]; cbn; [lia|].
  split; [exact Hne | lia].
Qed.

Lemma initialized_numbered nextNumber stored loadKnown known loadedStore :
  numbered (initialized nextNumber stored loadKnown known loadedStore).
Proof.
  destruct (loadNextNumber_range nextNumber stored) as [Hnz Hrange]. cbn zeta in *.
  eexists. split; [reflexivity|]. split; [lia|].
  intros n Hn. cbn in Hn. by apply not_elem_of_empty in Hn.
Qed.

Lemma initialized_bookkept nextNumber stored loadKnown known loadedStore :
  bookkept (initialized nextNumber stored loadKnown known loadedStore).
Proof.
  destruct (newSet_spec (default [] known)) as [Hnd Hin].
  unfold bookkept, initialized. cbn.
  destruct (negb (bool_decide (loadKnown = Some false))).
  - split; [exact Hnd|]. split; [|split; [by left | by intros [? [=]]]].
    intros partId. rewrite loaded_lookup.
    destruct (bool_decide (partId ∈ newSet (default [] known))) eqn:E.
    + intros _. by apply bool_decide_eq_true in E.
    + rewrite lookup_empty. by intros [? [=]].
  - split; [apply NoDup_nil_2|]. split; [|split; [by left | by intros [? [=]]]].
    intros partId. rewrite lookup_empty. by intros [? [=]].
Qed.

(** X22. The state after loading.  Whatever the storage holds, the service
    is available once its initializer has run: the next number is not 0
    and lies strictly between -0xffff and 0xffff, it is the stored number
    when that lies between 1 and 0xfffe, no number is allocated, and the
    bookkeeping of the stores is in order.  *)
Theorem initialized_is_in_order (nextNumber stored : option Z) (loadKnown : option bool)
  (known : option (list string)) (loadedStore : string -> option Z) :
  let s := initialized nextNumber stored loadKnown known loadedStore in
  available s /\ numbered s /\ bookkept s /\ allocatedNumbers s = ∅ /\
  exists next,
    PartStoreService.nextNumber s = Some next /\ next <> 0%Z /\
    (-0xffff < next < 0xffff)%Z /\
    (forall v, stored = Some v -> (0 < v < 0xffff)%Z -> next = v).
Proof.
  cbn zeta. destruct (loadNextNumber_range nextNumber stored) as [Hnz Hrange].
  cbn zeta in *.
  split; [apply initialized_available|].
  split; [apply initialized_numbered|].
  split; [apply initialized_bookkept|].
  split; [reflexivity|].
  eexists. split; [reflexivity|]. split; [exact Hnz|]. split; [exact Hrange|].
  intros v -> Hv. unfold loadNextNumber. cbn.
  rewrite Z.rem_small by lia.
  destruct (Z.eqb_spec v 0); [lia | reflexivity].
Qed.

(** X23. Numbers survive a restart.  A part that the storage lists as known
    and whose loaded store holds a number other than 0 is given that
    number back: nothing is allocated, stored or noted for persisting, the
    service stays exactly as it was loaded. *)
Theorem known_part_gets_its_number_back (fuel : nat) (nextNumber stored : option Z)
  (loadKnown : option bool) (known : list string) (loadedStore : string -> option Z)
  (partId : string) (k : Z) :
  loadKnown <> Some false -> partId ∈ known ->
  loadedStore partId = Some k -> k <> 0%Z ->
  let s := initialized nextNumber stored loadKnown (Some known) loadedStore in
  assignNumber fuel {| id := Some partId; number := None |} s
  = Some (Returned {| id := Some partId; number := Some k |}, s).
Proof.
  intros Hload Hknown Hstore Hk. cbn zeta.
  set (s := initialized nextNumber stored loadKnown (Some known) loadedStore).
  assert (Hfiled : stores s !! partId = Some {| storeNumber := Some k; isNew := false |}).
  { unfold s, initialized. cbn.
    rewrite (bool_decide_eq_false_2 _ Hload). cbn.
    rewrite loaded_lookup, bool_decide_eq_true_2, Hstore; [done|].
    by apply (proj2 (newSet_spec known)). }
  unfold assignNumber, idOf, storeForPart, storeForPartId. cbn [id number].
  assert (Hav : assert s = None) by apply initialized_available.
  rewrite Hav, Hfiled. cbv zeta. cbn [storeNumber].
  rewrite bool_decide_eq_true_2; [reflexivity|].
  split; [by eexists | congruence].
Qed.

Lemma known_part_gets_its_number_back_witness :
  let s := initialized None (Some 7%Z) None (Some ["lamp"; "plug"])
             (λ partId, if String.eqb partId "lamp" then Some 5%Z else None) in
  assignNumber 0 {| id := Some "lamp"; number := None |} s
  = Some (Returned {| id := Some "lamp"; number := Some 5%Z |}, s).
Proof.
  cbn zeta.
  refine (known_part_gets_its_number_back 0 None (Some 7%Z) None ["lamp"; "plug"]
            (λ partId, if String.eqb partId "lamp" then Some 5%Z else None)
            "lamp" 5 _ _ _ _).
  - discriminate.
  - apply list_elem_of_here.
  - reflexivity.
  - lia.
Defined.

(** *** The bookkeeping of stores *)

Lemma storeForPartId_bookkept partId s :
  bookkept s -> bookkept (storeForPartId partId s).2.
Proof.
  intros (Hnd & Hlisted & Hlast & Hsched). unfold storeForPartId.
  destruct (assert s); [done|].
  destruct (stores s !! partId) eqn:Hstore; [done|]. cbn.
  destruct (bool_decide (partId ∈ knownParts s)) eqn:Hknown.
  - apply bool_decide_eq_true in Hknown. unfold bookkept. cbn.
    split; [exact Hnd|]. split; [|by split].
    intros other. destruct (decide (other = partId)) as [->|Hne]; [done|].
    rewrite lookup_insert_ne by done. apply Hlisted.
  - apply bool_decide_eq_false in Hknown. unfold bookkept. cbn.
    split; [|split; [|split]].
    + apply NoDup_app. split; [exact Hnd|]. split; [|apply NoDup_singleton].
      intros x Hx Hx'. apply list_elem_of_singleton in Hx' as ->. done.
    + intros other. rewrite elem_of_app, list_elem_of_singleton.
      destruct (decide (other = partId)) as [->|Hne]; [by right|].
      rewrite lookup_insert_ne by done. left. by apply Hlisted.
    + right. by rewrite last_snoc.
    + exact Hsched.
Qed.

Lemma storeForPart_bookkept part s :
  bookkept s -> bookkept (storeForPart part s).2.
Proof.
  unfold storeForPart. destruct (id part); [apply storeForPartId_bookkept | done].
Qed.

Lemma settled_bookkept partId n s : bookkept s -> bookkept (settled partId n s).
Proof.
  intros (Hnd & Hlisted & Hlast & Hsched).
  unfold settled, persistNumber, bookkept.
  destruct (numbersToPersist (assignStoreNumber partId n s)) eqn:E; cbn in *.
  - split; [exact Hnd|]. split; [|split; [exact Hlast|]].
    + intros other. rewrite lookup_alter_is_Some. apply Hlisted.
    + intros _. apply Hsched. by rewrite E.
  - split; [exact Hnd|]. split; [|split; [exact Hlast | by eexists]].
    intros other. rewrite lookup_alter_is_Some. apply Hlisted.
Qed.

(** X24. The known parts are kept in step.  However a call of assignNumber
    ends, the set of known parts stays free of duplicates and lists every
    part that has a store, the last list written to the storage is that
    set, and a set of numbers waits to be persisted only while a run of
    the persister is chained. *)
Theorem assignNumber_keeps_bookkept (fuel : nat) (part : Part) (s : State)
  (o : Outcome Part) (s' : State) :
  bookkept s -> assignNumber fuel part s = Some (o, s') -> bookkept s'.
Proof.
  intros Hbook Hcall. unfold assignNumber in Hcall.
  destruct (assert s); [by injection Hcall as _ <-|].
  pose proof (storeForPart_bookkept part s Hbook) as Hbook1.
  destruct (storeForPart part s) as [[store|e] s1]; cbn in Hbook1;
    [|by injection Hcall as _ <-].
  cbv zeta in Hcall.
  destruct (number part) as [reserved|].
  - destruct (bool_decide (reserved ∈ allocatedNumbers s1)).
    + pose proof (storeForPart_bookkept part s1 Hbook1) as Hbook2.
      destruct (storeForPart part s1) as [[again|e] s2]; cbn in Hbook2;
        [destruct (bool_decide (storeNumber again = Some reserved))|];
        by injection Hcall as _ <-.
    + injection Hcall as _ <-. by apply settled_bookkept.
  - destruct (bool_decide (is_Some (storeNumber store) ∧ storeNumber store ≠ Some 0%Z));
      [by injection Hcall as _ <-|].
    destruct (assert s1); [by injection Hcall as _ <-|].
    destruct (nextNumber s1) as [startNumber|]; [|by injection Hcall as _ <-].
    destruct (findFree fuel startNumber (allocatedNumbers s1) startNumber) as [[e|free]|];
      [by injection Hcall as _ <- | | discriminate].
    injection Hcall as _ <-. by apply (settled_bookkept _ _ (allocate free s1)).
Qed.

Lemma assignNumber_keeps_bookkept_witness :
  let s := initialized None None None (Some ["lamp"]) (λ _, None) in
  let part := {| id := Some "plug"; number := None |} in
  bookkept s /\
  bookkept (settled "plug" 2 (allocate 2 (storeForPartId "plug" s).2)).
Proof.
  cbn zeta.
  assert (Hbook : bookkept (initialized None None None (Some ["lamp"]) (λ _, None))).
  { apply initialized_bookkept. }
  split; [exact Hbook|].
  refine (assignNumber_keeps_bookkept 1 {| id := Some "plug"; number := None |}
            (initialized None None None (Some ["lamp"]) (λ _, None)) _ _ Hbook _).
  vm_compute. reflexivity.
Defined.


End PartStoreServiceSpec.
